(** * auto-playwright: the task orchestrator and its action registry

    A shallow embedding of [src/completeTask.ts] (the tool-call loop) and of
    [createActions] (the action registry, its zod schemas and the
    visible-structure extraction), with the properties of the specification
    stated and settled on it.

    Conventions of the embedding.
    - A JavaScript string is a [string]: a sequence of code units, of which
      [ascii] covers U+0000..U+00FF.
    - An element of the document is what the page function reads from it:
      a property of an element holds what the browser puts there, which
      on a form can be a control named like the property.
    - A thrown [Error] is the value [Error message]; a computation that may
      throw returns [JsError + A].
    - The browser driver, the language model, [JSON.parse],
      [JSON.stringify], [randomUUID] and the modules [./prompt] and
      [./sanitizeHtml] are outside the repository's sources: they are the
      variables of the sections below.
    - [console.log] tracing under [debug] has no effect on any value and is
      left out. *)

From Stdlib Require Import List String Ascii Bool Arith ZArith Lia Permutation.
Import ListNotations.
Open Scope string_scope.

Set Implicit Arguments.
Set Warnings "-register-all".

(* ------------------------------------------------------------------ *)
(** ** JavaScript strings and values *)

Module JS.

Inductive JsError := Error (message : string).

Definition message (e : JsError) : string := let 'Error m := e in m.

(** [s.startsWith(p)] *)
Definition startsWith (s p : string) : bool := String.prefix p s.

(** [s.slice(0, n)] for [0 <= n] *)
Definition slice0 (n : nat) (s : string) : string := String.substring 0 n s.

(** The white space and line terminators that [trim] removes, among the
    code units below U+0100: TAB, LF, VT, FF, CR, SP and NBSP. *)
Definition isWhiteSpace (c : ascii) : bool :=
  let n := nat_of_ascii c in
  ((n =? 9) || (n =? 10) || (n =? 11) || (n =? 12) || (n =? 13)
   || (n =? 32) || (n =? 160))%nat.

Fixpoint trimStart (s : string) : string :=
  match s with
  | String c r => if isWhiteSpace c then trimStart r else s
  | EmptyString => EmptyString
  end.

(** White space only: what is left of [s] once its end is trimmed is
    empty. *)
Fixpoint blank (s : string) : bool :=
  match s with
  | String c r => isWhiteSpace c && blank r
  | EmptyString => true
  end.

Fixpoint trimEnd (s : string) : string :=
  match s with
  | String c r => if blank s then EmptyString else String c (trimEnd r)
  | EmptyString => EmptyString
  end.

(** [s.trim()] *)
Definition trim (s : string) : string := trimEnd (trimStart s).

(** The lower case of a code unit below U+0100: the letters A to Z, and
    U+00C0 to U+00DE but for the multiplication sign U+00D7, have their
    lower case 32 places up. *)
Definition lowerChar (c : ascii) : ascii :=
  let n := nat_of_ascii c in
  if ((65 <=? n) && (n <=? 90)
      || (192 <=? n) && (n <=? 222) && negb (n =? 215))%nat
  then ascii_of_nat (n + 32) else c.

(** [s.toLowerCase()] *)
Fixpoint toLowerCase (s : string) : string :=
  match s with
  | String c r => String (lowerChar c) (toLowerCase r)
  | EmptyString => EmptyString
  end.

(** [xs.includes(x)] on an array of strings *)
Definition includes (xs : list string) (x : string) : bool :=
  existsb (String.eqb x) xs.

(** A string in a boolean position: the empty string is falsy. *)
Definition truthyString (s : string) : bool :=
  match s with EmptyString => false | _ => true end.

(** Steps that may throw, one after the other: the first throw ends
    them. *)
Definition andThen {A B} (r : JsError + A) (k : A -> JsError + B)
    : JsError + B :=
  match r with
  | inr a => k a
  | inl e => inl e
  end.

Notation "x <-! r ;; k" := (andThen r (fun x => k))
  (at level 61, r at next level, right associativity).

End JS.
Import JS.

Module Json.

(** What [JSON.parse] yields and [JSON.stringify] takes. A number keeps
    its integer value: the schemas below only look at the type of a
    value, and the numbers of the registry are option indices and
    counts. An object is its list of properties in insertion order. *)
Inductive json :=
| JNull
| JBool (b : bool)
| JNum (n : Z)
| JStr (s : string)
| JArr (items : list json)
| JObj (fields : list (string * json)).

Fixpoint assoc {A} (k : string) (l : list (string * A)) : option A :=
  match l with
  | [] => None
  | (k', v) :: r => if String.eqb k k' then Some v else assoc k r
  end.

(** [o.k] : [None] is [undefined]. *)
Definition get (k : string) (o : json) : option json :=
  match o with
  | JObj fields => assoc k fields
  | _ => None
  end.

(** [o.k !== undefined] *)
Definition defined (k : string) (o : json) : bool :=
  match get k o with Some _ => true | None => false end.

(** A value in a boolean position ([if (v)], [!v]). *)
Definition truthy (v : json) : bool :=
  match v with
  | JNull => false
  | JBool b => b
  | JNum n => negb (Z.eqb n 0)
  | JStr s => truthyString s
  | JArr _ | JObj _ => true
  end.

(** [o?.k] in a boolean position: [undefined] is falsy. *)
Definition truthyField (k : string) (o : json) : bool :=
  match get k o with Some v => truthy v | None => false end.

Definition isString (v : json) : bool :=
  match v with JStr _ => true | _ => false end.
Definition isNumber (v : json) : bool :=
  match v with JNum _ => true | _ => false end.
Definition isBoolean (v : json) : bool :=
  match v with JBool _ => true | _ => false end.

(** [args.k] for a property the schema made a string. *)
Definition str (k : string) (o : json) : string :=
  match get k o with Some (JStr s) => s | _ => "" end.

End Json.
Import Json.

(* ------------------------------------------------------------------ *)
(** ** The zod schemas of the registry *)

Module Zod.

(** The schema constructors the registry uses. *)
Inductive ZodType :=
| z_string
| z_number
| z_boolean
| z_array (item : ZodType)
| z_union (a b : ZodType)
| z_optional (inner : ZodType).

(** Whether a value ([None] is [undefined], an absent property) is of a
    type. *)
Fixpoint conforms (t : ZodType) (v : option json) : bool :=
  match t with
  | z_string => match v with Some x => isString x | None => false end
  | z_number => match v with Some x => isNumber x | None => false end
  | z_boolean => match v with Some x => isBoolean x | None => false end
  | z_array item =>
      match v with
      | Some (JArr xs) => forallb (fun x => conforms item (Some x)) xs
      | _ => false
      end
  | z_union a b => conforms a v || conforms b v
  | z_optional inner =>
      match v with None => true | Some _ => conforms inner v end
  end.

Definition Shape := list (string * ZodType).

(** The issue of a property that is not of its type. The text zod gives
    the issue is not modelled. *)
Definition invalid_type : JsError := Error "Invalid input".

(** The parsed object: the properties of the shape that the input
    defines, in the order of the shape; other properties are stripped. *)
Fixpoint strip (shape : Shape) (o : json) : list (string * json) :=
  match shape with
  | [] => []
  | (k, _) :: r =>
      match get k o with
      | Some v => (k, v) :: strip r o
      | None => strip r o
      end
  end.

Definition wellTyped (shape : Shape) (o : json) : bool :=
  forallb (fun kt => conforms (snd kt) (get (fst kt) o)) shape.

(** [z.object(shape).parse(v)] *)
Definition z_object (shape : Shape) (v : json) : JsError + json :=
  match v with
  | JObj _ =>
      if wellTyped shape v then inr (JObj (strip shape v))
      else inl invalid_type
  | _ => inl invalid_type
  end.

(** [schema.refine(check, { message })]: the check runs on the value
    the schema parsed. *)
Definition refine (schema : json -> JsError + json)
    (check : json -> bool) (msg : string) (v : json) : JsError + json :=
  match schema v with
  | inr data => if check data then inr data else inl (Error msg)
  | inl e => inl e
  end.

Definition locatorPressKeySchema :=
  z_object [("elementId", z_string); ("key", z_string)].
Definition pagePressKeySchema := z_object [("key", z_string)].
Definition locateElementSchema := z_object [("cssSelector", z_string)].
Definition locatorEvaluateSchema :=
  z_object [("elementId", z_string); ("pageFunction", z_string)].
Definition locatorGetAttributeSchema :=
  z_object [("attributeName", z_string); ("elementId", z_string)].
Definition locatorElementIdSchema := z_object [("elementId", z_string)].
Definition locatorFillSchema :=
  z_object [("value", z_string); ("elementId", z_string)].
Definition pageGotoSchema := z_object [("url", z_string)].

Definition selectOptionShape : Shape :=
  [ ("elementId", z_optional z_string);
    ("cssSelector", z_optional z_string);
    ("value", z_optional (z_union z_string (z_array z_string)));
    ("label", z_optional (z_union z_string (z_array z_string)));
    ("index", z_optional (z_union z_number (z_array z_number))) ].

Definition locatorSelectOptionSchema : json -> JsError + json :=
  refine
    (refine (z_object selectOptionShape)
       (fun data => defined "elementId" data || defined "cssSelector" data)
       "Either elementId or cssSelector must be provided.")
    (fun data =>
       defined "value" data || defined "label" data || defined "index" data)
    "At least one of value, label, or index must be provided.".

Definition expectToBeSchema :=
  z_object [("actual", z_string); ("expected", z_string)].
Definition resultAssertionSchema := z_object [("assertion", z_boolean)].
Definition resultQuerySchema := z_object [("query", z_string)].
Definition resultErrorSchema := z_object [("errorMessage", z_string)].
Definition locateElementsByRoleSchema :=
  z_object [("role", z_string); ("exact", z_optional z_boolean)].
Definition locateElementsWithTextSchema :=
  z_object [("text", z_string); ("exact", z_optional z_boolean)].
Definition emptySchema := z_object [].

End Zod.
Import Zod.

(* ------------------------------------------------------------------ *)
(** ** The document and the visible-structure extraction *)

Module Dom.

(** The three properties of [window.getComputedStyle(element)] that the
    extraction reads. *)
Record ComputedStyle := {
  display : string;
  visibility : string;
  opacity : string
}.

(** An object that a property of an element holds where the interface of
    an element has a string: the control, or the list of controls, that
    a form puts in the place of a property of their name, and the
    [SVGAnimatedString] that is the [className] of an SVG element. The
    page function calls [toString()] on it; [serialized] is what
    [page.evaluate] hands back for it. *)
Record DomObject := {
  toString : string;
  serialized : json
}.

(** What reading a property of an element yields, for the properties
    that are strings on a plain element. *)
Inductive Value :=
| Undefined
| Null
| Str (s : string)
| Obj (o : DomObject).

(** [element.getAttribute]: the method, or a value that is not a
    function and shadows it. *)
Inductive Method :=
| Callable (f : string -> option string)
| NotCallable.

(** The nodes that are neither elements nor text. *)
Inductive CharacterKind := cdataSection | processingInstruction | comment.

(** A node of the document. An element is what the page function reads
    from it, read by read: [window.getComputedStyle(element)];
    [element.tagName]; the [name] and the [value] of every
    [element.attributes[i]] below [element.attributes.length] ([None] is
    [undefined]); [element.id]; [element.getAttribute];
    [element.className]; the items of [element.childNodes];
    [element.textContent]; the items [element.children[i]] below
    [element.children.length]. A collection whose [length] is not a
    number has no items: the loops and the test of the page function
    then see none; and an item of [element.children] that is
    [undefined] is left out, since its extraction is [null] at once. *)
Inductive Node :=
| ElementObject (style : ComputedStyle) (tagName : Value)
    (attributes : list (option string * option string)) (id : Value)
    (getAttribute : Method) (className : Value) (childNodes : list Node)
    (textContent : Value) (children : list Node)
| Text (data : string)
| CharacterData (kind : CharacterKind) (data : string).

Definition nodeType (n : Node) : nat :=
  match n with
  | ElementObject _ _ _ _ _ _ _ _ _ => 1
  | Text _ => 3
  | CharacterData cdataSection _ => 4
  | CharacterData processingInstruction _ => 7
  | CharacterData comment _ => 8
  end.

Definition isElement (n : Node) : bool :=
  match n with ElementObject _ _ _ _ _ _ _ _ _ => true | _ => false end.

(** [element.children] of a plain element: the child nodes that are
    elements. *)
Definition children (childNodes : list Node) : list Node :=
  filter isElement childNodes.

(** The text a child node adds to the [textContent] of a plain element:
    comments and processing instructions add none. *)
Definition textOf (n : Node) : string :=
  match n with
  | ElementObject _ _ _ _ _ _ _ (Str s) _ => s
  | ElementObject _ _ _ _ _ _ _ _ _ => ""
  | Text data => data
  | CharacterData cdataSection data => data
  | CharacterData _ _ => ""
  end.

(** [node.textContent] of a plain element, from its child nodes in
    document order. *)
Fixpoint textContent (childNodes : list Node) : string :=
  match childNodes with
  | [] => ""
  | c :: r => textOf c ++ textContent r
  end.

(** [element.getAttribute(name)] of a plain element: [None] is [null]. *)
Definition getAttribute (attributes : list (string * string))
    (name : string) : option string :=
  assoc name attributes.

(** A reflected attribute ([element.id], [element.className]) of a plain
    element: the empty string when the attribute is absent. *)
Definition reflected (attributes : list (string * string))
    (name : string) : string :=
  match assoc name attributes with Some v => v | None => "" end.

(** A plain element: an HTML element none of whose properties is
    shadowed, from its tag name, its attributes in order, its computed
    style and its child nodes. Every property is the one of the DOM
    interface of the element. *)
Definition Element (tagName : string) (attributes : list (string * string))
    (style : ComputedStyle) (childNodes : list Node) : Node :=
  ElementObject style (Str tagName)
    (map (fun a => (Some (fst a), Some (snd a))) attributes)
    (Str (reflected attributes "id"))
    (Callable (getAttribute attributes))
    (Str (reflected attributes "class"))
    childNodes
    (Str (textContent childNodes))
    (children childNodes).

End Dom.
Import Dom.

Module Structure.

(** The options [getSanitizeOptions()] returns, as far as the extraction
    reads them. [allowedTags = None] is a falsy [allowedTags], replaced
    by the empty array. *)
Inductive AttributeRule :=
| allow_all                          (* true *)
| allow_names (names : list string). (* an array of names *)

Inductive AllowedAttributes :=
| attributes_false
| attributes_object (rules : list (string * AttributeRule))
| attributes_undefined.

Record SanitizeOptions := {
  allowedTags : option (list string);
  allowedAttributes : AllowedAttributes
}.

(** A node of the extracted tree. An optional field that is [None] is a
    property the node does not have; [attributes] is the object
    [node.attributes], its properties in the order of [Object.keys], and
    a value [None] is [undefined]. *)
Inductive StructureNode := mkNode {
  tag : string;
  attributes : list (string * option string);
  id : option Value;
  role : option string;
  ariaLabel : option string;
  className : option string;
  text : option string;
  children : list StructureNode
}.

Definition maxDepth : nat := 30.

Definition hidden (style : ComputedStyle) : bool :=
  String.eqb (display style) "none"
  || String.eqb (visibility style) "hidden"
  || String.eqb (opacity style) "0".

(** [element.tagName.toLowerCase()] *)
Definition lowerCased (tagName : Value) : JsError + string :=
  match tagName with
  | Str s => inr (toLowerCase s)
  | Obj _ => inl (Error "element.tagName.toLowerCase is not a function")
  | Undefined | Null =>
      inl (Error
        "Cannot read properties of undefined (reading 'toLowerCase')")
  end.

Definition isTrue (r : option AttributeRule) : bool :=
  match r with Some allow_all => true | _ => false end.

(** [Array.isArray(r) && r.includes(name)]: no array of names includes
    [undefined]. *)
Definition listed (r : option AttributeRule) (name : option string) : bool :=
  match r, name with
  | Some (allow_names names), Some s => includes names s
  | _, _ => false
  end.

(** The key that [node.attributes[attr.name]] reads or writes. *)
Definition propertyKey (name : option string) : string :=
  match name with Some s => s | None => "undefined" end.

Definition isDigit (c : ascii) : bool :=
  let n := nat_of_ascii c in ((48 <=? n) && (n <=? 57))%nat.

Fixpoint decimal (s : string) (acc : N) : option N :=
  match s with
  | EmptyString => Some acc
  | String c r =>
      if isDigit c then
        decimal r (10 * acc + N.of_nat (nat_of_ascii c - 48))%N
      else None
  end.

(** The array index a property key is, if any: a decimal numeral without
    a leading zero, at most 2^32 - 2. *)
Definition arrayIndex (k : string) : option N :=
  match k with
  | EmptyString => None
  | String c r =>
      if Ascii.eqb c "0" then
        match r with EmptyString => Some 0%N | _ => None end
      else
        match decimal k 0 with
        | Some n => if (n <=? 4294967294)%N then Some n else None
        | None => None
        end
  end.

Fixpoint update (k : string) (v : option string)
    (o : list (string * option string)) : list (string * option string) :=
  match o with
  | [] => []
  | (k', v') :: r =>
      if String.eqb k k' then (k, v) :: r else (k', v') :: update k v r
  end.

(** A new property whose key is the array index [n]: before the first
    property that is no array index or a greater one. *)
Fixpoint insertIndex (n : N) (k : string) (v : option string)
    (o : list (string * option string)) : list (string * option string) :=
  match o with
  | [] => [(k, v)]
  | (k', v') :: r =>
      match arrayIndex k' with
      | Some m =>
          if (m <? n)%N then (k', v') :: insertIndex n k v r
          else (k, v) :: o
      | None => (k, v) :: o
      end
  end.

(** [o[k] = v] on an object made by [{}]: no property is made for
    [__proto__], whose setter on [Object.prototype] drops a value that
    is no object; a property the object has keeps its place; a new
    property comes last, but for an array index, which comes among the
    array indices in ascending order, before every other key. *)
Definition assignProperty (k : string) (v : option string)
    (o : list (string * option string)) : list (string * option string) :=
  if String.eqb k "__proto__" then o
  else if existsb (String.eqb k) (map fst o) then update k v o
  else
    match arrayIndex k with
    | Some n => insertIndex n k v o
    | None => o ++ [(k, v)]
    end.

(** The test of the second loop over the attributes. *)
Definition allowedBy (rules : list (string * AttributeRule)) (tag : string)
    (attrName : option string) : bool :=
  let allowedForAll := assoc "*" rules in
  let allowedForTag := assoc tag rules in
  let allowAllForTag := isTrue allowedForTag in
  let allowAllGlobal := isTrue allowedForAll in
  allowAllForTag || allowAllGlobal
  || listed allowedForTag attrName
  || listed allowedForAll attrName.

(** [node.attributes] after the loops over [element.attributes]. *)
Definition copyAttributes (allowed : AllowedAttributes) (tag : string)
    (elementAttributes : list (option string * option string))
    : list (string * option string) :=
  match allowed with
  | attributes_false =>
      fold_left
        (fun o attr => assignProperty (propertyKey (fst attr)) (snd attr) o)
        elementAttributes []
  | attributes_object rules =>
      fold_left
        (fun o attr =>
           if allowedBy rules tag (fst attr)
           then assignProperty (propertyKey (fst attr)) (snd attr) o
           else o)
        elementAttributes []
  | attributes_undefined => []
  end.

(** A value read from the element in a boolean position. *)
Definition truthyValue (v : Value) : bool :=
  match v with
  | Undefined | Null => false
  | Str s => truthyString s
  | Obj _ => true
  end.

(** [if (id) node.id = id] *)
Definition whenTruthyValue (v : Value) : option Value :=
  if truthyValue v then Some v else None.

(** [if (v) node.k = v] for a string [v]. *)
Definition whenTruthy (v : string) : option string :=
  if truthyString v then Some v else None.

(** The same for [getAttribute], whose [null] is falsy. *)
Definition whenPresent (v : option string) : option string :=
  match v with Some s => whenTruthy s | None => None end.

(** [element.getAttribute(name)] *)
Definition callGetAttribute (getAttribute : Method) (name : string)
    : JsError + option string :=
  match getAttribute with
  | Callable f => inr (f name)
  | NotCallable => inl (Error "element.getAttribute is not a function")
  end.

(** [element.className?.toString().trim()]: [None] is [undefined]. *)
Definition trimmedClassName (className : Value) : option string :=
  match className with
  | Undefined | Null => None
  | Str s => Some (trim s)
  | Obj o => Some (trim (toString o))
  end.

(** [element.textContent?.trim() || ""] *)
Definition trimmedText (textContent : Value) : JsError + string :=
  match textContent with
  | Undefined | Null => inr ""
  | Str s => inr (trim s)
  | Obj _ => inl (Error "element.textContent?.trim is not a function")
  end.

(** [text.length > 50 ? text.slice(0, 50) + "..." : text] *)
Definition truncate (text : string) : string :=
  if (50 <? String.length text)%nat then slice0 50 text ++ "..." else text.

(** The [text] property: set when [element.childNodes] has one item, a
    text node, and the trimmed text of the element is not empty. *)
Definition ownText (childNodes : list Node) (textContent : Value)
    : JsError + option string :=
  match childNodes with
  | [c] =>
      if (nodeType c =? 3)%nat then
        text <-! trimmedText textContent ;;
        inr (if truthyString text then Some (truncate text) else None)
      else inr None
  | _ => inr None
  end.

(** What [window.getComputedStyle] throws for a node that is no
    element. *)
Definition notAnElement : JsError :=
  Error "Failed to execute 'getComputedStyle' on 'Window': parameter 1 is not of type 'Element'.".

(** [extractVisibleStructure(element, depth)] of [getVisibleStructure],
    with [allowedTags], [allowedAttributes] and [maxDepth] as the page
    function receives them. [inr None] is [null]; [inl] is a throw, which
    ends the whole extraction. *)
Fixpoint extractVisibleStructure (allowedTags : list string)
    (allowedAttributes : AllowedAttributes) (maxDepth : nat)
    (element : Node) (depth : nat) : JsError + option StructureNode :=
  if (maxDepth <? depth)%nat then inr None
  else
    match element with
    | ElementObject style tagName elementAttributes id getAttribute
        className childNodes textContent children =>
        if hidden style then inr None
        else
          tag <-! lowerCased tagName ;;
          if negb (includes allowedTags tag) then inr None
          else
            let attributes :=
              copyAttributes allowedAttributes tag elementAttributes in
            role <-! callGetAttribute getAttribute "role" ;;
            ariaLabel <-! callGetAttribute getAttribute "aria-label" ;;
            text <-! ownText childNodes textContent ;;
            nodes <-!
              (if (depth + 1 <? maxDepth)%nat then
                 (fix each (l : list Node) : JsError + list StructureNode :=
                    match l with
                    | [] => inr []
                    | c :: r =>
                        child <-!
                          extractVisibleStructure allowedTags
                            allowedAttributes maxDepth c (depth + 1) ;;
                        rest <-! each r ;;
                        inr (match child with
                             | Some n => n :: rest
                             | None => rest
                             end)
                    end) children
               else inr []) ;;
            inr (Some {|
              tag := tag;
              attributes := attributes;
              id := whenTruthyValue id;
              role := whenPresent role;
              ariaLabel := whenPresent ariaLabel;
              className :=
                match trimmedClassName className with
                | Some s => whenTruthy s
                | None => None
                end;
              text := text;
              children := nodes
            |})
    | _ => inl notAnElement
    end.

(** [extractVisibleStructure(document.body)]: the body may be [null]. *)
Definition extractBody (options : SanitizeOptions) (body : option Node)
    : JsError + option StructureNode :=
  match body with
  | Some element =>
      extractVisibleStructure
        (match allowedTags options with Some tags => tags | None => [] end)
        (allowedAttributes options) maxDepth element 0
  | None => inr None
  end.

Definition optField (k : string) (v : option string)
    : list (string * json) :=
  match v with Some s => [(k, JStr s)] | None => [] end.

(** A property of [node.attributes] in the value handed back: one whose
    value is [undefined] is not written by [JSON.stringify]. *)
Definition attributeField (kv : string * option string)
    : list (string * json) :=
  match snd kv with Some s => [(fst kv, JStr s)] | None => [] end.

Definition idField (v : option Value) : list (string * json) :=
  match v with
  | Some (Str s) => [("id", JStr s)]
  | Some (Obj o) => [("id", serialized o)]
  | _ => []
  end.

(** The tree as the value [page.evaluate] hands back. *)
Fixpoint toJson (n : StructureNode) : json :=
  JObj
    ([ ("tag", JStr (tag n));
       ("attributes", JObj (flat_map attributeField (attributes n)));
       ("children", JArr (map toJson (children n))) ]
     ++ idField (id n) ++ optField "role" (role n)
     ++ optField "ariaLabel" (ariaLabel n)
     ++ optField "className" (className n)
     ++ optField "text" (text n)).

End Structure.
Import Structure.

(* ------------------------------------------------------------------ *)
(** ** The browser driver and the effects of an action *)

Module Driver.

(** A locator expression of the driver. [nth] is what [locator.all()]
    hands out: one locator per match, in order. *)
Inductive Locator :=
| locator (selector : string)
| getByRole (role : string) (exact : bool)
| getByText (text : string) (exact : bool)
| first (l : Locator)
| nth (l : Locator) (i : nat).

(** The driver calls of the registry, each with the type of what it
    resolves to. [setAttribute l name value] is
    [l.evaluate((node, id) => node.setAttribute(name, id), value)];
    [evaluate l f] is [l.evaluate(f)] for a function given as text;
    [documentBody] is the [document.body] that the page function of
    [page.evaluate] starts from. *)
Inductive Call : Type -> Type :=
| press : Locator -> string -> Call unit
| keyboard_press : string -> Call unit
| setAttribute : Locator -> string -> string -> Call unit
| evaluate : Locator -> string -> Call json
| getAttribute : Locator -> string -> Call (option string)
| innerHTML : Locator -> Call string
| innerText : Locator -> Call string
| textContent : Locator -> Call (option string)
| inputValue : Locator -> Call string
| blur : Locator -> Call unit
| boundingBox : Locator -> Call json
| check : Locator -> Call unit
| uncheck : Locator -> Call unit
| isChecked : Locator -> Call bool
| isEditable : Locator -> Call bool
| isEnabled : Locator -> Call bool
| isVisible : Locator -> Call bool
| clear : Locator -> Call unit
| click : Locator -> Call unit
| count : Locator -> Call nat
| fill : Locator -> string -> Call unit
| goto : string -> Call (option string)
| selectOption : Locator -> json -> Call unit
| documentBody : Call (option Node).

(** A call the driver served, with what it resolved to or threw. *)
Inductive Event := Did (T : Type) (c : Call T) (r : JsError + T).

Definition isSelectOption (e : Event) : bool :=
  match e with
  | Did (selectOption _ _) _ => true
  | Did _ _ => false
  end.

End Driver.
Import Driver.

Module Effects.
Section Effects.

(** The state of the browser page. *)
Variable Page : Type.

(** The driver: a call resolves or throws, and leaves a new page. *)
Variable drive : forall T, Call T -> Page -> (JsError + T) * Page.

(** [crypto.randomUUID]: the n-th value it returns. *)
Variable uuid : nat -> string.

(** What an action can touch: the page, the number of identifiers drawn
    so far, and (for the statements only) the driver calls served. *)
Record World := {
  page : Page;
  drawn : nat;
  trace : list Event
}.

(** A computation that may throw, in a world it may change. A throw keeps
    the changes made before it. *)
Definition M (A : Type) : Type := World -> (JsError + A) * World.

Definition ret {A} (a : A) : M A := fun w => (inr a, w).

Definition throw {A} (e : JsError) : M A := fun w => (inl e, w).

Definition bind {A B} (m : M A) (k : A -> M B) : M B :=
  fun w =>
    match m w with
    | (inr a, w') => k a w'
    | (inl e, w') => (inl e, w')
    end.

(** [try { m } catch (error) { h error }] *)
Definition catch {A} (m : M A) (h : JsError -> M A) : M A :=
  fun w =>
    match m w with
    | (inr a, w') => (inr a, w')
    | (inl e, w') => h e w'
    end.

(** A pure step that may throw. *)
Definition lift {A} (r : JsError + A) : M A := fun w => (r, w).

(** [await] of a driver call. *)
Definition call {T} (c : Call T) : M T :=
  fun w =>
    let (r, p) := drive c (page w) in
    (r, {| page := p; drawn := drawn w; trace := trace w ++ [Did c r] |}).

Definition randomUUID : M string :=
  fun w =>
    (inr (uuid (drawn w)),
     {| page := page w; drawn := S (drawn w); trace := trace w |}).

End Effects.
End Effects.
Import Effects.

Declare Scope action_scope.
Delimit Scope action_scope with action.
Notation "x <- m ;; k" := (bind m (fun x => k))
  (at level 61, m at next level, right associativity) : action_scope.
Notation "m ;;; k" := (bind m (fun _ => k))
  (at level 61, right associativity) : action_scope.

(* ------------------------------------------------------------------ *)
(** ** The action registry: [createActions] *)

Module Registry.
Section Registry.

Variable Page : Type.
Variable drive : forall T, Call T -> Page -> (JsError + T) * Page.
Variable uuid : nat -> string.

(** [JSON.parse]: the value of a text, or the [SyntaxError] it throws. *)
Variable JSON_parse : string -> JsError + json.

(** [getSanitizeOptions()] of [./sanitizeHtml]. *)
Variable getSanitizeOptions : SanitizeOptions.

Local Open Scope action_scope.
Local Abbreviation M := (M Page).
Local Abbreviation call := (call drive).

(** The [ActionTool] interface. [description] and [parameters] are only
    handed to the model in the list of tools and are left out. *)
Record ActionTool := {
  function : json -> M json;
  name : string;
  parse : string -> JsError + json
}.

(** [schema.parse(JSON.parse(args))] *)
Definition parseWith (schema : json -> JsError + json) (args : string)
    : JsError + json :=
  match JSON_parse args with
  | inr v => schema v
  | inl e => inl e
  end.

Definition marker : string := "data-element-id".

Definition markerSelector (elementId : string) : string :=
  "[data-element-id=" ++ String (ascii_of_nat 34) elementId
    ++ String (ascii_of_nat 34) "]".

Definition getLocator (elementId : string) : Locator :=
  locator (markerSelector elementId).

Definition success : json := JObj [("success", JBool true)].

Definition ofOption (v : option string) : json :=
  match v with Some s => JStr s | None => JNull end.

(** [args.exact ?? false] *)
Definition exactOf (args : json) : bool :=
  match get "exact" args with Some (JBool b) => b | _ => false end.

(** [locator.all()]: as many locators as the locator counts matches. *)
Definition all (l : Locator) : M (list Locator) :=
  n <- call (count l) ;; ret (map (nth l) (seq 0 n)).

(** An action on the element of an identifier that resolves to nothing
    and returns [{ success: true }]. *)
Definition act (c : Locator -> Call unit) (args : json) : M json :=
  call (c (getLocator (str "elementId" args))) ;;; ret success.

(** A query on the element of an identifier, returned under a key. *)
Definition query {T} (c : Locator -> Call T) (key : string)
    (wrap : T -> json) (args : json) : M json :=
  v <- call (c (getLocator (str "elementId" args))) ;;
  ret (JObj [(key, wrap v)]).

Definition locator_pressKey (args : json) : M json :=
  call (press (getLocator (str "elementId" args)) (str "key" args)) ;;;
  ret success.

Definition page_pressKey (args : json) : M json :=
  call (keyboard_press (str "key" args)) ;;; ret success.

Definition locateElement (args : json) : M json :=
  let l := locator (str "cssSelector" args) in
  elementId <- randomUUID uuid ;;
  call (setAttribute (first l) marker elementId) ;;;
  ret (JObj [("elementId", JStr elementId)]).

Definition locator_evaluate (args : json) : M json :=
  result <- call (evaluate (getLocator (str "elementId" args))
                    (str "pageFunction" args)) ;;
  ret (JObj [("result", result)]).

Definition locator_getAttribute (args : json) : M json :=
  attributeValue <- call (getAttribute (getLocator (str "elementId" args))
                            (str "attributeName" args)) ;;
  ret (JObj [("attributeValue", ofOption attributeValue)]).

Definition locator_boundingBox (args : json) : M json :=
  call (boundingBox (getLocator (str "elementId" args))).

Definition locator_fill (args : json) : M json :=
  call (fill (getLocator (str "elementId" args)) (str "value" args)) ;;;
  ret success.

(** [{ url: response?.url() }]: an undefined [url] is a property the
    result does not have once serialised. *)
Definition page_goto (args : json) : M json :=
  response <- call (goto (str "url" args)) ;;
  ret (JObj (match response with
             | Some u => [("url", JStr u)]
             | None => []
             end)).

(** [Array.isArray(v) ? v.map((x) => ({ key: x })) : { key: v }] *)
Definition keyed (key : string) (v : json) : json :=
  match v with
  | JArr xs => JArr (map (fun x => JObj [(key, x)]) xs)
  | _ => JObj [(key, v)]
  end.

Definition locator_selectOption (args : json) : M json :=
  l <- (if truthyField "elementId" args then
          ret (locator (markerSelector (str "elementId" args)))
        else if truthyField "cssSelector" args then
          ret (locator (str "cssSelector" args))
        else
          throw (Error
            "You must provide either an elementId or a cssSelector.")) ;;
  match get "value" args, get "label" args, get "index" args with
  | Some value, _, _ => call (selectOption l value)
  | None, Some label, _ => call (selectOption l (keyed "label" label))
  | None, None, Some index => call (selectOption l (keyed "index" index))
  | None, None, None =>
      throw (Error
        "You must provide at least one of the parameters: value, label, or index.")
  end ;;;
  ret success.

Definition expect_toBe (args : json) : M json :=
  ret (JObj [("actual", JStr (str "actual" args));
             ("expected", JStr (str "expected" args));
             ("success",
               JBool (String.eqb (str "actual" args) (str "expected" args)))]).

Definition expect_notToBe (args : json) : M json :=
  ret (JObj [("actual", JStr (str "actual" args));
             ("expected", JStr (str "expected" args));
             ("success",
               JBool (negb (String.eqb (str "actual" args)
                              (str "expected" args))))]).

Definition resultAssertion (args : json) : M json := ret args.

Definition resultQuery (args : json) : M json := ret args.

Definition resultAction (_ : json) : M json := ret success.

Definition resultError (args : json) : M json :=
  ret (JObj [("errorMessage", JStr (str "errorMessage" args))]).

(** A throw of the page function makes [page.evaluate] throw: the error
    stands for the one the driver reports, whatever text it gives it. *)
Definition getVisibleStructure (_ : json) : M json :=
  let sanitizeOptions := getSanitizeOptions in
  body <- call documentBody ;;
  structure <- lift (extractBody sanitizeOptions body) ;;
  ret (JObj [("structure",
               match structure with
               | Some node => toJson node
               | None => JNull
               end)]).

Definition idsResult (elementIds : list string) : json :=
  JObj [("elementIds", JArr (map JStr elementIds));
        ("count", JNum (Z.of_nat (List.length elementIds)))].

(** The loop of [locateElementsByRole] over the locators. *)
Fixpoint markEach (locators : list Locator) (elementIds : list string)
    : M (list string) :=
  match locators with
  | [] => ret elementIds
  | l :: rest =>
      elementId <- randomUUID uuid ;;
      call (setAttribute l marker elementId) ;;;
      markEach rest (elementIds ++ [elementId])
  end.

Definition locateElementsByRole (args : json) : M json :=
  locators <- all (getByRole (str "role" args) (exactOf args)) ;;
  elementIds <- markEach locators [] ;;
  ret (idsResult elementIds).

(** The loop of [locateElementsWithText] over the locators. *)
Fixpoint markVisible (locators : list Locator) (elementIds : list string)
    : M (list string) :=
  match locators with
  | [] => ret elementIds
  | l :: rest =>
      visible <- call (isVisible l) ;;
      if (visible : bool) then
        elementId <- randomUUID uuid ;;
        call (setAttribute l marker elementId) ;;;
        markVisible rest (elementIds ++ [elementId])
      else markVisible rest elementIds
  end.

Definition locateElementsWithText (args : json) : M json :=
  allLocators <- all (getByText (str "text" args) (exactOf args)) ;;
  elementIds <- markVisible allLocators [] ;;
  ret (idsResult elementIds).

Definition tool (name : string) (schema : json -> JsError + json)
    (function : json -> M json) : string * ActionTool :=
  (name, {| function := function; name := name;
            parse := parseWith schema |}).

(** The registry, property by property, in the order of the source. *)
Definition createActions : list (string * ActionTool) :=
  [ tool "locator_pressKey" locatorPressKeySchema locator_pressKey;
    tool "page_pressKey" pagePressKeySchema page_pressKey;
    tool "locateElement" locateElementSchema locateElement;
    tool "locator_evaluate" locatorEvaluateSchema locator_evaluate;
    tool "locator_getAttribute" locatorGetAttributeSchema
      locator_getAttribute;
    tool "locator_innerHTML" locatorElementIdSchema
      (query innerHTML "innerHTML" JStr);
    tool "locator_innerText" locatorElementIdSchema
      (query innerText "innerText" JStr);
    tool "locator_textContent" locatorElementIdSchema
      (query textContent "textContent" ofOption);
    tool "locator_inputValue" locatorElementIdSchema
      (query inputValue "inputValue" JStr);
    tool "locator_blur" locatorElementIdSchema (act blur);
    tool "locator_boundingBox" locatorElementIdSchema locator_boundingBox;
    tool "locator_check" locatorElementIdSchema (act check);
    tool "locator_uncheck" locatorElementIdSchema (act uncheck);
    tool "locator_isChecked" locatorElementIdSchema
      (query isChecked "isChecked" JBool);
    tool "locator_isEditable" locatorElementIdSchema
      (query isEditable "isEditable" JBool);
    tool "locator_isEnabled" locatorElementIdSchema
      (query isEnabled "isEnabled" JBool);
    tool "locator_isVisible" locatorElementIdSchema
      (query isVisible "isVisible" JBool);
    tool "locator_clear" locatorElementIdSchema (act clear);
    tool "locator_click" locatorElementIdSchema (act click);
    tool "locator_count" locatorElementIdSchema
      (query count "elementCount" (fun n => JNum (Z.of_nat n)));
    tool "locator_fill" locatorFillSchema locator_fill;
    tool "page_goto" pageGotoSchema page_goto;
    tool "locator_selectOption" locatorSelectOptionSchema
      locator_selectOption;
    tool "expect_toBe" expectToBeSchema expect_toBe;
    tool "expect_notToBe" expectToBeSchema expect_notToBe;
    tool "resultAssertion" resultAssertionSchema resultAssertion;
    tool "resultQuery" resultQuerySchema resultQuery;
    tool "resultAction" emptySchema resultAction;
    tool "resultError" resultErrorSchema resultError;
    tool "getVisibleStructure" emptySchema getVisibleStructure;
    tool "locateElementsByRole" locateElementsByRoleSchema
      locateElementsByRole;
    tool "locateElementsWithText" locateElementsWithTextSchema
      locateElementsWithText ].

End Registry.
End Registry.
Import Registry.

(* ------------------------------------------------------------------ *)
(** ** The task orchestrator: [completeTask] *)

Module Orchestrator.

(** A tool call of an assistant message. The loop handles the calls whose
    [type] is ["function"]; [OtherToolCall] is a call of any other type. *)
Inductive ToolCall :=
| FunctionToolCall (id : string) (name : string) (arguments : string)
| OtherToolCall (id : string).

Definition callId (c : ToolCall) : string :=
  match c with
  | FunctionToolCall id _ _ => id
  | OtherToolCall id => id
  end.

Definition isFunctionCall (c : ToolCall) : bool :=
  match c with
  | FunctionToolCall _ _ _ => true
  | OtherToolCall _ => false
  end.

(** [response.choices[0]?.message]: [tool_calls = None] is a message
    without the property. *)
Record AssistantMessage := {
  content : option string;
  tool_calls : option (list ToolCall)
}.

Inductive Message :=
| System (content : string)
| User (content : string)
| Assistant (message : AssistantMessage)
| Tool (tool_call_id : string) (content : string).

(** The names every object inherits from [Object.prototype]: for these,
    [actions[name]] is defined (a function, or the prototype itself) on an
    object that has no such property of its own. *)
Definition objectPrototype : list string :=
  [ "constructor"; "__defineGetter__"; "__defineSetter__";
    "hasOwnProperty"; "__lookupGetter__"; "__lookupSetter__";
    "isPrototypeOf"; "propertyIsEnumerable"; "toString"; "valueOf";
    "__proto__"; "toLocaleString" ].

(** One dispatched function call, for the statements: its name and what
    it came to. *)
Record Dispatch := {
  dispatched : string;
  outcome : JsError + json
}.

Definition isResultName (name : string) : bool := startsWith name "result".

(** The value of the most recent result-class call that succeeded. *)
Fixpoint lastSuccessfulResult (history : list Dispatch) : option json :=
  match history with
  | [] => None
  | d :: rest =>
      match lastSuccessfulResult rest with
      | Some v => Some v
      | None =>
          match outcome d with
          | inr v => if isResultName (dispatched d) then Some v else None
          | inl _ => None
          end
      end
  end.

Section Orchestrator.

Variable Page : Type.

(** The registry of the task: [createActions(page)]. *)
Variable actions : list (string * ActionTool Page).

(** [openai.chat.completions.create] on a conversation (the model and the
    list of tools are the same at every request): the first choice's
    message, if any, or the error the request throws. *)
Variable create : list Message -> JsError + option AssistantMessage.

(** [JSON.stringify] *)
Variable JSON_stringify : json -> string.

(** [SYSTEM_PROMPT] and [prompt(task)] of [./prompt]. *)
Variable SYSTEM_PROMPT : string.
Variable prompt : string -> string.

Local Open Scope action_scope.
Local Abbreviation M := (M Page).

(** The value of [actions[name]]. *)
Inductive Property :=
| Own (action : ActionTool Page)
| Inherited.

(** [actions[name]]: [None] is [undefined]. *)
Definition lookup (name : string) : option Property :=
  match assoc name actions with
  | Some action => Some (Own action)
  | None => if includes objectPrototype name then Some Inherited else None
  end.

Definition notAFunction : JsError := Error "action.parse is not a function".

(** [action.parse(args)] *)
Definition parseOf (action : Property) (args : string) : JsError + json :=
  match action with
  | Own a => parse a args
  | Inherited => inl notAFunction
  end.

(** [await action.function(parsedArgs)] *)
Definition functionOf (action : Property) (parsedArgs : json) : M json :=
  match action with
  | Own a => function a parsedArgs
  | Inherited => throw (Error "action.function is not a function")
  end.

(** What the loop over the tool calls of one message carries. *)
Record Batch := {
  lastFunctionResult : option json;
  toolCallResults : list Message;
  history : list Dispatch
}.

Definition errorPayload (error : JsError) : json :=
  JObj [("error", JStr (message error))].

(** The body of the loop over [message.tool_calls]. *)
Definition processToolCall (toolCall : ToolCall) (b : Batch) : M Batch :=
  match toolCall with
  | FunctionToolCall id name arguments =>
      match lookup name with
      | None => throw (Error ("Unknown function: " ++ name))
      | Some action =>
          catch
            (parsedArgs <- lift (parseOf action arguments) ;;
             result <- functionOf action parsedArgs ;;
             ret {| lastFunctionResult :=
                      if startsWith name "result" then Some result
                      else lastFunctionResult b;
                    toolCallResults :=
                      toolCallResults b ++ [Tool id (JSON_stringify result)];
                    history :=
                      history b ++ [{| dispatched := name;
                                       outcome := inr result |}] |})
            (fun error =>
               ret {| lastFunctionResult := lastFunctionResult b;
                      toolCallResults :=
                        toolCallResults b
                        ++ [Tool id (JSON_stringify (errorPayload error))];
                      history :=
                        history b ++ [{| dispatched := name;
                                         outcome := inl error |}] |})
      end
  | OtherToolCall _ => ret b
  end.

Fixpoint processToolCalls (calls : list ToolCall) (b : Batch) : M Batch :=
  match calls with
  | [] => ret b
  | toolCall :: rest =>
      b' <- processToolCall toolCall b ;; processToolCalls rest b'
  end.

(** The variables of [completeTask] at the head of the loop. *)
Record Loop := {
  messages : list Message;
  lastResult : option json;
  dispatches : list Dispatch
}.

(** [message?.tool_calls && message.tool_calls.length > 0] *)
Definition pending (message : option AssistantMessage)
    : option (AssistantMessage * list ToolCall) :=
  match message with
  | Some m =>
      match tool_calls m with
      | Some (c :: cs) => Some (m, c :: cs)
      | _ => None
      end
  | None => None
  end.

(** One turn of the [while] loop. *)
Definition turn (st : Loop) (m : AssistantMessage) (calls : list ToolCall)
    : M (Loop * option AssistantMessage) :=
  let pushed := (messages st ++ [Assistant m])%list in
  b <- processToolCalls calls
         {| lastFunctionResult := lastResult st;
            toolCallResults := [];
            history := dispatches st |} ;;
  let conversation := (pushed ++ toolCallResults b)%list in
  message <- lift (create conversation) ;;
  ret ({| messages := conversation;
          lastResult := lastFunctionResult b;
          dispatches := history b |}, message).

(** After the loop: [if (!lastFunctionResult) throw ...; return it]. *)
Definition conclude (st : Loop) : JsError + json :=
  match lastResult st with
  | Some v =>
      if truthy v then inr v
      else inl (Error
        "Expected to have a result from one of the result functions")
  | None =>
      inl (Error "Expected to have a result from one of the result functions")
  end.

(** The [while] loop, for at most [fuel] turns: [None] when the model
    still requests tool calls after that many. *)
Fixpoint loop (fuel : nat) (st : Loop) (message : option AssistantMessage)
    (w : World Page) : option ((JsError + json) * World Page) :=
  match pending message with
  | None => Some (conclude st, w)
  | Some (m, calls) =>
      match fuel with
      | 0 => None
      | S fuel' =>
          match turn st m calls w with
          | (inr (st', message'), w') => loop fuel' st' message' w'
          | (inl e, w') => Some (inl e, w')
          end
      end
  end.

(** The loop variables and the pending message after [n] turns, or after
    the last turn when the loop ends sooner. *)
Fixpoint after (n : nat) (st : Loop) (message : option AssistantMessage)
    : M (Loop * option AssistantMessage) :=
  match n with
  | 0 => ret (st, message)
  | S n' =>
      match pending message with
      | Some (m, calls) =>
          sm <- turn st m calls ;; after n' (fst sm) (snd sm)
      | None => ret (st, message)
      end
  end.

Definition initial (task : string) : Loop :=
  {| messages := [System SYSTEM_PROMPT; User (prompt task)];
     lastResult := None;
     dispatches := [] |}.

(** [completeTask(page, task)] *)
Definition completeTask (fuel : nat) (task : string) (w : World Page)
    : option ((JsError + json) * World Page) :=
  match create (messages (initial task)) with
  | inr message => loop fuel (initial task) message w
  | inl e => Some (inl e, w)
  end.

(** The state at the head of the loop after [n] turns of the task. *)
Definition progress (n : nat) (task : string)
    : M (Loop * option AssistantMessage) :=
  message <- lift (create (messages (initial task))) ;;
  after n (initial task) message.

End Orchestrator.
End Orchestrator.
Import Orchestrator.

(* ------------------------------------------------------------------ *)
(** ** What the registry tells the model: descriptions and parameters *)

Module Advertised.

Definition parameters_locator_pressKey : json :=
  JObj
    [("type", JStr "object");
     ("properties",
      JObj
        [("elementId", JObj [("type", JStr "string")]);
         ("key",
          JObj
            [("type", JStr "string");
             ("description",
              JStr "The name of the key to press, e.g., 'Enter', 'ArrowUp', 'a'.")])]);
     ("required", JArr [JStr "elementId"; JStr "key"])].

Definition parameters_page_pressKey : json :=
  JObj
    [("type", JStr "object");
     ("properties",
      JObj
        [("key",
          JObj
            [("type", JStr "string");
             ("description",
              JStr "The name of the key to press, e.g., 'Enter', 'ArrowDown', 'b'.")])]);
     ("required", JArr [JStr "key"])].

Definition parameters_locateElement : json :=
  JObj
    [("type", JStr "object");
     ("properties", JObj [("cssSelector", JObj [("type", JStr "string")])]);
     ("required", JArr [JStr "cssSelector"])].

Definition parameters_locator_evaluate : json :=
  JObj
    [("type", JStr "object");
     ("properties",
      JObj
        [("elementId", JObj [("type", JStr "string")]);
         ("pageFunction",
          JObj
            [("type", JStr "string");
             ("description",
              JStr "Function to be evaluated in the page context, e.g. node => node.innerText")])]);
     ("required", JArr [JStr "elementId"; JStr "pageFunction"])].

Definition parameters_locator_getAttribute : json :=
  JObj
    [("type", JStr "object");
     ("properties",
      JObj
        [("attributeName", JObj [("type", JStr "string")]);
         ("elementId", JObj [("type", JStr "string")])]);
     ("required", JArr [JStr "attributeName"; JStr "elementId"])].

Definition parameters_locator_innerHTML : json :=
  JObj
    [("type", JStr "object");
     ("properties", JObj [("elementId", JObj [("type", JStr "string")])]);
     ("required", JArr [JStr "elementId"])].

Definition parameters_locator_innerText : json :=
  JObj
    [("type", JStr "object");
     ("properties", JObj [("elementId", JObj [("type", JStr "string")])]);
     ("required", JArr [JStr "elementId"])].

Definition parameters_locator_textContent : json :=
  JObj
    [("type", JStr "object");
     ("properties", JObj [("elementId", JObj [("type", JStr "string")])]);
     ("required", JArr [JStr "elementId"])].

Definition parameters_locator_inputValue : json :=
  JObj
    [("type", JStr "object");
     ("properties", JObj [("elementId", JObj [("type", JStr "string")])]);
     ("required", JArr [JStr "elementId"])].

Definition parameters_locator_blur : json :=
  JObj
    [("type", JStr "object");
     ("properties", JObj [("elementId", JObj [("type", JStr "string")])]);
     ("required", JArr [JStr "elementId"])].

Definition parameters_locator_boundingBox : json :=
  JObj
    [("type", JStr "object");
     ("properties", JObj [("elementId", JObj [("type", JStr "string")])]);
     ("required", JArr [JStr "elementId"])].

Definition parameters_locator_check : json :=
  JObj
    [("type", JStr "object");
     ("properties", JObj [("elementId", JObj [("type", JStr "string")])]);
     ("required", JArr [JStr "elementId"])].

Definition parameters_locator_uncheck : json :=
  JObj
    [("type", JStr "object");
     ("properties", JObj [("elementId", JObj [("type", JStr "string")])]);
     ("required", JArr [JStr "elementId"])].

Definition parameters_locator_isChecked : json :=
  JObj
    [("type", JStr "object");
     ("properties", JObj [("elementId", JObj [("type", JStr "string")])]);
     ("required", JArr [JStr "elementId"])].

Definition parameters_locator_isEditable : json :=
  JObj
    [("type", JStr "object");
     ("properties", JObj [("elementId", JObj [("type", JStr "string")])]);
     ("required", JArr [JStr "elementId"])].

Definition parameters_locator_isEnabled : json :=
  JObj
    [("type", JStr "object");
     ("properties", JObj [("elementId", JObj [("type", JStr "string")])]);
     ("required", JArr [JStr "elementId"])].

Definition parameters_locator_isVisible : json :=
  JObj
    [("type", JStr "object");
     ("properties", JObj [("elementId", JObj [("type", JStr "string")])]);
     ("required", JArr [JStr "elementId"])].

Definition parameters_locator_clear : json :=
  JObj
    [("type", JStr "object");
     ("properties", JObj [("elementId", JObj [("type", JStr "string")])]);
     ("required", JArr [JStr "elementId"])].

Definition parameters_locator_click : json :=
  JObj
    [("type", JStr "object");
     ("properties", JObj [("elementId", JObj [("type", JStr "string")])]);
     ("required", JArr [JStr "elementId"])].

Definition parameters_locator_count : json :=
  JObj
    [("type", JStr "object");
     ("properties", JObj [("elementId", JObj [("type", JStr "string")])]);
     ("required", JArr [JStr "elementId"])].

Definition parameters_locator_fill : json :=
  JObj
    [("type", JStr "object");
     ("properties",
      JObj
        [("value", JObj [("type", JStr "string")]);
         ("elementId", JObj [("type", JStr "string")])]);
     ("required", JArr [JStr "value"; JStr "elementId"])].

Definition parameters_page_goto : json :=
  JObj
    [("type", JStr "object");
     ("properties",
      JObj
        [("url",
          JObj
            [("type", JStr "string");
             ("description", JStr "The URL to navigate to")])]);
     ("required", JArr [JStr "url"])].

Definition parameters_locator_selectOption : json :=
  JObj
    [("type", JStr "object");
     ("properties",
      JObj
        [("elementId",
          JObj
            [("type", JStr "string");
             ("description",
              JStr "The ID of the <select> element, obtained via locateElement.")]);
         ("cssSelector",
          JObj
            [("type", JStr "string");
             ("description",
              JStr "CSS selector to locate the <select> element directly, e.g., '#my-select' or 'form select'.")]);
         ("value",
          JObj
            [("type", JArr [JStr "string"; JStr "array"]);
             ("description",
              JStr "Select options with matching value attribute. Can be a string or an array for multi-select.");
             ("items", JObj [("type", JStr "string")])]);
         ("label",
          JObj
            [("type", JArr [JStr "string"; JStr "array"]);
             ("description",
              JStr "Select options with matching visible text. Can be a string or an array for multi-select.");
             ("items", JObj [("type", JStr "string")])]);
         ("index",
          JObj
            [("type", JArr [JStr "number"; JStr "array"]);
             ("description",
              JStr "Select options by their index (zero-based). Can be a number or an array for multi-select.");
             ("items", JObj [("type", JStr "number")])])])].

Definition parameters_expect_toBe : json :=
  JObj
    [("type", JStr "object");
     ("properties",
      JObj
        [("actual", JObj [("type", JStr "string")]);
         ("expected", JObj [("type", JStr "string")])]);
     ("required", JArr [JStr "actual"; JStr "expected"])].

Definition parameters_expect_notToBe : json :=
  JObj
    [("type", JStr "object");
     ("properties",
      JObj
        [("actual", JObj [("type", JStr "string")]);
         ("expected", JObj [("type", JStr "string")])]);
     ("required", JArr [JStr "actual"; JStr "expected"])].

Definition parameters_resultAssertion : json :=
  JObj
    [("type", JStr "object");
     ("properties", JObj [("assertion", JObj [("type", JStr "boolean")])]);
     ("required", JArr [JStr "assertion"])].

Definition parameters_resultQuery : json :=
  JObj
    [("type", JStr "object");
     ("properties", JObj [("query", JObj [("type", JStr "string")])]);
     ("required", JArr [JStr "query"])].

Definition parameters_resultAction : json :=
  JObj [("type", JStr "object"); ("properties", JObj [])].

Definition parameters_resultError : json :=
  JObj
    [("type", JStr "object");
     ("properties",
      JObj [("errorMessage", JObj [("type", JStr "string")])]);
     ("required", JArr [JStr "errorMessage"])].

Definition parameters_getVisibleStructure : json :=
  JObj [("type", JStr "object"); ("properties", JObj [])].

Definition parameters_locateElementsByRole : json :=
  JObj
    [("type", JStr "object");
     ("properties",
      JObj
        [("role",
          JObj
            [("type", JStr "string");
             ("description",
              JStr "ARIA role to search for, e.g. 'button', 'grid', 'row', etc.")]);
         ("exact",
          JObj
            [("type", JStr "boolean");
             ("description",
              JStr "Whether to match the role exactly or allow partial matches.")])]);
     ("required", JArr [JStr "role"])].

Definition parameters_locateElementsWithText : json :=
  JObj
    [("type", JStr "object");
     ("properties",
      JObj
        [("text", JObj [("type", JStr "string")]);
         ("exact", JObj [("type", JStr "boolean")])]);
     ("required", JArr [JStr "text"])].

(** The [description] and [parameters] properties of the entries of
    [createActions], by key, in the order of the source. *)
Definition advertised : list (string * (string * json)) :=
  [
   ("locator_pressKey",
    ("Presses a key while focused on the specified element.",
     parameters_locator_pressKey));
   ("page_pressKey",
    ("Presses a key globally on the page.",
     parameters_page_pressKey));
   ("locateElement",
    ("Locates element using a CSS selector and returns elementId. This element ID can be used with other functions to perform actions on the element.",
     parameters_locateElement));
   ("locator_evaluate",
    ("Execute JavaScript code in the page, taking the matching element as an argument.",
     parameters_locator_evaluate));
   ("locator_getAttribute",
    ("Returns the matching element's attribute value.",
     parameters_locator_getAttribute));
   ("locator_innerHTML",
    ("Returns the element.innerHTML.",
     parameters_locator_innerHTML));
   ("locator_innerText",
    ("Returns the element.innerText.",
     parameters_locator_innerText));
   ("locator_textContent",
    ("Returns the node.textContent.",
     parameters_locator_textContent));
   ("locator_inputValue",
    ("Returns input.value for the selected <input> or <textarea> or <select> element.",
     parameters_locator_inputValue));
   ("locator_blur",
    ("Removes keyboard focus from the current element.",
     parameters_locator_blur));
   ("locator_boundingBox",
    ("This method returns the bounding box of the element matching the locator, or null if the element is not visible. The bounding box is calculated relative to the main frame viewport - which is usually the same as the browser window. The returned object has x, y, width, and height properties.",
     parameters_locator_boundingBox));
   ("locator_check",
    ("Ensure that checkbox or radio element is checked.",
     parameters_locator_check));
   ("locator_uncheck",
    ("Ensure that checkbox or radio element is unchecked.",
     parameters_locator_uncheck));
   ("locator_isChecked",
    ("Returns whether the element is checked.",
     parameters_locator_isChecked));
   ("locator_isEditable",
    ("Returns whether the element is editable. Element is considered editable when it is enabled and does not have readonly property set.",
     parameters_locator_isEditable));
   ("locator_isEnabled",
    ("Returns whether the element is enabled. Element is considered enabled unless it is a <button>, <select>, <input> or <textarea> with a disabled property.",
     parameters_locator_isEnabled));
   ("locator_isVisible",
    ("Returns whether the element is visible.",
     parameters_locator_isVisible));
   ("locator_clear",
    ("Clear the input field.",
     parameters_locator_clear));
   ("locator_click",
    ("Click an element.",
     parameters_locator_click));
   ("locator_count",
    ("Returns the number of elements matching the locator.",
     parameters_locator_count));
   ("locator_fill",
    ("Set a value to the input field.",
     parameters_locator_fill));
   ("page_goto",
    ("Navigate to the specified URL.",
     parameters_page_goto));
   ("locator_selectOption",
    ("Selects option(s) in a <select> element. Requires either an elementId (obtained via locateElement) or a direct cssSelector.",
     parameters_locator_selectOption));
   ("expect_toBe",
    ("Asserts that the actual value is equal to the expected value.",
     parameters_expect_toBe));
   ("expect_notToBe",
    ("Asserts that the actual value is not equal to the expected value.",
     parameters_expect_notToBe));
   ("resultAssertion",
    ("This function is called when the initial instructions asked to assert something; then 'assertion' is either true or false (boolean) depending on whether the assertion succeeded.",
     parameters_resultAssertion));
   ("resultQuery",
    ("This function is called at the end when the initial instructions asked to extract data; then 'query' property is set to a text value of the extracted data.",
     parameters_resultQuery));
   ("resultAction",
    ("This function is called at the end when the initial instructions asked to perform an action.",
     parameters_resultAction));
   ("resultError",
    ("If user instructions cannot be completed, then this function is used to produce the final response.",
     parameters_resultError));
   ("getVisibleStructure",
    ("Returns a simplified hierarchical structure of visible DOM elements, focusing on roles, attributes, and basic content.",
     parameters_getVisibleStructure));
   ("locateElementsByRole",
    ("Finds elements by their ARIA role attribute and returns array of element IDs.",
     parameters_locateElementsByRole));
   ("locateElementsWithText",
    ("Finds visible elements containing specified text and returns array of element IDs. Hidden elements are excluded.",
     parameters_locateElementsWithText)) ].

(** One entry of [tools] in [completeTask], for an action and what the
    registry tells about it. *)
Definition toolOf (name : string) (entry : option (string * json)) : json :=
  JObj
    [("type", JStr "function");
     ("function",
      JObj
        (("name", JStr name)
         :: match entry with
            | Some (description, parameters) =>
                [("description", JStr description);
                 ("parameters", parameters)]
            | None => []
            end))].

(** [tools]: [Object.values(actions).map(...)], the list of tools sent to
    the model with every request. *)
Definition tools {Page : Type} (actions : list (string * ActionTool Page))
    : list json :=
  map (fun kv => toolOf (name (snd kv)) (assoc (fst kv) advertised)) actions.

(** The name a tool is sent under. *)
Definition toolName (t : json) : string :=
  match get "function" t with
  | Some f => str "name" f
  | None => ""
  end.

End Advertised.
Import Advertised.

(* ------------------------------------------------------------------ *)
(** ** The part of JSON Schema that the parameters use *)

Module JsonSchema.

Definition hasType (t : string) (v : json) : bool :=
  if String.eqb t "string" then isString v
  else if String.eqb t "number" then isNumber v
  else if String.eqb t "boolean" then isBoolean v
  else if String.eqb t "array" then
    match v with JArr _ => true | _ => false end
  else if String.eqb t "object" then
    match v with JObj _ => true | _ => false end
  else false.

(** The keyword [type]: a type name or an array of type names. *)
Definition typeOk (schema v : json) : bool :=
  match get "type" schema with
  | Some (JStr t) => hasType t v
  | Some (JArr ts) =>
      existsb (fun t => match t with JStr s => hasType s v | _ => false end) ts
  | _ => true
  end.

(** The keyword [items]: it constrains the items of an array. *)
Definition itemsOk (schema v : json) : bool :=
  match v, get "items" schema with
  | JArr xs, Some item => forallb (typeOk item) xs
  | _, _ => true
  end.

(** The keyword [properties]: it constrains the properties that are
    present. *)
Definition propertiesOk (schema v : json) : bool :=
  match get "properties" schema with
  | Some (JObj props) =>
      forallb
        (fun kp =>
           match get (fst kp) v with
           | Some x => typeOk (snd kp) x && itemsOk (snd kp) x
           | None => true
           end)
        props
  | _ => true
  end.

(** The keyword [required]. *)
Definition requiredOk (schema v : json) : bool :=
  match get "required" schema with
  | Some (JArr ks) =>
      forallb (fun k => match k with JStr s => defined s v | _ => true end) ks
  | _ => true
  end.

(** A value that satisfies a [parameters] schema. *)
Definition validates (schema v : json) : bool :=
  typeOk schema v && propertiesOk schema v && requiredOk schema v.

(** A parse that returned. *)
Definition returned {A} (r : JsError + A) : bool :=
  match r with inr _ => true | inl _ => false end.

End JsonSchema.
Import JsonSchema.

(* ------------------------------------------------------------------ *)
(** ** Inputs of [locator_selectOption], for the statements *)

Module SchemaSpec.

Definition accepts (v : json) : bool :=
  match locatorSelectOptionSchema v with inr _ => true | inl _ => false end.

(** The number of the properties [keys] that an input supplies. *)
Definition supplied (keys : list string) (v : json) : nat :=
  List.length (filter (fun k => defined k v) keys).

Definition locatorKeys : list string := ["elementId"; "cssSelector"].
Definition criterionKeys : list string := ["value"; "label"; "index"].

(** A property is absent or satisfies [P]. *)
Definition optionally (P : json -> Prop) (k : string) (v : json) : Prop :=
  forall x, get k v = Some x -> P x.

Definition aString (x : json) : Prop := exists s, x = JStr s.
Definition aNumber (x : json) : Prop := exists n, x = JNum n.
Definition oneOrMore (P : json -> Prop) (x : json) : Prop :=
  P x \/ exists xs, x = JArr xs /\ Forall P xs.

(** The options handed to the driver: [value] before [label] before
    [index]. *)
Definition criterionOf (args : json) : option json :=
  match get "value" args, get "label" args, get "index" args with
  | Some value, _, _ => Some value
  | None, Some label, _ => Some (keyed "label" label)
  | None, None, Some index => Some (keyed "index" index)
  | None, None, None => None
  end.

(** A property that is absent or the empty string: falsy. *)
Definition absentOrEmpty (k : string) (args : json) : Prop :=
  get k args = None \/ get k args = Some (JStr "").

End SchemaSpec.
Import SchemaSpec.

(* ------------------------------------------------------------------ *)
(** ** Extracted trees, for the statements *)

Module StructureSpec.

(** The nodes of an extracted tree, the root first. *)
Fixpoint nodes (n : StructureNode) : list StructureNode :=
  match n with
  | mkNode _ _ _ _ _ _ _ cs => n :: flat_map nodes cs
  end.

(** The number of levels of an extracted tree. *)
Fixpoint height (n : StructureNode) : nat :=
  match n with
  | mkNode _ _ _ _ _ _ _ cs => S (list_max (map height cs))
  end.

(** The children that the loop over [element.children] collects, from
    what the extraction of each item comes to: a throw ends the loop. *)
Fixpoint collected (results : list (JsError + option StructureNode))
    : JsError + list StructureNode :=
  match results with
  | [] => inr []
  | r :: rest =>
      child <-! r ;;
      others <-! collected rest ;;
      inr (match child with
           | Some n => n :: others
           | None => others
           end)
  end.

(** What one item of [element.children] adds to the [children] of its
    parent. *)
Definition emitted (tags : list string) (allowed : AllowedAttributes)
    (limit : nat) (depth : nat) (c : Node) : list StructureNode :=
  match extractVisibleStructure tags allowed limit c depth with
  | inr (Some child) => [child]
  | _ => []
  end.

(** [n] nested [div] elements around [inner]. *)
Fixpoint nest (n : nat) (inner : list Node) : list Node :=
  match n with
  | 0 => inner
  | S k =>
      [Element "DIV" []
         {| display := "block"; visibility := "visible"; opacity := "1" |}
         (nest k inner)]
  end.

(** A body that holds a chain of [n] nested [div] elements. *)
Definition chain (n : nat) : Node :=
  Element "BODY" []
    {| display := "block"; visibility := "visible"; opacity := "1" |}
    (nest n []).

(** The node at the end of the first branch of a tree. *)
Fixpoint deepest (fuel : nat) (n : StructureNode) : StructureNode :=
  match fuel, children n with
  | S k, c :: _ => deepest k c
  | _, _ => n
  end.

(** An extracted node that has only a tag and children. *)
Definition bare (tag : string) (children : list StructureNode)
    : StructureNode :=
  {| tag := tag; attributes := []; id := None; role := None;
     ariaLabel := None; className := None; text := None;
     children := children |}.

(** [n] nested bare [div] nodes. *)
Fixpoint bareDivs (n : nat) : list StructureNode :=
  match n with
  | 0 => []
  | S k => [bare "div" (bareDivs k)]
  end.

End StructureSpec.
Import StructureSpec.

(* ------------------------------------------------------------------ *)
(** ** Conversations and batches, for the statements *)

Module Conversation.

(** The identifiers an assistant message asks an answer for, among the
    calls that [sel] keeps. *)
Definition requested (sel : ToolCall -> bool) (m : AssistantMessage)
    : list string :=
  match tool_calls m with
  | Some calls => map callId (filter sel calls)
  | None => []
  end.

(** Reading a conversation from its start with the identifiers that still
    await a tool result: a tool result must answer the first of them, and
    any other message must find none awaited. [None] when the conversation
    breaks this. *)
Fixpoint awaited (sel : ToolCall -> bool) (expected : list string)
    (conversation : list Message) : option (list string) :=
  match conversation with
  | [] => Some expected
  | Tool id _ :: rest =>
      match expected with
      | i :: ids => if String.eqb i id then awaited sel ids rest else None
      | [] => None
      end
  | Assistant m :: rest =>
      match expected with
      | [] => awaited sel (requested sel m) rest
      | _ :: _ => None
      end
  | _ :: rest =>
      match expected with
      | [] => awaited sel [] rest
      | _ :: _ => None
      end
  end.

(** Every assistant message of the conversation is followed at once by one
    tool result per call that [sel] keeps, in the order of the calls, and
    by no other tool result. *)
Definition answered (sel : ToolCall -> bool) (conversation : list Message)
    : bool :=
  match awaited sel [] conversation with
  | Some [] => true
  | _ => false
  end.

Definition everyCall (c : ToolCall) : bool := true.

End Conversation.
Import Conversation.

Module LoopSpec.
Local Open Scope list_scope.
Section LoopSpec.

Variable Page : Type.
Variable actions : list (string * ActionTool Page).
Variable JSON_stringify : json -> string.

(** The batch after a call that failed with [error]. *)
Definition failed (id name : string) (error : JsError) (b : Batch) : Batch :=
  {| lastFunctionResult := lastFunctionResult b;
     toolCallResults :=
       toolCallResults b
       ++ [Tool id (JSON_stringify (JObj [("error", JStr (message error))]))];
     history := history b ++ [{| dispatched := name; outcome := inl error |}] |}.

(** The batch after a call that returned [result]. *)
Definition succeeded (id name : string) (result : json) (b : Batch) : Batch :=
  {| lastFunctionResult :=
       if isResultName name then Some result else lastFunctionResult b;
     toolCallResults := toolCallResults b ++ [Tool id (JSON_stringify result)];
     history := history b ++ [{| dispatched := name; outcome := inr result |}] |}.

(** What dispatching one function call comes to, case by case. *)
Inductive Dispatched (id name arguments : string) (b : Batch)
    (w : World Page) : (JsError + Batch) * World Page -> Prop :=
| dispatch_unknown :
    lookup actions name = None ->
    Dispatched id name arguments b w
      (inl (Error ("Unknown function: " ++ name)%string), w)
| dispatch_invalid action error :
    lookup actions name = Some action ->
    parseOf action arguments = inl error ->
    Dispatched id name arguments b w (inr (failed id name error b), w)
| dispatch_threw action parsedArgs error w' :
    lookup actions name = Some action ->
    parseOf action arguments = inr parsedArgs ->
    functionOf action parsedArgs w = (inl error, w') ->
    Dispatched id name arguments b w (inr (failed id name error b), w')
| dispatch_returned action parsedArgs result w' :
    lookup actions name = Some action ->
    parseOf action arguments = inr parsedArgs ->
    functionOf action parsedArgs w = (inr result, w') ->
    Dispatched id name arguments b w (inr (succeeded id name result b), w').

(** The tool calls that the assistant messages of a conversation
    request, in the order of the conversation. *)
Definition requestedCalls (conversation : list Message) : list ToolCall :=
  flat_map
    (fun m =>
       match m with
       | Assistant a =>
           match tool_calls a with Some calls => calls | None => [] end
       | _ => []
       end)
    conversation.

(** What calls leave when they are made one after the other by the
    actions of the registry themselves, from the world [w]: the value
    that the last call of a result-class action returned ([last] when no
    such call returned), and the world. A call is made by the action
    under its name: [parse] on the arguments of the call, then
    [function] on what [parse] returned, in the world the calls before it
    left. A call of another type, under a name that is no key of the
    registry, or whose arguments [parse] refuses, makes nothing. *)
Fixpoint lastResultOf (calls : list ToolCall) (last : option json)
    (w : World Page) : option json * World Page :=
  match calls with
  | [] => (last, w)
  | FunctionToolCall _ name arguments :: rest =>
      match assoc name actions with
      | Some action =>
          match parse action arguments with
          | inr parsedArgs =>
              match function action parsedArgs w with
              | (inr result, w') =>
                  lastResultOf rest
                    (if isResultName name then Some result else last) w'
              | (inl _, w') => lastResultOf rest last w'
              end
          | inl _ => lastResultOf rest last w
          end
      | None => lastResultOf rest last w
      end
  | OtherToolCall _ :: rest => lastResultOf rest last w
  end.

(** Tool results, from their identifiers and contents. *)
Definition tools (ics : list (string * string)) : list Message :=
  map (fun ic => Tool (fst ic) (snd ic)) ics.

(** The result-class actions of the registry return truthy values. *)
Definition ResultsTruthy : Prop :=
  forall name action raw args w v w',
    assoc name actions = Some action ->
    isResultName name = true ->
    parse action raw = inr args ->
    function action args w = (inr v, w') ->
    truthy v = true.

(** What the loop keeps true of a batch: the slot holds the value of the
    most recent result-class call that succeeded, and that value is
    truthy. *)
Definition slotTracks (slot : option json) (h : list Dispatch) : Prop :=
  slot = lastSuccessfulResult h
  /\ forall v, slot = Some v -> truthy v = true.

(** What holds at the head of the loop. *)
Definition Invariant (st : Orchestrator.Loop) : Prop :=
  answered isFunctionCall (messages st) = true
  /\ (ResultsTruthy -> slotTracks (lastResult st) (dispatches st)).

End LoopSpec.

(** The result-class actions of the registry, by name. *)
Definition resultClass : list string :=
  ["resultAssertion"; "resultQuery"; "resultAction"; "resultError"].

End LoopSpec.
Import LoopSpec.

(* ------------------------------------------------------------------ *)
(** ** The driver calls of the locating and selecting actions *)

Module Traces.

(** The [selectOption] calls of a trace: locator and options. *)
Definition selectOptionCall (e : Event) : option (Locator * json) :=
  match e with
  | Did c _ =>
      match c with
      | selectOption l options => Some (l, options)
      | _ => None
      end
  end.

(** The elements a trace stamped with the marker attribute: locator and
    identifier. *)
Definition markCall (e : Event) : option (Locator * string) :=
  match e with
  | Did c _ =>
      match c with
      | setAttribute l name value =>
          if String.eqb name "data-element-id" then Some (l, value) else None
      | _ => None
      end
  end.

(** The locators a trace asked the visibility of. *)
Definition visibilityCall (e : Event) : option Locator :=
  match e with
  | Did c _ =>
      match c with
      | isVisible l => Some l
      | _ => None
      end
  end.

(** The locators a trace found visible. *)
Definition foundVisible (e : Event) : option Locator :=
  match e with
  | Did c r =>
      match c in Call T return JsError + T -> option Locator with
      | isVisible l =>
          fun r => match r with inr true => Some l | _ => None end
      | _ => fun _ => None
      end r
  end.

(** The errors the driver threw in a trace. *)
Definition thrown (e : Event) : option JsError :=
  match e with
  | Did _ (inl error) => Some error
  | Did _ (inr _) => None
  end.

Definition collect {A B} (f : A -> option B) (l : list A) : list B :=
  flat_map (fun a => match f a with Some b => [b] | None => [] end) l.

(** The identifiers drawn by [n] calls of [randomUUID] after [k]. *)
Definition draws (uuid : nat -> string) (k n : nat) : list string :=
  map uuid (seq k n).

(** What the role and text actions return for the identifiers [ids]. *)
Definition located (ids : list string) : json :=
  JObj [("elementIds", JArr (map JStr ids));
        ("count", JNum (Z.of_nat (List.length ids)))].

End Traces.
Import Traces.

(* ------------------------------------------------------------------ *)
(** ** A small page and driver to run the definitions on *)

Module Sample.

(** A page as the list of its elements in document order: whether each is
    visible, and the marker it carries. Every locator query matches every
    element. *)
Definition SamplePage := list (bool * option string).

Fixpoint markAt (i : nat) (value : string) (p : SamplePage) : option SamplePage :=
  match p, i with
  | [], _ => None
  | (v, _) :: r, 0 => Some ((v, Some value) :: r)
  | e :: r, S j =>
      match markAt j value r with
      | Some r' => Some (e :: r')
      | None => None
      end
  end.

Definition position (l : Locator) : nat :=
  match l with nth _ i => i | _ => 0 end.

Definition timeout : JsError := Error "Timeout 30000ms exceeded.".

Definition body : Node :=
  Element "BODY" [] {| display := "block"; visibility := "visible"; opacity := "1" |}
    [ Element "BUTTON" [("id", "go")]
        {| display := "inline-block"; visibility := "visible"; opacity := "1" |}
        [Text " Go "] ].

Definition sampleDrive (T : Type) (c : Call T) (p : SamplePage)
    : (JsError + T) * SamplePage :=
  match c in Call T return (JsError + T) * SamplePage with
  | setAttribute l _ value =>
      match markAt (position l) value p with
      | Some p' => (inr tt, p')
      | None => (inl timeout, p)
      end
  | count _ => (inr (List.length p), p)
  | isVisible l =>
      (inr (match nth_error p (position l) with
            | Some (v, _) => v
            | None => false
            end), p)
  | documentBody => (inr (Some body), p)
  | press _ _ | keyboard_press _ | blur _ | check _ | uncheck _ | clear _
  | click _ | fill _ _ | selectOption _ _ => (inr tt, p)
  | evaluate _ _ | boundingBox _ => (inr JNull, p)
  | getAttribute _ _ | textContent _ | goto _ => (inr None, p)
  | innerHTML _ | innerText _ | inputValue _ => (inr "", p)
  | isChecked _ | isEditable _ | isEnabled _ => (inr true, p)
  end.

(** Identifiers [id-], [id-I], [id-II], ... *)
Fixpoint sampleUuid (n : nat) : string :=
  match n with
  | 0 => "id-"
  | S k => sampleUuid k ++ "I"
  end.

(** Arguments are one of a few fixed texts. *)
Definition sampleParse (args : string) : JsError + json :=
  if String.eqb args "{}" then inr (JObj [])
  else if String.eqb args "{assertion:true}" then
    inr (JObj [("assertion", JBool true)])
  else if String.eqb args "{assertion:false}" then
    inr (JObj [("assertion", JBool false)])
  else if String.eqb args "{role:button}" then
    inr (JObj [("role", JStr "button")])
  else if String.eqb args "{elementId:7}" then
    inr (JObj [("elementId", JNum 7)])
  else if String.eqb args "{cssSelector:#save}" then
    inr (JObj [("cssSelector", JStr "#save")])
  else if String.eqb args "{text:Save}" then
    inr (JObj [("text", JStr "Save")])
  else inl (Error "Unexpected token").

Definition sampleStringify (v : json) : string :=
  match v with
  | JObj [("error", JStr m)] => "{error:" ++ m ++ "}"
  | JObj [("success", JBool true)] => "{success:true}"
  | JObj [("assertion", JBool true)] => "{assertion:true}"
  | JObj [("assertion", JBool false)] => "{assertion:false}"
  | _ => "{...}"
  end.

Definition shown : ComputedStyle :=
  {| display := "block"; visibility := "visible"; opacity := "1" |}.

(** A paragraph whose only child is a text of 60 letters between
    spaces. *)
Definition paragraph : Node :=
  Element "P" [("class", "lead")] shown
    [Text "  abcdefghijklmnopqrstuvwxyzabcdefghijklmnopqrstuvwxyzabcdefgh  "].

(** A body with a hidden section and a script next to a button. *)
Definition mixedBody : Node :=
  Element "BODY" [] shown
    [ Element "DIV" [("id", "menu")]
        {| display := "none"; visibility := "visible"; opacity := "1" |}
        [Element "BUTTON" [] shown [Text "Hidden"]];
      Element "SCRIPT" [] shown [Text "run()"];
      Element "BUTTON" [("id", "go")] shown [Text " Go "] ].

(** A form with one control, named [children]: the control is what
    [form.children] yields, and it has no [length]. *)
Definition shadowedForm : Node :=
  ElementObject shown (Str "FORM") [] (Str "")
    (Callable (Dom.getAttribute [])) (Str "")
    [Element "INPUT" [("name", "children")] shown []] (Str "") [].

Definition concealed : ComputedStyle :=
  {| display := "none"; visibility := "visible"; opacity := "1" |}.

Definition control : Node :=
  Element "INPUT" [("name", "children")]
    {| display := "inline-block"; visibility := "visible"; opacity := "1" |}
    [].

(** A section that is not displayed, around two controls. *)
Definition concealedSection : Node :=
  Element "DIV" [] concealed [control; control].

(** A form around that section: its two controls are named [children],
    so that [form.children] is the list of the two controls. *)
Definition clobberedForm : Node :=
  ElementObject shown (Str "FORM") [] (Str "")
    (Callable (Dom.getAttribute [])) (Str "")
    [concealedSection] (Str "") [control; control].

Definition clobberedBody : Node :=
  Element "BODY" [] shown [clobberedForm].

Definition controlNode : StructureNode :=
  {| tag := "input"; attributes := []; id := None; role := None;
     ariaLabel := None; className := None; text := None; children := [] |}.

(** An element with an attribute [__proto__] and two attributes whose
    names are array indices, and the node it yields when every attribute
    is allowed. *)
Definition oddAttributes : Node :=
  Element "DIV" [("b", "x"); ("2", "y"); ("__proto__", "z"); ("1", "w")]
    shown [].

Definition oddNode : StructureNode :=
  {| tag := "div";
     attributes := [("1", Some "w"); ("2", Some "y"); ("b", Some "x")];
     id := None; role := None; ariaLabel := None; className := None;
     text := None; children := [] |}.

Definition sampleOptions : SanitizeOptions :=
  {| allowedTags := Some ["body"; "div"; "button"];
     allowedAttributes := attributes_object [("*", allow_names ["id"])] |}.

Definition sampleTags : list string := ["body"; "div"; "button"; "p"].

Definition sampleRules : AllowedAttributes :=
  attributes_object [("*", allow_names ["id"])].

Definition paragraphNode : StructureNode :=
  {| tag := "p"; attributes := []; id := None; role := None;
     ariaLabel := None; className := Some "lead";
     text := Some "abcdefghijklmnopqrstuvwxyzabcdefghijklmnopqrstuvwx...";
     children := [] |}.

Definition mixedNode : StructureNode :=
  {| tag := "body"; attributes := []; id := None; role := None;
     ariaLabel := None; className := None; text := None;
     children :=
       [ {| tag := "button"; attributes := [("id", Some "go")];
            id := Some (Str "go");
            role := None; ariaLabel := None; className := None;
            text := Some "Go"; children := [] |} ] |}.

Definition sampleActions : list (string * ActionTool SamplePage) :=
  createActions sampleDrive sampleUuid sampleParse sampleOptions.

Definition start (p : SamplePage) : World SamplePage :=
  {| page := p; drawn := 0; trace := [] |}.

Definition says (calls : list ToolCall) : JsError + option AssistantMessage :=
  inr (Some {| content := None; tool_calls := Some calls |}).

Definition stops : JsError + option AssistantMessage :=
  inr (Some {| content := Some "Done."; tool_calls := None |}).

(** A model that answers by the length of the conversation. *)
Definition script (turns : list (nat * list ToolCall))
    (conversation : list Message) : JsError + option AssistantMessage :=
  match
    find (fun t => (fst t =? List.length conversation)%nat) turns
  with
  | Some t => says (snd t)
  | None => stops
  end.

(** The model asserts false and locates buttons, then asserts true, then
    stops. *)
Definition assertingModel :=
  script
    [ (2, [ FunctionToolCall "c1" "resultAssertion" "{assertion:false}";
            FunctionToolCall "c2" "locateElementsByRole" "{role:button}" ]);
      (5, [ FunctionToolCall "c3" "resultAssertion" "{assertion:true}" ]) ].

(** The model calls [toString], then [resultAction], then stops. *)
Definition confusedModel :=
  script
    [ (2, [ FunctionToolCall "c1" "toString" "{}" ]);
      (4, [ FunctionToolCall "c2" "resultAction" "{}" ]) ].

Definition twoButtons : SamplePage := [(true, None); (false, None)].

Definition emptyBatch : Batch :=
  {| lastFunctionResult := None; toolCallResults := []; history := [] |}.

End Sample.

(* ------------------------------------------------------------------ *)
(** ** Elements and policies, for the statements *)

Module PolicySpec.

(** The name of an attribute that the policy lets through on a tag:
    every name under [false], none without a policy, and under a policy
    object every name when all attributes are allowed on the tag or on
    every tag, and else the names listed for the tag or for every tag. *)
Definition permits (allowed : AllowedAttributes) (tag : string)
    (name : option string) : Prop :=
  match allowed with
  | attributes_false => True
  | attributes_undefined => False
  | attributes_object rules =>
      assoc tag rules = Some allow_all
      \/ assoc "*" rules = Some allow_all
      \/ (exists names s,
            name = Some s
            /\ assoc tag rules = Some (allow_names names) /\ In s names)
      \/ (exists names s,
            name = Some s
            /\ assoc "*" rules = Some (allow_names names) /\ In s names)
  end.

(** Keys in the order of [Object.keys]: the array indices first, in
    ascending order, then the other keys. *)
Fixpoint inKeyOrder (keys : list string) : Prop :=
  match keys with
  | [] => True
  | k :: rest =>
      (forall k', In k' rest ->
         match arrayIndex k, arrayIndex k' with
         | Some n, Some m => (n <= m)%N
         | None, Some _ => False
         | _, None => True
         end)
      /\ inKeyOrder rest
  end.

(** An extracted tree without the attributes of its nodes. *)
Fixpoint withoutAttributes (n : StructureNode) : StructureNode :=
  match n with
  | mkNode tag _ id role ariaLabel className text children =>
      mkNode tag [] id role ariaLabel className text
        (map withoutAttributes children)
  end.

(** What an extraction comes to, the attributes of the tree apart. *)
Definition attributesApart (r : JsError + option StructureNode)
    : JsError + option StructureNode :=
  match r with
  | inr (Some n) => inr (Some (withoutAttributes n))
  | other => other
  end.

End PolicySpec.
Import PolicySpec.

(* ------------------------------------------------------------------ *)
(** ** Kinds of actions and of results, for the statements *)

Module RegistrySpec.

(** The actions that work on the element of an [elementId]. *)
Definition singleElementActions : list string :=
  [ "locator_pressKey"; "locator_evaluate"; "locator_getAttribute";
    "locator_innerHTML"; "locator_innerText"; "locator_textContent";
    "locator_inputValue"; "locator_blur"; "locator_boundingBox";
    "locator_check"; "locator_uncheck"; "locator_isChecked";
    "locator_isEditable"; "locator_isEnabled"; "locator_isVisible";
    "locator_clear"; "locator_click"; "locator_count"; "locator_fill" ].

(** The actions that compare or report and do not reach the page. *)
Definition pureActions : list string :=
  [ "expect_toBe"; "expect_notToBe"; "resultAssertion"; "resultQuery";
    "resultAction"; "resultError" ].

Definition locatingActions : list string :=
  [ "locateElement"; "locateElementsByRole"; "locateElementsWithText" ].

(** The locator a driver call works on, when it has one. *)
Definition eventLocator (e : Event) : option Locator :=
  match e with
  | Did c _ =>
      match c with
      | press l _ | setAttribute l _ _ | evaluate l _ | getAttribute l _
      | innerHTML l | innerText l | textContent l | inputValue l | blur l
      | boundingBox l | check l | uncheck l | isChecked l | isEditable l
      | isEnabled l | isVisible l | clear l | click l | count l | fill l _
      | selectOption l _ => Some l
      | keyboard_press _ | goto _ | documentBody => None
      end
  end.

Definition stringsOf (items : list json) : list string :=
  flat_map (fun x => match x with JStr s => [s] | _ => [] end) items.

(** The identifiers a locating action hands out in its result. *)
Definition issued (v : json) : list string :=
  match get "elementIds" v, get "elementId" v with
  | Some (JArr items), _ => stringsOf items
  | _, Some (JStr s) => [s]
  | _, _ => []
  end.

(** The four shapes of a task result. *)
Definition TaskResultShape (v : json) : Prop :=
  (exists b, v = JObj [("assertion", JBool b)])
  \/ (exists s, v = JObj [("query", JStr s)])
  \/ v = JObj [("success", JBool true)]
  \/ (exists s, v = JObj [("errorMessage", JStr s)]).

End RegistrySpec.
Import RegistrySpec.

(* ------------------------------------------------------------------ *)
(** ** Properties of computations and registries, for the statements *)

Module EffectSpec.
Section EffectSpec.

Variable Page : Type.

(** Every value a result-class action of the registry returns
    satisfies [P]. *)
Definition ResultsSatisfy (P : json -> Prop)
    (actions : list (string * ActionTool Page)) : Prop :=
  forall name action raw args w v w',
    assoc name actions = Some action ->
    isResultName name = true ->
    parse action raw = inr args ->
    function action args w = (inr v, w') ->
    P v.

(** A tool call that is skipped or names a pure action. *)
Definition pureCall (c : ToolCall) : Prop :=
  match c with
  | FunctionToolCall _ name _ => In name pureActions
  | OtherToolCall _ => True
  end.

(** A model that only ever requests pure calls. *)
Definition requestsPureCalls
    (create : list Message -> JsError + option AssistantMessage) : Prop :=
  forall conversation m calls,
    create conversation = inr (Some m) ->
    tool_calls m = Some calls ->
    Forall pureCall calls.

End EffectSpec.
End EffectSpec.
Import EffectSpec.

(* ------------------------------------------------------------------ *)
(** ** The argument schema of [locator_selectOption] *)

Module SelectOptionSchema.

Lemma isString_iff x : isString x = true <-> aString x.
Proof.
  split.
  - destruct x; simpl; try discriminate. intros _. now exists s.
  - intros [s ->]. reflexivity.
Qed.

Lemma isNumber_iff x : isNumber x = true <-> aNumber x.
Proof.
  split.
  - destruct x; simpl; try discriminate. intros _. now exists n.
  - intros [n ->]. reflexivity.
Qed.

Lemma conforms_optional t (P : json -> Prop) o :
  (forall x, conforms t (Some x) = true <-> P x) ->
  conforms (z_optional t) o = true <-> (forall x, o = Some x -> P x).
Proof.
  intros H. destruct o as [x|]; simpl.
  - rewrite H. split.
    + intros Px y [= <-]. exact Px.
    + intros K. now apply K.
  - split; [intros _ y; discriminate | reflexivity].
Qed.

Lemma conforms_one_or_more t (P : json -> Prop) :
  (forall x, conforms t (Some x) = true <-> P x) ->
  forall x, conforms (z_union t (z_array t)) (Some x) = true <-> oneOrMore P x.
Proof.
  intros H x. simpl. rewrite orb_true_iff, H. unfold oneOrMore.
  split; intros [K|K]; auto; right.
  - destruct x; try discriminate. exists items. split; [reflexivity|].
    rewrite forallb_forall in K. apply Forall_forall.
    intros y Hy. apply H, K, Hy.
  - destruct K as (xs & -> & F). apply forallb_forall.
    intros y Hy. apply H. rewrite Forall_forall in F. now apply F.
Qed.

(** Parsing keeps the properties of the shape and drops the others. *)
Lemma get_strip shape k v :
  get k (JObj (strip shape v))
  = if existsb (String.eqb k) (map fst shape) then get k v else None.
Proof.
  induction shape as [|[a t] r IH]; [reflexivity|].
  cbn [strip map fst existsb].
  destruct (get a v) as [x|] eqn:E.
  - cbn [get assoc] in *. destruct (String.eqb_spec k a) as [->|N]; simpl.
    + now rewrite E.
    + exact IH.
  - rewrite IH. destruct (String.eqb_spec k a) as [->|N]; simpl.
    + rewrite E. now destruct (existsb _ _).
    + reflexivity.
Qed.

Lemma defined_strip k v :
  existsb (String.eqb k) (map fst selectOptionShape) = true ->
  defined k (JObj (strip selectOptionShape v)) = defined k v.
Proof.
  intros H. unfold defined. now rewrite get_strip, H.
Qed.

(** What the schema does, in one equation. *)
Lemma accepts_eq fields :
  accepts (JObj fields)
  = wellTyped selectOptionShape (JObj fields)
    && (defined "elementId" (JObj fields) || defined "cssSelector" (JObj fields))
    && (defined "value" (JObj fields) || defined "label" (JObj fields)
        || defined "index" (JObj fields)).
Proof.
  unfold accepts, locatorSelectOptionSchema, refine, z_object.
  destruct (wellTyped selectOptionShape (JObj fields)); [|reflexivity].
  rewrite !defined_strip by reflexivity.
  destruct (defined "elementId" (JObj fields)),
    (defined "cssSelector" (JObj fields));
    cbn [orb andb]; try reflexivity;
    rewrite !defined_strip by reflexivity;
    destruct (defined "value" (JObj fields)),
      (defined "label" (JObj fields)), (defined "index" (JObj fields));
    reflexivity.
Qed.

Lemma wellTyped_selectOption v :
  wellTyped selectOptionShape v = true <->
  optionally aString "elementId" v
  /\ optionally aString "cssSelector" v
  /\ optionally (oneOrMore aString) "value" v
  /\ optionally (oneOrMore aString) "label" v
  /\ optionally (oneOrMore aNumber) "index" v.
Proof.
  unfold wellTyped, selectOptionShape, optionally.
  cbn [forallb fst snd]. rewrite !andb_true_iff.
  rewrite !(conforms_optional z_string aString) by (intro; apply isString_iff).
  rewrite !(conforms_optional (z_union z_string (z_array z_string))
              (oneOrMore aString))
    by (apply conforms_one_or_more; intro; apply isString_iff).
  rewrite (conforms_optional (z_union z_number (z_array z_number))
             (oneOrMore aNumber))
    by (apply conforms_one_or_more; intro; apply isNumber_iff).
  tauto.
Qed.

Lemma supplied_locator v :
  defined "elementId" v || defined "cssSelector" v = true
  <-> 1 <= supplied locatorKeys v.
Proof.
  unfold supplied, locatorKeys. cbn [filter].
  destruct (defined "elementId" v), (defined "cssSelector" v); simpl;
    split; intros; try lia; try reflexivity; discriminate.
Qed.

Lemma supplied_criterion v :
  defined "value" v || defined "label" v || defined "index" v = true
  <-> 1 <= supplied criterionKeys v.
Proof.
  unfold supplied, criterionKeys. cbn [filter].
  destruct (defined "value" v), (defined "label" v), (defined "index" v);
    simpl; split; intros; try lia; try reflexivity; discriminate.
Qed.

(** C5, as stated, does not hold: the schema does not ask for exactly one
    property of each group. An input that supplies both [elementId] and
    [cssSelector] (or several of [value], [label], [index]) is accepted. *)
Lemma select_option_schema_not_exactly_one :
  ~ (forall v,
       accepts v = true
       <-> supplied locatorKeys v = 1 /\ supplied criterionKeys v = 1).
Proof.
  intros H.
  destruct (proj1 (H (JObj [("elementId", JStr "e1");
                            ("cssSelector", JStr "#fruits");
                            ("value", JStr "banana");
                            ("label", JStr "Banana")])) eq_refl) as [K _].
  discriminate K.
Qed.

(** The inputs the schema accepts. *)
Lemma accepts_iff v :
  accepts v = true
  <-> (exists fields, v = JObj fields)
      /\ (optionally aString "elementId" v
          /\ optionally aString "cssSelector" v
          /\ optionally (oneOrMore aString) "value" v
          /\ optionally (oneOrMore aString) "label" v
          /\ optionally (oneOrMore aNumber) "index" v)
      /\ 1 <= supplied locatorKeys v
      /\ 1 <= supplied criterionKeys v.
Proof.
  rewrite <- wellTyped_selectOption, <- supplied_locator, <- supplied_criterion.
  destruct v as [| | | | |fields];
    try (split; [discriminate | intros [[f [=]] _]]).
  rewrite accepts_eq, !andb_true_iff. split.
  - intros [[W L] C]. repeat split; try assumption. now exists fields.
  - intros (_ & W & L & C). auto.
Qed.

End SelectOptionSchema.

(* ------------------------------------------------------------------ *)
(** ** The visible-structure extraction *)

Module StructureFacts.

Section Extraction.

Variable tags : list string.
Variable allowed : AllowedAttributes.
Variable limit : nat.

Local Abbreviation extract := (extractVisibleStructure tags allowed limit).

(** The inner loop of the extraction collects what the extraction of
    each item comes to. *)
Lemma each_child depth (l : list Node) :
  (fix each (l : list Node) : JsError + list StructureNode :=
     match l with
     | [] => inr []
     | c :: r =>
         child <-! extract c depth ;;
         rest <-! each r ;;
         inr (match child with
              | Some n => n :: rest
              | None => rest
              end)
     end) l
  = collected (map (fun c => extract c depth) l).
Proof.
  induction l as [|c r IH]; [reflexivity|].
  cbn [map collected]. now rewrite IH.
Qed.

(** A loop that ends without a throw has added what each item emits. *)
Lemma collected_emitted depth (l : list Node) : forall cs,
  collected (map (fun c => extract c depth) l) = inr cs ->
  cs = flat_map (emitted tags allowed limit depth) l.
Proof.
  induction l as [|c r IH]; intros cs.
  - now intros [= <-].
  - cbn [map collected flat_map]. unfold emitted at 1, andThen at 1.
    destruct (extractVisibleStructure tags allowed limit c depth)
      as [e|child]; [discriminate|].
    unfold andThen.
    destruct (collected _) as [e|others]; [discriminate|].
    intros [= <-]. rewrite (IH others eq_refl). now destruct child.
Qed.

Lemma extract_element style tagName attrs ident method class childNodes
    content items depth node :
  extract
    (ElementObject style tagName attrs ident method class childNodes content
       items) depth = inr (Some node) ->
  (limit <? depth)%nat = false
  /\ hidden style = false
  /\ exists s f,
       tagName = Str s /\ method = Callable f
       /\ includes tags (toLowerCase s) = true
       /\ tag node = toLowerCase s
       /\ attributes node = copyAttributes allowed (toLowerCase s) attrs
       /\ id node = whenTruthyValue ident
       /\ role node = whenPresent (f "role")
       /\ ariaLabel node = whenPresent (f "aria-label")
       /\ className node
          = match trimmedClassName class with
            | Some c => whenTruthy c
            | None => None
            end
       /\ ownText childNodes content = inr (text node)
       /\ children node
          = if (depth + 1 <? limit)%nat
            then flat_map (emitted tags allowed limit (depth + 1)) items
            else [].
Proof.
  cbn [extractVisibleStructure].
  destruct (limit <? depth)%nat; [discriminate|].
  destruct (hidden style); [discriminate|].
  destruct tagName as [| |s|o]; cbn [lowerCased andThen]; try discriminate.
  destruct (includes tags (toLowerCase s)) eqn:Hin; [|discriminate].
  cbn [negb].
  destruct method as [f|]; cbn [callGetAttribute andThen]; [|discriminate].
  destruct (ownText childNodes content) as [e|t]; cbn [andThen];
    [discriminate|].
  rewrite each_child.
  destruct (depth + 1 <? limit)%nat.
  - destruct (collected _) as [e|cs] eqn:C; cbn [andThen]; [discriminate|].
    intros [= <-]. cbn [tag attributes id role ariaLabel className text
                        children].
    split; [reflexivity|]. split; [reflexivity|]. exists s, f.
    repeat split; try reflexivity; try exact Hin.
    exact (collected_emitted _ _ C).
  - cbn [andThen]. intros [= <-].
    split; [reflexivity|]. split; [reflexivity|]. exists s, f.
    repeat split; try reflexivity; exact Hin.
Qed.

Lemma extract_not_element n depth node :
  extract n depth = inr (Some node) -> isElement n = true.
Proof.
  destruct n; [reflexivity| |]; cbn [extractVisibleStructure];
    destruct (limit <? depth)%nat; discriminate.
Qed.

(** A hidden element, or one whose tag is not allowed, yields [null]
    whatever else it holds. *)
Lemma extract_pruned style tagName attrs ident method class childNodes
    content items depth :
  hidden style = true
  \/ (exists s, tagName = Str s /\ includes tags (toLowerCase s) = false) ->
  extract
    (ElementObject style tagName attrs ident method class childNodes content
       items) depth = inr None.
Proof.
  intros H. cbn [extractVisibleStructure].
  destruct (limit <? depth)%nat; [reflexivity|].
  destruct H as [-> | (s & -> & H)]; [reflexivity|].
  destruct (hidden style); [reflexivity|].
  cbn [lowerCased andThen]. now rewrite H.
Qed.

Lemma nodes_eq n : nodes n = n :: flat_map nodes (children n).
Proof. now destruct n. Qed.

Lemma height_eq n : height n = S (list_max (map height (children n))).
Proof. now destruct n. Qed.

(** The children of an extracted node come from the items of
    [element.children], one level down. *)
Lemma child_origin style tagName attrs ident method class childNodes content
    items depth node child :
  extract
    (ElementObject style tagName attrs ident method class childNodes content
       items) depth = inr (Some node) ->
  In child (children node) ->
  exists c, In c items /\ depth + 1 < limit
            /\ extract c (depth + 1) = inr (Some child).
Proof.
  intros E Hin.
  destruct (extract_element _ _ _ _ _ _ _ _ _ _ E)
    as (_ & _ & s & f & _ & _ & _ & _ & _ & _ & _ & _ & _ & _ & Hc).
  rewrite Hc in Hin.
  destruct (Nat.ltb_spec (depth + 1) limit) as [L|L]; [|contradiction].
  apply in_flat_map in Hin. destruct Hin as (c & Hc1 & Hc2).
  unfold emitted in Hc2.
  destruct (extractVisibleStructure tags allowed limit c (depth + 1))
    as [e|[x|]] eqn:Ex; try contradiction.
  destruct Hc2 as [<-|[]]. now exists c.
Qed.

(** Every node of an extracted tree has an allowed tag: by induction on
    the levels left below [depth]. *)
Lemma tags_allowed k : forall element depth node,
  limit - depth <= k ->
  extract element depth = inr (Some node) ->
  Forall (fun n => In (tag n) tags) (nodes node).
Proof.
  induction k as [|k IH]; intros element depth node Hk E;
    pose proof (extract_not_element _ _ E) as I;
    (destruct element
       as [style tagName attrs ident method class childNodes content items| |];
     [|discriminate|discriminate]);
    pose proof (fun child => child_origin _ _ _ _ _ _ _ _ _ _ child E) as O;
    destruct (extract_element _ _ _ _ _ _ _ _ _ _ E)
      as (_ & _ & s & f & _ & _ & Hin & Ht & _);
    rewrite nodes_eq; constructor.
  1, 3: rewrite Ht; unfold includes in Hin;
    apply existsb_exists in Hin; destruct Hin as (x & Hx & Heq);
    apply String.eqb_eq in Heq; now subst.
  - apply Forall_flat_map, Forall_forall. intros child Hchild.
    destruct (O child Hchild) as (c & _ & L & _). lia.
  - apply Forall_flat_map, Forall_forall. intros child Hchild.
    destruct (O child Hchild) as (c & _ & L & Ex).
    apply (IH c (depth + 1)); [lia | exact Ex].
Qed.

Lemma list_max_bound (l : list nat) (b : nat) :
  Forall (fun x => x <= b) l -> list_max l <= b.
Proof. intros H. now apply list_max_le. Qed.

(** An extracted tree has at most as many levels as are left below
    [depth]. *)
Lemma height_bound k : forall element depth node,
  limit - depth <= k ->
  extract element depth = inr (Some node) ->
  height node <= Nat.max 1 (limit - depth).
Proof.
  induction k as [|k IH]; intros element depth node Hk E;
    pose proof (extract_not_element _ _ E) as I;
    (destruct element
       as [style tagName attrs ident method class childNodes content items| |];
     [|discriminate|discriminate]);
    pose proof (fun child => child_origin _ _ _ _ _ _ _ _ _ _ child E) as O;
    rewrite height_eq.
  - assert (Z : children node = []).
    { destruct (children node) as [|child r]; [reflexivity|].
      destruct (O child (or_introl eq_refl)) as (c & _ & L & _). lia. }
    rewrite Z. change (list_max (map height [])) with 0. lia.
  - assert (list_max (map height (children node)) <= limit - (depth + 1));
      [|lia].
    assert (B : Forall (fun x => x <= Nat.max 1 (limit - (depth + 1)))
                  (map height (children node))).
    { apply Forall_forall. intros h Hh.
      apply in_map_iff in Hh. destruct Hh as (child & <- & Hchild).
      destruct (O child Hchild) as (c & _ & L & Ex).
      exact (IH c (depth + 1) child ltac:(lia) Ex). }
    destruct (Nat.ltb_spec (depth + 1) limit) as [L|L].
    + apply list_max_bound. eapply Forall_impl; [|exact B].
      cbv beta. intros a Ha. lia.
    + assert (Z : children node = []).
      { destruct (children node) as [|child r]; [reflexivity|].
        destruct (O child (or_introl eq_refl)) as (c & _ & L' & _). lia. }
      rewrite Z. change (list_max (map height [])) with 0. lia.
Qed.

End Extraction.

Lemma copyAttributes_nil allowed tag : copyAttributes allowed tag [] = [].
Proof. now destruct allowed. Qed.

Lemma nest_children n : Dom.children (nest n []) = nest n [].
Proof. destruct n; reflexivity. Qed.

Lemma nest_text n :
  ownText (nest n []) (Str (Dom.textContent (nest n []))) = inr None.
Proof. destruct n; reflexivity. Qed.

(** A chain of nested [div] elements is extracted down to the limit. *)
Lemma extract_nest tags allowed limit :
  includes tags "div" = true ->
  forall n depth, depth < limit ->
  collected
    (map (fun c => extractVisibleStructure tags allowed limit c depth)
       (nest n []))
  = inr (bareDivs (Nat.min n (limit - depth))).
Proof.
  intros Hdiv. induction n as [|n IH]; intros depth Hd; [reflexivity|].
  cbn [nest map collected]. unfold Element.
  cbn [extractVisibleStructure].
  destruct (Nat.ltb_spec limit depth) as [L|_]; [lia|].
  change (hidden _) with false. cbv iota.
  cbn [lowerCased andThen callGetAttribute].
  change (toLowerCase "DIV") with "div". rewrite Hdiv. cbn [negb].
  rewrite copyAttributes_nil, nest_text, nest_children, each_child.
  replace (Nat.min (S n) (limit - depth))
    with (S (Nat.min n (limit - (depth + 1)))) by lia.
  cbn [bareDivs andThen].
  destruct (Nat.ltb_spec (depth + 1) limit) as [L|L].
  - now rewrite (IH (depth + 1) L).
  - replace (limit - (depth + 1)) with 0 by lia.
    now rewrite Nat.min_0_r.
Qed.

Lemma hidden_iff (style : ComputedStyle) :
  hidden style = true
  <-> display style = "none" \/ visibility style = "hidden"
      \/ opacity style = "0".
Proof.
  unfold hidden. rewrite !orb_true_iff, !String.eqb_eq. tauto.
Qed.

Lemma allowed_iff (tags : list string) (tag : string) :
  includes tags tag = true <-> In tag tags.
Proof.
  unfold includes. rewrite existsb_exists. split.
  - intros (x & Hx & E). apply String.eqb_eq in E. now subst.
  - intros H. exists tag. split; [exact H | apply String.eqb_refl].
Qed.

(** The lower case of a tag name reaches beyond the letters A to Z. *)
Lemma lower_case_beyond_ascii :
  toLowerCase (String "X" (String "-" (String (ascii_of_nat 201) "")))
  = String "x" (String "-" (String (ascii_of_nat 233) "")).
Proof. reflexivity. Qed.

(** A form whose [children] a control of that name shadows is extracted
    without children, though it has an element child. *)
Lemma shadowed_children_are_not_visited :
  extractVisibleStructure ["form"; "input"] attributes_undefined 30
    Sample.shadowedForm 0
  = inr (Some (bare "form" [])).
Proof. reflexivity. Qed.

(** Every node of an extracted tree has a tag of the allow-list; an
    element whose computed [display] is [none], whose [visibility] is
    [hidden] or whose [opacity] is [0], or whose tag is not allowed,
    yields [null] whatever it holds, its [children] among the rest; and
    every child of an extracted node is the extraction of an item of the
    [children] of its element, which is itself shown and allowed: so
    nothing is reached through an element that is pruned. *)
Theorem pruned_subtrees_and_allowed_tags
    (tags : list string) (allowed : AllowedAttributes) (limit : nat) :
  (forall style tagName attrs ident method class childNodes content items
          depth,
     display style = "none" \/ visibility style = "hidden"
     \/ opacity style = "0"
     \/ (exists s, tagName = Str s /\ ~ In (toLowerCase s) tags) ->
     extractVisibleStructure tags allowed limit
       (ElementObject style tagName attrs ident method class childNodes
          content items) depth = inr None)
  /\ (forall element depth node,
        extractVisibleStructure tags allowed limit element depth
        = inr (Some node) ->
        Forall (fun n => In (tag n) tags) (nodes node)
        /\ exists style s attrs ident method class childNodes content items,
             element
             = ElementObject style (Str s) attrs ident method class
                 childNodes content items
             /\ display style <> "none"
             /\ visibility style <> "hidden"
             /\ opacity style <> "0"
             /\ tag node = toLowerCase s
             /\ In (toLowerCase s) tags
             /\ forall child, In child (children node) ->
                  exists c, In c items
                    /\ extractVisibleStructure tags allowed limit c (depth + 1)
                       = inr (Some child)).
Proof.
  split.
  - intros style tagName attrs ident method class childNodes content items
      depth H.
    apply extract_pruned.
    destruct H as [H|[H|[H|(s & -> & H)]]].
    + left. apply hidden_iff. tauto.
    + left. apply hidden_iff. tauto.
    + left. apply hidden_iff. tauto.
    + right. exists s. split; [reflexivity|].
      destruct (includes tags (toLowerCase s)) eqn:I; [|reflexivity].
      apply allowed_iff in I. contradiction.
  - intros element depth node E. split.
    + exact (@tags_allowed tags allowed limit (limit - depth) element depth
               node ltac:(lia) E).
    + pose proof (extract_not_element _ _ _ _ _ E) as I.
      destruct element
        as [style tagName attrs ident method class childNodes content items| |];
        [|discriminate|discriminate].
      destruct (extract_element _ _ _ _ _ _ _ _ _ _ _ _ _ E)
        as (_ & Hh & s & f & -> & _ & Hin & Ht & _).
      exists style, s, attrs, ident, method, class, childNodes, content, items.
      assert (V : ~ (display style = "none" \/ visibility style = "hidden"
                     \/ opacity style = "0")).
      { rewrite <- hidden_iff. congruence. }
      split; [reflexivity|].
      split; [tauto|]. split; [tauto|]. split; [tauto|].
      split; [exact Ht|]. split; [now apply allowed_iff|].
      intros child Hchild.
      destruct (@child_origin tags allowed limit style (Str s) attrs ident
                  method class childNodes content items depth node child E
                  Hchild) as (c & Hc & _ & Ec).
      now exists c.
Qed.

(** C7, on the code: an element that is pruned is not always pruned
    together with its subtree. The loop goes over [element.children],
    and on a form that has controls named [children] this is the list of
    those controls, wherever they stand below the form. A control that
    stands below an element that is hidden or whose tag is not allowed,
    and that is shown and allowed itself, is then emitted as a child of
    the form, while the element above it yields [null]. *)
Theorem pruned_subtree_reached_through_named_controls
    (tags : list string) (allowed : AllowedAttributes) (limit : nat)
    (style : ComputedStyle) (tagName : Value)
    (attrs : list (option string * option string)) (ident : Value)
    (method : Method) (class : Value) (childNodes : list Node)
    (content : Value) (items : list Node)
    (style' : ComputedStyle) (tagName' : Value)
    (attrs' : list (option string * option string)) (ident' : Value)
    (method' : Method) (class' : Value) (childNodes' : list Node)
    (content' : Value) (items' : list Node)
    (c : Node) (depth : nat) (node child : StructureNode) :
  extractVisibleStructure tags allowed limit
    (ElementObject style tagName attrs ident method class childNodes content
       items) depth = inr (Some node) ->
  In (ElementObject style' tagName' attrs' ident' method' class' childNodes'
        content' items') childNodes ->
  display style' = "none" \/ visibility style' = "hidden"
  \/ opacity style' = "0"
  \/ (exists s, tagName' = Str s /\ ~ In (toLowerCase s) tags) ->
  In c items' ->
  In c items ->
  depth + 1 < limit ->
  extractVisibleStructure tags allowed limit c (depth + 1)
  = inr (Some child) ->
  extractVisibleStructure tags allowed limit
    (ElementObject style' tagName' attrs' ident' method' class' childNodes'
       content' items') (depth + 1) = inr None
  /\ In child (children node).
Proof.
  intros E _ P _ I L Ec. split.
  - apply extract_pruned.
    destruct P as [H|[H|[H|(s & -> & H)]]].
    + left. apply hidden_iff. tauto.
    + left. apply hidden_iff. tauto.
    + left. apply hidden_iff. tauto.
    + right. exists s. split; [reflexivity|].
      destruct (includes tags (toLowerCase s)) eqn:N; [|reflexivity].
      apply allowed_iff in N. contradiction.
  - destruct (extract_element _ _ _ _ _ _ _ _ _ _ _ _ _ E)
      as (_ & _ & s & f & _ & _ & _ & _ & _ & _ & _ & _ & _ & _ & Hc).
    rewrite Hc. destruct (Nat.ltb_spec (depth + 1) limit); [|lia].
    apply in_flat_map. exists c. split; [exact I|].
    unfold emitted. rewrite Ec. now left.
Qed.

(** C8: the extraction visits the items of [element.children] of an
    element at [depth] only when [depth + 1 < 30], the body being at
    depth 0, and gives the node no children otherwise; a tree extracted
    at depth 0 has at most 30 levels; and a body around a chain of 35
    nested [div] elements yields exactly 30 levels (the body and 29
    [div] nodes), the last of them without children. *)
Theorem depth_limit (tags : list string) (allowed : AllowedAttributes) :
  (forall style tagName attrs ident method class childNodes content items
          depth node,
     extractVisibleStructure tags allowed maxDepth
       (ElementObject style tagName attrs ident method class childNodes
          content items) depth = inr (Some node) ->
     (depth + 1 < maxDepth ->
      children node
      = flat_map (emitted tags allowed maxDepth (depth + 1)) items)
     /\ (maxDepth <= depth + 1 -> children node = []))
  /\ (forall body node,
        extractVisibleStructure tags allowed maxDepth body 0
        = inr (Some node) ->
        height node <= 30)
  /\ (includes tags "body" = true -> includes tags "div" = true ->
      extractBody {| allowedTags := Some tags; allowedAttributes := allowed |}
        (Some (chain 35))
      = inr (Some (bare "body" (bareDivs 29)))
      /\ height (bare "body" (bareDivs 29)) = 30
      /\ children (deepest 29 (bare "body" (bareDivs 29))) = []).
Proof.
  split; [|split].
  - intros style tagName attrs ident method class childNodes content items
      depth node E.
    destruct (extract_element _ _ _ _ _ _ _ _ _ _ _ _ _ E)
      as (_ & _ & s & f & _ & _ & _ & _ & _ & _ & _ & _ & _ & _ & Hc).
    rewrite Hc. split; intros H.
    + now destruct (Nat.ltb_spec (depth + 1) maxDepth); [|lia].
    + now destruct (Nat.ltb_spec (depth + 1) maxDepth); [lia|].
  - intros body node E.
    pose proof (@height_bound tags allowed maxDepth maxDepth body 0 node
                  ltac:(lia) E) as H.
    unfold maxDepth in H. simpl in H. exact H.
  - intros Hbody Hdiv. split; [|split; reflexivity].
    unfold extractBody, chain, Element.
    cbn [allowedTags allowedAttributes].
    cbn [extractVisibleStructure].
    change (maxDepth <? 0)%nat with false.
    change (hidden _) with false. cbv iota.
    cbn [lowerCased andThen callGetAttribute].
    change (toLowerCase "BODY") with "body". rewrite Hbody. cbn [negb].
    change (0 + 1) with 1.
    rewrite copyAttributes_nil, nest_text, nest_children, each_child.
    cbn [andThen]. change (1 <? maxDepth)%nat with true. cbv iota.
    rewrite (@extract_nest tags allowed maxDepth Hdiv 35 1
               ltac:(unfold maxDepth; lia)).
    reflexivity.
Qed.


Lemma truthyString_iff (s : string) : truthyString s = true <-> s <> "".
Proof. destruct s; simpl; split; congruence. Qed.



Lemma pruned_subtrees_and_allowed_tags_witness :
  extractVisibleStructure Sample.sampleTags Sample.sampleRules 30
    Sample.mixedBody 0 = inr (Some Sample.mixedNode)
  /\ Forall (fun n => In (tag n) Sample.sampleTags) (nodes Sample.mixedNode).
Proof.
  split; [reflexivity|].
  exact (proj1
           (proj2 (pruned_subtrees_and_allowed_tags Sample.sampleTags
                     Sample.sampleRules 30)
              Sample.mixedBody 0 Sample.mixedNode eq_refl)).
Defined.

Lemma pruned_subtree_reached_through_named_controls_witness :
  extractVisibleStructure ["body"; "form"; "div"; "input"]
    attributes_undefined 30 Sample.clobberedBody 0
  = inr (Some (bare "body"
                 [bare "form" [Sample.controlNode; Sample.controlNode]]))
  /\ extractVisibleStructure ["body"; "form"; "div"; "input"]
       attributes_undefined 30 Sample.concealedSection 2 = inr None
  /\ In Sample.controlNode
       (children (bare "form" [Sample.controlNode; Sample.controlNode])).
Proof.
  split; [reflexivity|].
  exact (@pruned_subtree_reached_through_named_controls
           ["body"; "form"; "div"; "input"] attributes_undefined 30
           Sample.shown (Str "FORM") [] (Str "")
           (Callable (Dom.getAttribute [])) (Str "")
           [Sample.concealedSection] (Str "")
           [Sample.control; Sample.control]
           Sample.concealed (Str "DIV") [] (Str "")
           (Callable (Dom.getAttribute [])) (Str "")
           [Sample.control; Sample.control] (Str "")
           [Sample.control; Sample.control]
           Sample.control 1
           (bare "form" [Sample.controlNode; Sample.controlNode])
           Sample.controlNode eq_refl (or_introl eq_refl)
           (or_introl eq_refl) (or_introl eq_refl) (or_introl eq_refl)
           ltac:(repeat constructor) eq_refl).
Defined.

Lemma depth_limit_witness :
  includes Sample.sampleTags "body" = true
  /\ includes Sample.sampleTags "div" = true
  /\ extractBody
       {| allowedTags := Some Sample.sampleTags;
          allowedAttributes := Sample.sampleRules |}
       (Some (chain 35))
     = inr (Some (bare "body" (bareDivs 29))).
Proof.
  split; [reflexivity | split; [reflexivity|]].
  exact (proj1
           (proj2 (proj2 (depth_limit Sample.sampleTags Sample.sampleRules))
              eq_refl eq_refl)).
Defined.


End StructureFacts.

(* ------------------------------------------------------------------ *)
(** ** The tool-call loop *)

Module OrchestratorFacts.
Local Open Scope list_scope.
Section Facts.

Variable Page : Type.
Variable actions : list (string * ActionTool Page).
Variable create : list Message -> JsError + option AssistantMessage.
Variable JSON_stringify : json -> string.
Variable SYSTEM_PROMPT : string.
Variable prompt : string -> string.

Local Abbreviation processToolCall :=
  (processToolCall actions JSON_stringify).
Local Abbreviation processToolCalls :=
  (processToolCalls actions JSON_stringify).
Local Abbreviation turn := (turn actions create JSON_stringify).
Local Abbreviation loop := (loop actions create JSON_stringify).
Local Abbreviation after := (after actions create JSON_stringify).
Local Abbreviation failed := (failed JSON_stringify).
Local Abbreviation succeeded := (succeeded JSON_stringify).
Local Abbreviation Dispatched := (Dispatched actions JSON_stringify).
Local Abbreviation ResultsTruthy := (ResultsTruthy actions).
Local Abbreviation Invariant := (Invariant actions).

Lemma processToolCall_cases id name arguments b w :
  Dispatched id name arguments b w
    (processToolCall (FunctionToolCall id name arguments) b w).
Proof.
  unfold Orchestrator.processToolCall.
  destruct (lookup actions name) as [action|] eqn:L.
  - unfold catch, bind, lift.
    destruct (parseOf action arguments) as [error|parsedArgs] eqn:P.
    + now apply dispatch_invalid with action.
    + destruct (functionOf action parsedArgs w) as [[error|result] w'] eqn:F.
      * now apply dispatch_threw with action parsedArgs.
      * now apply dispatch_returned with action parsedArgs.
  - now apply dispatch_unknown.
Qed.

Lemma lastSuccessfulResult_snoc h d :
  lastSuccessfulResult (h ++ [d])
  = match outcome d with
    | inr v => if isResultName (dispatched d) then Some v
               else lastSuccessfulResult h
    | inl _ => lastSuccessfulResult h
    end.
Proof.
  induction h as [|x h IH]; cbn [app lastSuccessfulResult].
  - destruct (outcome d) as [e|v]; [reflexivity|].
    now destruct (isResultName (dispatched d)).
  - rewrite IH. destruct (outcome d) as [e|v].
    + reflexivity.
    + now destruct (isResultName (dispatched d)).
Qed.

Lemma lookup_own name a :
  lookup actions name = Some (Own a) -> assoc name actions = Some a.
Proof.
  unfold lookup. destruct (assoc name actions).
  - now intros [= ->].
  - destruct (includes objectPrototype name); discriminate.
Qed.

(** One call: it adds its tool result when it is a function call, and
    keeps the slot on the history. *)
Lemma processToolCall_step toolCall b w b' w' :
  processToolCall toolCall b w = (inr b', w') ->
  (exists ics,
     toolCallResults b' = toolCallResults b ++ tools ics
     /\ map fst ics = map callId (filter isFunctionCall [toolCall]))
  /\ (ResultsTruthy ->
      slotTracks (lastFunctionResult b) (history b) ->
      slotTracks (lastFunctionResult b') (history b')).
Proof.
  destruct toolCall as [id name arguments|id].
  - pose proof (processToolCall_cases id name arguments b w) as D.
    intros E. rewrite E in D. clear E.
    inversion D as [ | action error L P | action parsedArgs error w1 L P F
                   | action parsedArgs result w1 L P F ]; subst.
    + split.
      * exists [(id, JSON_stringify (JObj [("error", JStr (message error))]))].
        now split.
      * intros _ [T1 T2]. split; cbn [failed lastFunctionResult history].
        -- now rewrite lastSuccessfulResult_snoc.
        -- exact T2.
    + split.
      * exists [(id, JSON_stringify (JObj [("error", JStr (message error))]))].
        now split.
      * intros _ [T1 T2]. split; cbn [failed lastFunctionResult history].
        -- now rewrite lastSuccessfulResult_snoc.
        -- exact T2.
    + split.
      * exists [(id, JSON_stringify result)]. now split.
      * intros RT [T1 T2].
        split; cbn [succeeded lastFunctionResult history].
        -- rewrite lastSuccessfulResult_snoc. cbn [outcome dispatched].
           now destruct (isResultName name).
        -- intros v. destruct (isResultName name) eqn:R; [|apply T2].
           intros [= <-]. destruct action as [a|].
           ++ apply lookup_own in L.
              exact (RT name a arguments parsedArgs w result w' L R P F).
           ++ discriminate F.
  - intros [= <- <-]. split.
    + exists []. split; [|reflexivity]. cbn. now rewrite app_nil_r.
    + auto.
Qed.

Lemma processToolCalls_steps calls : forall b w b' w',
  processToolCalls calls b w = (inr b', w') ->
  (exists ics,
     toolCallResults b' = toolCallResults b ++ tools ics
     /\ map fst ics = map callId (filter isFunctionCall calls))
  /\ (ResultsTruthy ->
      slotTracks (lastFunctionResult b) (history b) ->
      slotTracks (lastFunctionResult b') (history b')).
Proof.
  induction calls as [|c rest IH]; intros b w b' w'.
  - intros [= <- <-]. split; [|auto].
    exists []. split; [|reflexivity]. cbn. now rewrite app_nil_r.
  - cbn [Orchestrator.processToolCalls]. unfold bind.
    destruct (processToolCall c b w) as [[e|b1] w1] eqn:E1; [discriminate|].
    intros E2.
    destruct (processToolCall_step _ _ _ E1) as ((ics1 & R1 & I1) & T1).
    destruct (IH _ _ _ _ E2) as ((ics2 & R2 & I2) & T2).
    split; [|auto].
    exists (ics1 ++ ics2). split.
    + rewrite R2, R1. unfold tools. now rewrite map_app, app_assoc.
    + rewrite map_app, I1, I2. cbn [filter].
      now destruct (isFunctionCall c).
Qed.

Lemma awaited_app sel c1 : forall expected c2,
  awaited sel expected (c1 ++ c2)
  = match awaited sel expected c1 with
    | Some e => awaited sel e c2
    | None => None
    end.
Proof.
  induction c1 as [|m c1 IH]; intros expected c2; [reflexivity|].
  cbn [app awaited].
  destruct m as [c|c|a|id c]; destruct expected as [|i ids];
    try reflexivity; try apply IH.
  destruct (String.eqb i id); [apply IH | reflexivity].
Qed.

Lemma awaited_tools sel ics :
  awaited sel (map fst ics) (tools ics) = Some [].
Proof.
  induction ics as [|[i c] r IH]; [reflexivity|].
  cbn [map fst snd tools awaited]. now rewrite String.eqb_refl.
Qed.

Lemma pending_calls message m calls :
  pending message = Some (m, calls) ->
  message = Some m /\ tool_calls m = Some calls /\ calls <> [].
Proof.
  unfold pending. destruct message as [x|]; [|discriminate].
  destruct (tool_calls x) as [[|c cs]|] eqn:T; try discriminate.
  intros [= <- <-]. repeat split; [exact T | discriminate].
Qed.

Lemma turn_request st m calls w st' message' w' :
  turn st m calls w = (inr (st', message'), w') ->
  create (messages st') = inr message'.
Proof.
  unfold Orchestrator.turn, bind, lift.
  destruct (processToolCalls calls _ w) as [[e|b] w1]; [discriminate|].
  destruct (create _) as [e|msg] eqn:C; [discriminate|].
  now intros [= <- <- <-].
Qed.

Lemma turn_keeps st message m calls w st' message' w' :
  pending message = Some (m, calls) ->
  Invariant st ->
  turn st m calls w = (inr (st', message'), w') ->
  Invariant st' /\ create (messages st') = inr message'.
Proof.
  intros Hp [A S]. apply pending_calls in Hp. destruct Hp as (_ & Tc & _).
  unfold Orchestrator.turn, bind, lift.
  destruct (processToolCalls calls _ w) as [[e|b] w1] eqn:E; [discriminate|].
  destruct (create _) as [e|msg] eqn:C; [discriminate|].
  intros [= <- <- <-]. unfold Invariant.
  cbn [messages lastResult dispatches].
  destruct (processToolCalls_steps _ _ _ E) as ((ics & R & I) & T).
  cbn [toolCallResults lastFunctionResult history app] in R, T.
  split; [split|exact C].
  - unfold answered in *. rewrite R, !awaited_app.
    destruct (awaited isFunctionCall [] (messages st)) as [[|i ids]|];
      try discriminate.
    cbn [awaited]. unfold requested. rewrite Tc, <- I, awaited_tools.
    reflexivity.
  - auto.
Qed.

Lemma after_keeps n : forall st message w st' message' w',
  Invariant st ->
  after n st message w = (inr (st', message'), w') ->
  Invariant st'.
Proof.
  induction n as [|n IH]; intros st message w st' message' w' Inv.
  - now intros [= <- <- <-].
  - cbn [Orchestrator.after].
    destruct (pending message) as [[m calls]|] eqn:Hp.
    + unfold bind.
      destruct (turn st m calls w) as [[e|[st1 m1]] w1] eqn:E; [discriminate|].
      cbn [fst snd]. apply IH.
      exact (proj1 (turn_keeps _ _ Hp Inv E)).
    + now intros [= <- <- <-].
Qed.

(** The loop, given enough turns, ends where [after] says. *)
Lemma loop_after n : forall fuel st message w st' message' w',
  after n st message w = (inr (st', message'), w') ->
  pending message' = None ->
  n <= fuel ->
  loop fuel st message w = Some (conclude st', w').
Proof.
  induction n as [|n IH]; intros fuel st message w st' message' w'.
  - intros [= <- <- <-] Hp _. destruct fuel; cbn; now rewrite Hp.
  - cbn [Orchestrator.after].
    destruct (pending message) as [[m calls]|] eqn:Hp.
    + unfold bind. intros E Hp' Hf. destruct fuel as [|fuel]; [lia|].
      cbn [Orchestrator.loop]. rewrite Hp.
      destruct (turn st m calls w) as [[e|[st1 m1]] w1]; [discriminate|].
      cbn [fst snd] in E. apply (IH fuel _ _ _ _ _ _ E Hp'). lia.
    + intros [= <- <- <-] _ _. destruct fuel; cbn; now rewrite Hp.
Qed.

(** The task, given enough turns, ends where [progress] says. *)
Lemma completeTask_progress n fuel task w st message w' :
  progress actions create JSON_stringify SYSTEM_PROMPT prompt n task w
  = (inr (st, message), w') ->
  pending message = None ->
  n <= fuel ->
  completeTask actions create JSON_stringify SYSTEM_PROMPT prompt fuel task w
  = Some (conclude st, w').
Proof.
  unfold progress, Orchestrator.completeTask, bind, lift.
  destruct (create _) as [e|first]; [discriminate|].
  intros E Hp Hf. eapply loop_after; eassumption.
Qed.

Lemma initial_invariant task : Invariant (initial SYSTEM_PROMPT prompt task).
Proof.
  split; [reflexivity|]. intros _. split; [reflexivity | discriminate].
Qed.

Lemma progress_invariant n task w st message w' :
  progress actions create JSON_stringify SYSTEM_PROMPT prompt n task w
  = (inr (st, message), w') ->
  Invariant st.
Proof.
  unfold progress, bind, lift.
  destruct (create _) as [e|first]; [discriminate|].
  intros E. eapply after_keeps; [apply initial_invariant | exact E].
Qed.

(** Every message at the head of the loop is the answer of the model to
    the conversation so far. *)
Lemma progress_request n : forall task w st message w',
  progress actions create JSON_stringify SYSTEM_PROMPT prompt n task w
  = (inr (st, message), w') ->
  create (messages st) = inr message.
Proof.
  unfold progress, bind, lift. intros task w st message w'.
  destruct (create _) as [e|first] eqn:C; [discriminate|].
  assert (G : forall n st0 m0 w0,
             create (messages st0) = inr m0 ->
             after n st0 m0 w0 = (inr (st, message), w') ->
             create (messages st) = inr message).
  { clear. induction n as [|k IH]; intros st0 m0 w0 C0.
    - now intros [= <- <- <-].
    - cbn [Orchestrator.after].
      destruct (pending m0) as [[m calls]|] eqn:Hp.
      + unfold bind.
        destruct (turn st0 m calls w0) as [[e|[st1 m1]] w1] eqn:E;
          [discriminate|].
        cbn [fst snd]. apply IH. exact (turn_request _ _ _ _ E).
      + now intros [= <- <- <-]. }
  exact (G n _ _ _ C).
Qed.

Lemma lookup_inherited name :
  lookup actions name = Some (@Inherited Page) -> assoc name actions = None.
Proof.
  unfold lookup. destruct (assoc name actions); [discriminate|reflexivity].
Qed.

(** The loop over the tool calls of a message leaves the slot and the
    world that the actions of the registry leave when they are called one
    after the other. *)
Lemma processToolCall_replay toolCall b w b' w' :
  processToolCall toolCall b w = (inr b', w') ->
  forall rest,
    lastResultOf actions (toolCall :: rest) (lastFunctionResult b) w
    = lastResultOf actions rest (lastFunctionResult b') w'.
Proof.
  destruct toolCall as [id name arguments|id].
  - pose proof (processToolCall_cases id name arguments b w) as D.
    intros E rest. rewrite E in D. clear E. cbn [lastResultOf].
    inversion D as [ | action error L P | action parsedArgs error w1 L P F
                   | action parsedArgs result w1 L P F ]; subst;
      destruct action as [a|];
      try (apply lookup_own in L; rewrite L; cbn [parseOf functionOf] in *);
      try (apply lookup_inherited in L; rewrite L);
      try discriminate P.
    + now rewrite P.
    + reflexivity.
    + now rewrite P, F.
    + now rewrite P, F.
  - intros [= <- <-] rest. reflexivity.
Qed.

Lemma processToolCalls_replay calls : forall b w b' w',
  processToolCalls calls b w = (inr b', w') ->
  forall rest,
    lastResultOf actions (calls ++ rest) (lastFunctionResult b) w
    = lastResultOf actions rest (lastFunctionResult b') w'.
Proof.
  induction calls as [|c r IH]; intros b w b' w'.
  - now intros [= <- <-].
  - cbn [Orchestrator.processToolCalls]. unfold bind.
    destruct (processToolCall c b w) as [[e|b1] w1] eqn:E1; [discriminate|].
    intros E2 rest. cbn [app].
    rewrite (processToolCall_replay _ _ _ E1). exact (IH _ _ _ _ E2 rest).
Qed.

Lemma lastResultOf_app calls : forall rest last w,
  lastResultOf actions (calls ++ rest) last w
  = lastResultOf actions rest (fst (lastResultOf actions calls last w))
      (snd (lastResultOf actions calls last w)).
Proof.
  induction calls as [|c r IH]; intros rest last w; [reflexivity|].
  cbn [app lastResultOf]. destruct c as [id name arguments|id]; [|apply IH].
  destruct (assoc name actions) as [a|]; [|apply IH].
  destruct (parse a arguments) as [e|parsedArgs]; [apply IH|].
  destruct (function a parsedArgs w) as [[e|result] w1]; apply IH.
Qed.

Lemma requestedCalls_tools ics : requestedCalls (tools ics) = [].
Proof. induction ics as [|ic r IH]; [reflexivity | exact IH]. Qed.

(** At the head of the loop, the slot and the world are what the calls
    of the conversation leave from the world the task started in. *)
Lemma turn_replays w0 st message m calls w st' message' w' :
  pending message = Some (m, calls) ->
  lastResultOf actions (requestedCalls (messages st)) None w0
  = (lastResult st, w) ->
  turn st m calls w = (inr (st', message'), w') ->
  lastResultOf actions (requestedCalls (messages st')) None w0
  = (lastResult st', w').
Proof.
  intros Hp R. apply pending_calls in Hp. destruct Hp as (_ & Tc & _).
  unfold Orchestrator.turn, bind, lift.
  destruct (processToolCalls calls _ w) as [[e|b] w1] eqn:E; [discriminate|].
  destruct (create _) as [e|msg]; [discriminate|].
  intros [= <- <- <-]. cbn [messages lastResult].
  destruct (processToolCalls_steps _ _ _ E) as ((ics & T & _) & _).
  cbn [toolCallResults app] in T. rewrite T.
  unfold requestedCalls at 1. rewrite !flat_map_app.
  fold (requestedCalls (messages st)). fold (requestedCalls (tools ics)).
  rewrite requestedCalls_tools. cbn [flat_map]. rewrite Tc, !app_nil_r.
  rewrite lastResultOf_app, R. cbn [fst snd].
  pose proof (processToolCalls_replay _ _ _ E []) as G.
  rewrite app_nil_r in G. exact G.
Qed.

Lemma after_replays w0 n : forall st message w st' message' w',
  lastResultOf actions (requestedCalls (messages st)) None w0
  = (lastResult st, w) ->
  after n st message w = (inr (st', message'), w') ->
  lastResultOf actions (requestedCalls (messages st')) None w0
  = (lastResult st', w').
Proof.
  induction n as [|n IH]; intros st message w st' message' w' R.
  - now intros [= <- <- <-].
  - cbn [Orchestrator.after].
    destruct (pending message) as [[m calls]|] eqn:Hp.
    + unfold bind.
      destruct (turn st m calls w) as [[e|[st1 m1]] w1] eqn:E; [discriminate|].
      cbn [fst snd]. apply IH. eapply turn_replays; eassumption.
    + now intros [= <- <- <-].
Qed.

Lemma progress_replays n task w st message w' :
  progress actions create JSON_stringify SYSTEM_PROMPT prompt n task w
  = (inr (st, message), w') ->
  lastResultOf actions (requestedCalls (messages st)) None w
  = (lastResult st, w').
Proof.
  unfold progress, bind, lift.
  destruct (create _) as [e|first]; [discriminate|].
  intros E. eapply after_replays; [|exact E]. reflexivity.
Qed.

End Facts.

(** The result-class actions of [createActions] return objects. *)
Lemma z_object_object shape v args :
  z_object shape v = inr args -> truthy args = true.
Proof.
  unfold z_object. destruct v; try discriminate.
  destruct (wellTyped shape _); [|discriminate]. now intros [= <-].
Qed.

Lemma parseWith_object JSON_parse shape raw args :
  parseWith JSON_parse (z_object shape) raw = inr args -> truthy args = true.
Proof.
  unfold parseWith. destruct (JSON_parse raw); [discriminate|].
  apply z_object_object.
Qed.

Ltac next_property name :=
  match goal with
  | A : (if String.eqb name ?k then _ else _) = Some _ |- _ =>
      destruct (String.eqb_spec name k) as [->|_]
  end.

Lemma createActions_results_truthy (Page : Type)
    (drive : forall T, Call T -> Page -> (JsError + T) * Page)
    (uuid : nat -> string) (JSON_parse : string -> JsError + json)
    (options : SanitizeOptions) :
  ResultsTruthy (createActions drive uuid JSON_parse options).
Proof.
  intros name action raw args w v w' A R P F.
  unfold createActions, tool in A. cbn [assoc] in A.
  repeat (next_property name; [try discriminate R|]);
    try discriminate A;
    injection A as <-; cbn [function parse] in *.
  - injection F as <- _. exact (parseWith_object _ _ _ P).
  - injection F as <- _. exact (parseWith_object _ _ _ P).
  - now injection F as <- _.
  - now injection F as <- _.
Qed.

Lemma result_class_names (Page : Type)
    (drive : forall T, Call T -> Page -> (JsError + T) * Page)
    (uuid : nat -> string) (JSON_parse : string -> JsError + json)
    (options : SanitizeOptions) (name : string) :
  In name (map fst (createActions drive uuid JSON_parse options)) ->
  (isResultName name = true <-> In name resultClass).
Proof.
  unfold createActions, tool. cbn [map fst In]. unfold resultClass.
  intros H.
  repeat (destruct H as [<-|H];
          [cbv; split; intros K;
           try discriminate K; try tauto;
           repeat (destruct K as [K|K]; try discriminate K); tauto|]).
  contradiction.
Qed.

(** C1: when the model's turn carries no tool calls, [completeTask]
    returns the value that the most recent successful call of a
    result-class action returned, among the calls that the assistant
    messages of the whole conversation request: the value of [function]
    of the action under the name of the call, on what its [parse] made of
    the arguments of the call, in the world that the calls before it
    left. It throws when no such call returned. The conversation is the
    one the model answered without tool calls; the result-class actions
    are those whose name starts with [result]: resultAssertion,
    resultQuery, resultAction and resultError. *)
Theorem last_result_returned (Page : Type)
    (drive : forall T, Call T -> Page -> (JsError + T) * Page)
    (uuid : nat -> string) (JSON_parse : string -> JsError + json)
    (options : SanitizeOptions)
    (create : list Message -> JsError + option AssistantMessage)
    (JSON_stringify : json -> string) (SYSTEM_PROMPT : string)
    (prompt : string -> string)
    (n fuel : nat) (task : string) (w w' : World Page)
    (st : Orchestrator.Loop) (message : option AssistantMessage) :
  progress (createActions drive uuid JSON_parse options) create
    JSON_stringify SYSTEM_PROMPT prompt n task w
  = (inr (st, message), w') ->
  pending message = None ->
  n <= fuel ->
  create (messages st) = inr message
  /\ completeTask (createActions drive uuid JSON_parse options) create
       JSON_stringify SYSTEM_PROMPT prompt fuel task w
     = Some
         (match
            fst (lastResultOf (createActions drive uuid JSON_parse options)
                   (requestedCalls (messages st)) None w)
          with
          | Some v => inr v
          | None =>
              inl (Error
                "Expected to have a result from one of the result functions")
          end,
          snd (lastResultOf (createActions drive uuid JSON_parse options)
                 (requestedCalls (messages st)) None w))
  /\ forall name,
       In name (map fst (createActions drive uuid JSON_parse options)) ->
       (isResultName name = true <-> In name resultClass).
Proof.
  intros E Hp Hf.
  split; [eapply progress_request; exact E|].
  split; [|apply result_class_names].
  erewrite completeTask_progress by eassumption.
  erewrite progress_replays by exact E. cbn [fst snd].
  pose proof E as Inv. apply progress_invariant in Inv.
  destruct Inv as [_ T].
  destruct (T (createActions_results_truthy drive uuid JSON_parse options))
    as [T1 T2].
  unfold conclude.
  destruct (lastResult st) as [v|]; [|reflexivity].
  now rewrite (T2 v eq_refl).
Qed.

(** C2, as stated, does not hold: a requested call whose type is not
    ["function"] is skipped by the loop and gets no tool result, and the
    next request goes out all the same. *)
Lemma some_requested_call_unanswered :
  ~ (forall (Page : Type) (actions : list (string * ActionTool Page))
       (create : list Message -> JsError + option AssistantMessage)
       (JSON_stringify : json -> string) (SYSTEM_PROMPT : string)
       (prompt : string -> string) (n : nat) (task : string)
       (w w' : World Page) (st : Orchestrator.Loop)
       (message : option AssistantMessage),
       progress actions create JSON_stringify SYSTEM_PROMPT prompt n task w
       = (inr (st, message), w') ->
       answered everyCall (messages st) = true).
Proof.
  intros H.
  pose proof
    (H Sample.SamplePage Sample.sampleActions
       (Sample.script
          [(2, [FunctionToolCall "c1" "resultAction" "{}";
                OtherToolCall "c2"])])
       Sample.sampleStringify "system" (fun t => t) 1 "task"
       (Sample.start []) _ _ _ eq_refl) as K.
  discriminate K.
Qed.

(** C2, amended: in every conversation sent to the model, each assistant
    message that requests tool calls is followed at once by one tool
    result per requested call of type ["function"], in the order of the
    calls, and by no other tool result. *)
Theorem function_calls_answered_in_order (Page : Type)
    (actions : list (string * ActionTool Page))
    (create : list Message -> JsError + option AssistantMessage)
    (JSON_stringify : json -> string) (SYSTEM_PROMPT : string)
    (prompt : string -> string)
    (n : nat) (task : string) (w w' : World Page)
    (st : Orchestrator.Loop) (message : option AssistantMessage) :
  progress actions create JSON_stringify SYSTEM_PROMPT prompt n task w
  = (inr (st, message), w') ->
  create (messages st) = inr message
  /\ answered isFunctionCall (messages st) = true.
Proof.
  intros E. split.
  - eapply progress_request; exact E.
  - apply progress_invariant in E. exact (proj1 E).
Qed.

(** C3: a call to a registered action whose arguments do not parse or
    validate, or whose body throws, does not throw out of the loop: it
    adds the tool result [{ error: message }], the same for both kinds of
    failure, leaves the terminal result alone, and the loop goes on with
    the next call. *)
Theorem failures_become_error_results (Page : Type)
    (actions : list (string * ActionTool Page))
    (JSON_stringify : json -> string)
    (id name arguments : string) (action : ActionTool Page)
    (error : JsError) (b : Batch) (w w' : World Page)
    (rest : list ToolCall) :
  assoc name actions = Some action ->
  (parse action arguments = inl error /\ w' = w)
  \/ (exists parsedArgs,
        parse action arguments = inr parsedArgs
        /\ function action parsedArgs w = (inl error, w')) ->
  exists b',
    processToolCall actions JSON_stringify
      (FunctionToolCall id name arguments) b w = (inr b', w')
    /\ toolCallResults b'
       = toolCallResults b
         ++ [Tool id (JSON_stringify (JObj [("error", JStr (message error))]))]
    /\ lastFunctionResult b' = lastFunctionResult b
    /\ processToolCalls actions JSON_stringify
         (FunctionToolCall id name arguments :: rest) b w
       = processToolCalls actions JSON_stringify rest b' w'.
Proof.
  intros A H. exists (failed JSON_stringify id name error b).
  assert (E : processToolCall actions JSON_stringify
                (FunctionToolCall id name arguments) b w
              = (inr (failed JSON_stringify id name error b), w')).
  { unfold processToolCall, lookup. rewrite A.
    unfold catch, bind, lift. cbn [parseOf functionOf].
    destruct H as [[P ->]|(parsedArgs & P & F)]; rewrite P.
    - reflexivity.
    - now rewrite F. }
  repeat split; try exact E.
  cbn [processToolCalls]. unfold bind. now rewrite E.
Qed.

(** A name that [actions[name]] does not resolve is fatal to the task. *)
Lemma unknown_function_fatal (Page : Type)
    (actions : list (string * ActionTool Page))
    (create : list Message -> JsError + option AssistantMessage)
    (JSON_stringify : json -> string)
    (id name arguments : string) (rest : list ToolCall)
    (m : AssistantMessage) (st : Orchestrator.Loop) (fuel : nat)
    (w : World Page) :
  lookup actions name = None ->
  tool_calls m = Some (FunctionToolCall id name arguments :: rest) ->
  loop actions create JSON_stringify (S fuel) st (Some m) w
  = Some (inl (Error ("Unknown function: " ++ name)%string), w).
Proof.
  intros L T. cbn [loop pending]. rewrite T.
  unfold turn, bind. cbn [processToolCalls]. unfold bind, processToolCall.
  now rewrite L.
Qed.

(** C4, on the code: a function name that is not a property of the
    registry but is one of [Object.prototype] is not fatal. [actions[name]]
    is then defined, the guard passes, the call of its missing [parse]
    throws inside the [try], and the call is answered with an error tool
    result like any failed call. *)
Theorem inherited_name_not_fatal (Page : Type)
    (actions : list (string * ActionTool Page))
    (JSON_stringify : json -> string)
    (id name arguments : string) (b : Batch) (w : World Page) :
  assoc name actions = None ->
  In name objectPrototype ->
  processToolCall actions JSON_stringify
    (FunctionToolCall id name arguments) b w
  = (inr {| lastFunctionResult := lastFunctionResult b;
            toolCallResults :=
              toolCallResults b
              ++ [Tool id
                    (JSON_stringify
                       (JObj [("error",
                               JStr "action.parse is not a function")]))];
            history :=
              history b
              ++ [{| dispatched := name;
                     outcome := inl notAFunction |}] |}, w).
Proof.
  intros A I. unfold processToolCall, lookup. rewrite A.
  assert (includes objectPrototype name = true) as ->.
  { unfold includes. apply existsb_exists. exists name.
    split; [exact I | apply String.eqb_refl]. }
  reflexivity.
Qed.

Lemma last_result_returned_witness :
  exists w',
    completeTask Sample.sampleActions Sample.assertingModel
      Sample.sampleStringify "system" (fun t => t) 2 "task"
      (Sample.start Sample.twoButtons)
    = Some (inr (JObj [("assertion", JBool true)]), w').
Proof.
  eassert (E : progress Sample.sampleActions Sample.assertingModel
                 Sample.sampleStringify "system" (fun t => t) 2 "task"
                 (Sample.start Sample.twoButtons)
               = (inr (_, _), _)) by (vm_compute; reflexivity).
  eexists.
  exact (proj1 (proj2
           (@last_result_returned Sample.SamplePage Sample.sampleDrive
              Sample.sampleUuid Sample.sampleParse Sample.sampleOptions
              Sample.assertingModel Sample.sampleStringify "system"
              (fun t => t) 2 2 "task" _ _ _ _ E eq_refl (le_n 2)))).
Defined.

Lemma function_calls_answered_in_order_witness :
  exists st message w',
    progress Sample.sampleActions Sample.assertingModel
      Sample.sampleStringify "system" (fun t => t) 2 "task"
      (Sample.start Sample.twoButtons)
    = (inr (st, message), w')
    /\ Sample.assertingModel (messages st) = inr message
    /\ answered isFunctionCall (messages st) = true.
Proof.
  eassert (E : progress Sample.sampleActions Sample.assertingModel
                 Sample.sampleStringify "system" (fun t => t) 2 "task"
                 (Sample.start Sample.twoButtons)
               = (inr (_, _), _)) by (vm_compute; reflexivity).
  do 3 eexists. split; [exact E|].
  exact (@function_calls_answered_in_order Sample.SamplePage
           Sample.sampleActions Sample.assertingModel Sample.sampleStringify
           "system" (fun t => t) 2 "task" _ _ _ _ E).
Defined.

Lemma failures_become_error_results_witness :
  exists b',
    processToolCall Sample.sampleActions Sample.sampleStringify
      (FunctionToolCall "c1" "resultAssertion" "{}") Sample.emptyBatch
      (Sample.start [])
    = (inr b', Sample.start [])
    /\ toolCallResults b' = [Tool "c1" "{error:Invalid input}"]
    /\ lastFunctionResult b' = None.
Proof.
  destruct (@failures_become_error_results Sample.SamplePage
              Sample.sampleActions Sample.sampleStringify
              "c1" "resultAssertion" "{}" _ (Error "Invalid input")
              Sample.emptyBatch (Sample.start []) (Sample.start []) []
              eq_refl (or_introl (conj eq_refl eq_refl)))
    as (b' & E & R & L & _).
  exists b'. repeat split; assumption.
Defined.

Lemma inherited_name_not_fatal_witness :
  processToolCall Sample.sampleActions Sample.sampleStringify
    (FunctionToolCall "c1" "toString" "{}") Sample.emptyBatch
    (Sample.start [])
  = (inr {| lastFunctionResult := None;
            toolCallResults :=
              [Tool "c1" "{error:action.parse is not a function}"];
            history :=
              [{| dispatched := "toString";
                  outcome := inl notAFunction |}] |},
     Sample.start [])
  /\ completeTask Sample.sampleActions Sample.confusedModel
       Sample.sampleStringify "system" (fun t => t) 2 "task"
       (Sample.start [])
     = Some (inr (JObj [("success", JBool true)]), Sample.start []).
Proof.
  split; [|reflexivity].
  exact (@inherited_name_not_fatal Sample.SamplePage Sample.sampleActions
           Sample.sampleStringify "c1" "toString" "{}" Sample.emptyBatch
           (Sample.start []) eq_refl
           (or_intror (or_intror (or_intror (or_intror (or_intror
              (or_intror (or_intror (or_intror (or_introl eq_refl)))))))))).
Defined.

End OrchestratorFacts.

(* ------------------------------------------------------------------ *)
(** ** Reading traces *)

Module TraceFacts.

Lemma collect_cons {A B} (f : A -> option B) (a : A) (l : list A) :
  collect f (a :: l)
  = match f a with Some b => b :: collect f l | None => collect f l end.
Proof. unfold collect. cbn [flat_map]. now destruct (f a). Qed.

Lemma collect_app {A B} (f : A -> option B) (l1 l2 : list A) :
  collect f (l1 ++ l2) = (collect f l1 ++ collect f l2)%list.
Proof. unfold collect. apply flat_map_app. Qed.

End TraceFacts.
Import TraceFacts.

(* ------------------------------------------------------------------ *)
(** ** The execution of [locator_selectOption] *)

Module SelectOptionFacts.
Local Open Scope list_scope.

Lemma validated v args :
  locatorSelectOptionSchema v = inr args ->
  (forall x, get "elementId" args = Some x -> exists s, x = JStr s)
  /\ (forall x, get "cssSelector" args = Some x -> exists s, x = JStr s)
  /\ criterionOf args <> None.
Proof.
  unfold locatorSelectOptionSchema, refine, z_object.
  destruct v as [| | | | |fields]; try discriminate.
  destruct (wellTyped selectOptionShape (JObj fields)) eqn:W; [|discriminate].
  destruct (defined "elementId" _ || defined "cssSelector" _); [|discriminate].
  destruct (defined "value" _ || defined "label" _ || defined "index" _)
    eqn:C; [|discriminate].
  intros E.
  assert (A : args = JObj (strip selectOptionShape (JObj fields)))
    by congruence.
  rewrite A. clear E A.
  apply SelectOptionSchema.wellTyped_selectOption in W.
  destruct W as (We & Wc & _).
  split; [|split].
  - intros x. rewrite SelectOptionSchema.get_strip. apply We.
  - intros x. rewrite SelectOptionSchema.get_strip. apply Wc.
  - unfold criterionOf, defined in *.
    destruct (get "value" _); [discriminate|].
    destruct (get "label" _); [discriminate|].
    destruct (get "index" _); [discriminate|discriminate C].
Qed.

Section Run.

Variable Page : Type.
Variable drive : forall T, Call T -> Page -> (JsError + T) * Page.

(** With a locator and options settled, the action is one driver call. *)
Lemma one_call args l c w :
  (if truthyField "elementId" args
   then Some (locator (markerSelector (str "elementId" args)))
   else if truthyField "cssSelector" args
        then Some (locator (str "cssSelector" args))
        else None) = Some l ->
  criterionOf args = Some c ->
  trace (snd (locator_selectOption drive args w))
  = trace w
    ++ [Did (selectOption l c) (fst (drive (selectOption l c) (page w)))].
Proof.
  intros L C. unfold locator_selectOption, bind, ret, throw.
  unfold criterionOf in C.
  destruct (truthyField "elementId" args);
    [|destruct (truthyField "cssSelector" args); [|discriminate L]];
    injection L as <-;
    (destruct (get "value" args);
     [|destruct (get "label" args);
       [|destruct (get "index" args); [|discriminate C]]]);
    injection C as <-; unfold call;
    match goal with
    | |- context [drive ?c (page w)] => destruct (drive c (page w)) as [[e|[]] p]
    end; reflexivity.
Qed.

Lemma no_locator args w :
  truthyField "elementId" args = false ->
  truthyField "cssSelector" args = false ->
  locator_selectOption drive args w
  = (inl (Error "You must provide either an elementId or a cssSelector."), w).
Proof.
  intros E C. unfold locator_selectOption, bind, throw. now rewrite E, C.
Qed.

End Run.

Lemma truthyField_string k args s :
  get k args = Some (JStr s) -> s <> "" -> truthyField k args = true.
Proof.
  intros G N. unfold truthyField. rewrite G. cbn.
  now apply StructureFacts.truthyString_iff.
Qed.

Lemma truthyField_absent k args :
  absentOrEmpty k args -> truthyField k args = false.
Proof. unfold truthyField. now intros [-> | ->]. Qed.

Lemma str_string k args s : get k args = Some (JStr s) -> str k args = s.
Proof. unfold str. now intros ->. Qed.

(** C5, amended: the [locator_selectOption] schema accepts an input if and
    only if the input is an object whose [elementId] and [cssSelector], when
    present, are strings, whose [value] and [label], when present, are a
    string or an array of strings, whose [index], when present, is a number
    or an array of numbers, and which supplies at least one of [elementId]
    and [cssSelector] and at least one of [value], [label] and [index]. An
    input the schema rejects is answered with an error tool result before
    the body runs: the world is left as it was. *)
Theorem select_option_schema_accepts (v : json) :
  (accepts v = true
   <-> (exists fields, v = JObj fields)
       /\ (optionally aString "elementId" v
           /\ optionally aString "cssSelector" v
           /\ optionally (oneOrMore aString) "value" v
           /\ optionally (oneOrMore aString) "label" v
           /\ optionally (oneOrMore aNumber) "index" v)
       /\ 1 <= supplied locatorKeys v
       /\ 1 <= supplied criterionKeys v)
  /\ (accepts v = false ->
      forall (Page : Type)
        (drive : forall T, Call T -> Page -> (JsError + T) * Page)
        (uuid : nat -> string) (JSON_parse : string -> JsError + json)
        (options : SanitizeOptions) (JSON_stringify : json -> string)
        (id arguments : string) (b : Batch) (w : World Page),
        JSON_parse arguments = inr v ->
        exists error,
          locatorSelectOptionSchema v = inl error
          /\ processToolCall (createActions drive uuid JSON_parse options)
               JSON_stringify
               (FunctionToolCall id "locator_selectOption" arguments) b w
             = (inr (failed JSON_stringify id "locator_selectOption" error b),
                w)).
Proof.
  split; [apply SelectOptionSchema.accepts_iff|].
  unfold accepts.
  destruct (locatorSelectOptionSchema v) as [error|] eqn:E; [|discriminate].
  intros _ Page drive uuid JSON_parse options JSON_stringify id arguments b w P.
  exists error. split; [reflexivity|].
  unfold processToolCall, lookup.
  change (assoc "locator_selectOption"
            (createActions drive uuid JSON_parse options))
    with (Some {| function := locator_selectOption drive;
                  name := "locator_selectOption";
                  parse := parseWith JSON_parse locatorSelectOptionSchema |}).
  unfold catch, bind, lift. cbn [parseOf parse]. unfold parseWith.
  now rewrite P, E.
Qed.

Lemma select_option_schema_accepts_witness :
  accepts (JObj [("elementId", JNum 7)]) = false
  /\ exists error,
       locatorSelectOptionSchema (JObj [("elementId", JNum 7)]) = inl error
       /\ processToolCall Sample.sampleActions Sample.sampleStringify
            (FunctionToolCall "c1" "locator_selectOption" "{elementId:7}")
            Sample.emptyBatch (Sample.start Sample.twoButtons)
          = (inr (failed Sample.sampleStringify "c1" "locator_selectOption"
                    error Sample.emptyBatch),
             Sample.start Sample.twoButtons).
Proof.
  split; [reflexivity|].
  exact (proj2 (select_option_schema_accepts (JObj [("elementId", JNum 7)]))
           eq_refl Sample.SamplePage Sample.sampleDrive Sample.sampleUuid
           Sample.sampleParse Sample.sampleOptions Sample.sampleStringify
           "c1" "{elementId:7}" Sample.emptyBatch
           (Sample.start Sample.twoButtons) eq_refl).
Defined.

(** C10, as stated, does not hold for an empty [elementId]: the input
    passes validation and supplies both [elementId] and [cssSelector], yet
    the locator used is the one of [cssSelector]. *)
Lemma empty_element_id_not_preferred :
  ~ (forall (Page : Type)
       (drive : forall T, Call T -> Page -> (JsError + T) * Page)
       (v args : json) (w : World Page) (elementId cssSelector : string),
       locatorSelectOptionSchema v = inr args ->
       get "elementId" args = Some (JStr elementId) ->
       get "cssSelector" args = Some (JStr cssSelector) ->
       exists options,
         collect selectOptionCall
           (trace (snd (locator_selectOption drive args w)))
         = collect selectOptionCall (trace w)
           ++ [(locator (markerSelector elementId), options)]).
Proof.
  intros H.
  destruct (H Sample.SamplePage Sample.sampleDrive
              (JObj [("elementId", JStr ""); ("cssSelector", JStr "#fruits");
                     ("value", JStr "banana")])
              _ (Sample.start []) "" "#fruits" eq_refl eq_refl eq_refl)
    as (options & K).
  discriminate K.
Qed.

(** C10, amended: for every input that passes schema validation, the
    options handed to the driver are those of [value] when it is supplied,
    else those of [label], else those of [index]; when [elementId] is a
    non-empty string the marker locator of [elementId] is used, whatever
    [cssSelector] is, and exactly one [selectOption] call is made; when
    [elementId] is absent or empty and [cssSelector] is a non-empty
    string, the locator of [cssSelector] is used, in exactly one call; and
    when both are absent or empty the body throws and calls nothing. *)
Theorem select_option_precedence (Page : Type)
    (drive : forall T, Call T -> Page -> (JsError + T) * Page)
    (v args : json) (w : World Page) :
  locatorSelectOptionSchema v = inr args ->
  exists criterion,
    ((forall x, get "value" args = Some x -> criterion = x)
     /\ (forall x, get "value" args = None -> get "label" args = Some x ->
                   criterion = keyed "label" x)
     /\ (forall x, get "value" args = None -> get "label" args = None ->
                   get "index" args = Some x -> criterion = keyed "index" x))
    /\ (forall elementId,
          get "elementId" args = Some (JStr elementId) -> elementId <> "" ->
          collect selectOptionCall
            (trace (snd (locator_selectOption drive args w)))
          = collect selectOptionCall (trace w)
            ++ [(locator (markerSelector elementId), criterion)])
    /\ (forall cssSelector,
          absentOrEmpty "elementId" args ->
          get "cssSelector" args = Some (JStr cssSelector) ->
          cssSelector <> "" ->
          collect selectOptionCall
            (trace (snd (locator_selectOption drive args w)))
          = collect selectOptionCall (trace w)
            ++ [(locator cssSelector, criterion)])
    /\ (absentOrEmpty "elementId" args ->
        absentOrEmpty "cssSelector" args ->
        locator_selectOption drive args w
        = (inl (Error
                  "You must provide either an elementId or a cssSelector."),
           w)).
Proof.
  intros V. destruct (@validated v args V) as (_ & _ & C).
  destruct (criterionOf args) as [criterion|] eqn:Cr; [clear C|congruence].
  exists criterion. split; [|split; [|split]].
  - unfold criterionOf in Cr. repeat split; intros x.
    + intros G. rewrite G in Cr. congruence.
    + intros G1 G2. rewrite G1, G2 in Cr. congruence.
    + intros G1 G2 G3. rewrite G1, G2, G3 in Cr. congruence.
  - intros elementId G N.
    rewrite (@one_call Page drive args (locator (markerSelector elementId))
               criterion w).
    + now rewrite collect_app.
    + rewrite (@truthyField_string "elementId" args elementId G N).
      now rewrite (@str_string "elementId" args elementId G).
    + exact Cr.
  - intros cssSelector A G N.
    rewrite (@one_call Page drive args (locator cssSelector) criterion w).
    + now rewrite collect_app.
    + rewrite (@truthyField_absent "elementId" args A).
      rewrite (@truthyField_string "cssSelector" args cssSelector G N).
      now rewrite (@str_string "cssSelector" args cssSelector G).
    + exact Cr.
  - intros A1 A2. apply no_locator; now apply truthyField_absent.
Qed.

Lemma select_option_precedence_witness :
  exists criterion,
    criterion = JStr "banana"
    /\ collect selectOptionCall
         (trace (snd (locator_selectOption Sample.sampleDrive
                        (JObj [("elementId", JStr "e1");
                               ("cssSelector", JStr "#fruits");
                               ("value", JStr "banana");
                               ("label", JStr "Banana")])
                        (Sample.start []))))
       = [(locator (markerSelector "e1"), criterion)].
Proof.
  destruct (@select_option_precedence Sample.SamplePage Sample.sampleDrive
              (JObj [("label", JStr "Banana"); ("value", JStr "banana");
                     ("cssSelector", JStr "#fruits");
                     ("elementId", JStr "e1"); ("extra", JNull)])
              (JObj [("elementId", JStr "e1");
                     ("cssSelector", JStr "#fruits");
                     ("value", JStr "banana");
                     ("label", JStr "Banana")])
              (Sample.start []) eq_refl)
    as (criterion & (Cv & _) & Ce & _).
  exists criterion. split.
  - exact (Cv (JStr "banana") eq_refl).
  - exact (Ce "e1" eq_refl ltac:(discriminate)).
Defined.

End SelectOptionFacts.

(* ------------------------------------------------------------------ *)
(** ** The locating actions *)

Module LocateFacts.
Local Open Scope list_scope.

Section Locate.

Variable Page : Type.
Variable drive : forall T, Call T -> Page -> (JsError + T) * Page.
Variable uuid : nat -> string.

Local Abbreviation markEach := (markEach drive uuid).
Local Abbreviation markVisible := (markVisible drive uuid).

Lemma draws_cons k n : draws uuid k (S n) = uuid k :: draws uuid (S k) n.
Proof. reflexivity. Qed.

Lemma draws_length k n : List.length (draws uuid k n) = n.
Proof. unfold draws. now rewrite length_map, length_seq. Qed.

(** Identifiers drawn from a generator that never repeats are distinct
    from each other and from those drawn before. *)
Lemma draws_fresh k n :
  (forall i j, uuid i = uuid j -> i = j) ->
  NoDup (draws uuid k n)
  /\ forall i, i < k -> ~ In (uuid i) (draws uuid k n).
Proof.
  intros Inj. unfold draws. split.
  - apply NoDup_map_NoDup_ForallPairs; [|apply seq_NoDup].
    intros i j _ _. apply Inj.
  - intros i Hi Hin. apply in_map_iff in Hin.
    destruct Hin as (j & E & Hj). apply Inj in E. apply in_seq in Hj. lia.
Qed.

(** The loop of the role action: one marking call per locator, each with
    the next identifier. *)
Lemma markEach_spec locators : forall ids w r w',
  markEach locators ids w = (r, w') ->
  exists new,
    trace w' = trace w ++ new
    /\ match r with
       | inr out =>
           out = ids ++ draws uuid (drawn w) (List.length locators)
           /\ collect markCall new
              = combine locators (draws uuid (drawn w) (List.length locators))
       | inl e => In e (collect thrown new)
       end.
Proof.
  induction locators as [|l rest IH]; intros ids w r w'.
  - intros [= <- <-]. exists []. cbn. now rewrite !app_nil_r.
  - cbn [Registry.markEach]. unfold bind, randomUUID, call.
    cbn [page drawn trace].
    destruct (drive (setAttribute l marker (uuid (drawn w))) (page w))
      as [[e|[]] p] eqn:D.
    + intros [= <- <-].
      exists [Did (setAttribute l marker (uuid (drawn w))) (inl e)].
      cbn. auto.
    + intros E. destruct (IH _ _ _ _ E) as (new & T & R).
      cbn [page drawn trace] in T, R.
      exists (Did (setAttribute l marker (uuid (drawn w))) (inr tt) :: new).
      split.
      * rewrite T, <- app_assoc. reflexivity.
      * destruct r as [e|out].
        -- cbn. exact R.
        -- destruct R as [-> R]. cbn [List.length]. rewrite draws_cons.
           split; [now rewrite <- app_assoc|].
           rewrite collect_cons. cbn [markCall]. unfold marker.
           rewrite String.eqb_refl. cbn [combine]. now rewrite R.
Qed.

(** The loop of the text action: every locator is asked its visibility,
    and those found visible are marked, each with the next identifier. *)
Lemma markVisible_spec locators : forall ids w r w',
  markVisible locators ids w = (r, w') ->
  exists new,
    trace w' = trace w ++ new
    /\ match r with
       | inr out =>
           collect visibilityCall new = locators
           /\ out = ids ++ draws uuid (drawn w)
                             (List.length (collect foundVisible new))
           /\ collect markCall new
              = combine (collect foundVisible new)
                  (draws uuid (drawn w)
                     (List.length (collect foundVisible new)))
       | inl e => In e (collect thrown new)
       end.
Proof.
  induction locators as [|l rest IH]; intros ids w r w'.
  - intros [= <- <-]. exists []. cbn. now rewrite !app_nil_r.
  - cbn [Registry.markVisible]. unfold bind at 1. unfold call at 1.
    destruct (drive (isVisible l) (page w)) as [[e|[|]] p] eqn:V.
    + intros [= <- <-]. exists [Did (isVisible l) (inl e)]. cbn. auto.
    + unfold bind, randomUUID, call. cbn [page drawn trace].
      destruct (drive (setAttribute l marker (uuid (drawn w))) p)
        as [[e|[]] p'] eqn:D.
      * intros [= <- <-].
        exists [Did (isVisible l) (inr true);
                Did (setAttribute l marker (uuid (drawn w))) (inl e)].
        cbn. rewrite <- app_assoc. auto.
      * intros E. destruct (IH _ _ _ _ E) as (new & T & R).
        cbn [page drawn trace] in T, R.
        exists (Did (isVisible l) (inr true)
                :: Did (setAttribute l marker (uuid (drawn w))) (inr tt)
                :: new).
        split.
        -- rewrite T, <- !app_assoc. reflexivity.
        -- destruct r as [e|out].
           ++ cbn. exact R.
           ++ destruct R as (Rv & -> & Rm).
              rewrite !collect_cons. cbn [visibilityCall foundVisible markCall].
              unfold marker. rewrite String.eqb_refl.
              cbn [List.length combine]. rewrite Rv, Rm, draws_cons.
              repeat split. now rewrite <- app_assoc.
    + intros E. destruct (IH _ _ _ _ E) as (new & T & R).
      cbn [page drawn trace] in T, R.
      exists (Did (isVisible l) (inr false) :: new). split.
      * rewrite T, <- app_assoc. reflexivity.
      * destruct r as [e|out].
        -- cbn. exact R.
        -- destruct R as (Rv & -> & Rm).
           rewrite !collect_cons. cbn [visibilityCall foundVisible markCall].
           now rewrite Rv, Rm.
Qed.

Lemma all_run q w :
  all drive q w
  = (match fst (drive (count q) (page w)) with
     | inr n => inr (map (nth q) (seq 0 n))
     | inl e => inl e
     end,
     {| page := snd (drive (count q) (page w));
        drawn := drawn w;
        trace := trace w ++ [Did (count q) (fst (drive (count q) (page w)))] |}).
Proof.
  unfold all, bind, call, ret.
  now destruct (drive (count q) (page w)) as [[e|n] p].
Qed.

Lemma locateElementsByRole_spec args w n r w' :
  fst (drive (count (getByRole (str "role" args) (exactOf args))) (page w))
  = inr n ->
  locateElementsByRole drive uuid args w = (r, w') ->
  exists new,
    trace w'
    = trace w
      ++ Did (count (getByRole (str "role" args) (exactOf args))) (inr n)
         :: new
    /\ (n = 0 -> r = inr (located []))
    /\ match r with
       | inr v =>
           v = JObj [("elementIds",
                      JArr (map JStr (draws uuid (drawn w) n)));
                     ("count", JNum (Z.of_nat n))]
           /\ collect markCall new
              = combine
                  (map (nth (getByRole (str "role" args) (exactOf args)))
                     (seq 0 n))
                  (draws uuid (drawn w) n)
       | inl e => In e (collect thrown new)
       end.
Proof.
  intros C. unfold locateElementsByRole. unfold bind at 1.
  rewrite all_run, C.
  unfold bind, ret.
  destruct (markEach _ [] _) as [[e|ids] w1] eqn:E;
    intros [= <- <-];
    destruct (markEach_spec _ _ _ E) as (new & T & R);
    cbn [trace drawn] in T, R; exists new;
    (split; [rewrite T, <- app_assoc; reflexivity|]).
  - split; [|exact R]. intros ->. discriminate E.
  - destruct R as [-> R]. rewrite length_map, length_seq in R |- *.
    cbn [app]. split; [intros ->; reflexivity|]. split; [|exact R].
    unfold idsResult. now rewrite draws_length.
Qed.

Lemma locateElementsWithText_spec args w n r w' :
  fst (drive (count (getByText (str "text" args) (exactOf args))) (page w))
  = inr n ->
  locateElementsWithText drive uuid args w = (r, w') ->
  exists new,
    trace w'
    = trace w
      ++ Did (count (getByText (str "text" args) (exactOf args))) (inr n)
         :: new
    /\ (n = 0 -> r = inr (located []))
    /\ match r with
       | inr v =>
           collect visibilityCall new
           = map (nth (getByText (str "text" args) (exactOf args))) (seq 0 n)
           /\ v = JObj [("elementIds",
                         JArr (map JStr
                                 (draws uuid (drawn w)
                                    (List.length (collect foundVisible new)))));
                        ("count",
                         JNum (Z.of_nat
                                 (List.length (collect foundVisible new))))]
           /\ collect markCall new
              = combine (collect foundVisible new)
                  (draws uuid (drawn w)
                     (List.length (collect foundVisible new)))
       | inl e => In e (collect thrown new)
       end.
Proof.
  intros C. unfold locateElementsWithText. unfold bind at 1.
  rewrite all_run, C.
  unfold bind, ret.
  destruct (markVisible _ [] _) as [[e|ids] w1] eqn:E;
    intros [= <- <-];
    destruct (markVisible_spec _ _ _ E) as (new & T & R);
    cbn [trace drawn] in T, R; exists new;
    (split; [rewrite T, <- app_assoc; reflexivity|]).
  - split; [|exact R]. intros ->. discriminate E.
  - destruct R as (Rv & -> & Rm). cbn [app].
    split; [intros ->; cbn in E; now injection E as <- _|].
    repeat split; try assumption.
    unfold idsResult. now rewrite draws_length.
Qed.

Lemma locateElement_run args w :
  locateElement drive uuid args w
  = (match
       fst (drive (setAttribute (first (locator (str "cssSelector" args)))
                     marker (uuid (drawn w))) (page w))
     with
     | inr _ => inr (JObj [("elementId", JStr (uuid (drawn w)))])
     | inl e => inl e
     end,
     {| page :=
          snd (drive (setAttribute (first (locator (str "cssSelector" args)))
                        marker (uuid (drawn w))) (page w));
        drawn := S (drawn w);
        trace :=
          trace w
          ++ [Did (setAttribute (first (locator (str "cssSelector" args)))
                     marker (uuid (drawn w)))
                (fst (drive
                        (setAttribute
                           (first (locator (str "cssSelector" args)))
                           marker (uuid (drawn w))) (page w)))] |}).
Proof.
  unfold locateElement, bind, randomUUID, call, ret. cbn [page drawn trace].
  now destruct (drive _ (page w)) as [[e|[]] p].
Qed.

(** C6, amended: the locate-by-role and locate-by-text actions stamp every
    match (for the text search, every match the driver finds visible) with
    an identifier drawn for it, and return the list of these identifiers
    with their count, unless a driver call throws; with no match they
    return the empty list and do not throw. The identifiers are the next
    draws of the generator, distinct from each other and from all earlier
    draws when the generator does not repeat. The CSS-selector locate
    draws one identifier, stamps the first match only, and returns that
    identifier under [elementId]. *)
Theorem locating_actions_mark_matches (args : json) (w : World Page) :
  (forall n r w',
     fst (drive (count (getByRole (str "role" args) (exactOf args))) (page w))
     = inr n ->
     locateElementsByRole drive uuid args w = (r, w') ->
     exists new,
       trace w'
       = trace w
         ++ Did (count (getByRole (str "role" args) (exactOf args))) (inr n)
            :: new
       /\ (n = 0 -> r = inr (located []))
       /\ match r with
          | inr v =>
              v = JObj [("elementIds",
                         JArr (map JStr (draws uuid (drawn w) n)));
                        ("count", JNum (Z.of_nat n))]
              /\ collect markCall new
                 = combine
                     (map (nth (getByRole (str "role" args) (exactOf args)))
                        (seq 0 n))
                     (draws uuid (drawn w) n)
          | inl e => In e (collect thrown new)
          end)
  /\ (forall n r w',
        fst (drive (count (getByText (str "text" args) (exactOf args)))
               (page w))
        = inr n ->
        locateElementsWithText drive uuid args w = (r, w') ->
        exists new,
          trace w'
          = trace w
            ++ Did (count (getByText (str "text" args) (exactOf args)))
                 (inr n)
               :: new
          /\ (n = 0 -> r = inr (located []))
          /\ match r with
             | inr v =>
                 collect visibilityCall new
                 = map (nth (getByText (str "text" args) (exactOf args)))
                     (seq 0 n)
                 /\ v = JObj
                          [("elementIds",
                            JArr (map JStr
                                    (draws uuid (drawn w)
                                       (List.length
                                          (collect foundVisible new)))));
                           ("count",
                            JNum (Z.of_nat
                                    (List.length
                                       (collect foundVisible new))))]
                 /\ collect markCall new
                    = combine (collect foundVisible new)
                        (draws uuid (drawn w)
                           (List.length (collect foundVisible new)))
             | inl e => In e (collect thrown new)
             end)
  /\ (forall r w',
        locateElement drive uuid args w = (r, w') ->
        trace w'
        = trace w
          ++ [Did (setAttribute (first (locator (str "cssSelector" args)))
                     marker (uuid (drawn w)))
                (fst (drive
                        (setAttribute
                           (first (locator (str "cssSelector" args)))
                           marker (uuid (drawn w))) (page w)))]
        /\ forall v, r = inr v ->
             v = JObj [("elementId", JStr (uuid (drawn w)))])
  /\ ((forall i j, uuid i = uuid j -> i = j) ->
      forall n,
        NoDup (draws uuid (drawn w) n)
        /\ forall i, i < drawn w -> ~ In (uuid i) (draws uuid (drawn w) n)).
Proof.
  split; [|split; [|split]].
  - intros n r w' C E. eapply locateElementsByRole_spec; eassumption.
  - intros n r w' C E. eapply locateElementsWithText_spec; eassumption.
  - intros r w'. rewrite locateElement_run. intros [= <- <-].
    cbn [trace]. split; [reflexivity|].
    intros v. destruct (fst (drive _ (page w))); congruence.
  - intros Inj n. now apply draws_fresh.
Qed.

End Locate.

(** C6, as stated, does not hold for the CSS-selector locate: it returns
    one identifier under [elementId], not a list with a count, and stamps
    the first match only. *)
Lemma css_locate_returns_one_identifier :
  ~ (forall (Page : Type)
       (drive : forall T, Call T -> Page -> (JsError + T) * Page)
       (uuid : nat -> string) (args : json) (w : World Page) (n : nat),
       fst (drive nat (count (locator (str "cssSelector" args))) (page w))
       = inr n ->
       exists ids,
         List.length ids = n
         /\ fst (locateElement drive uuid args w) = inr (located ids)).
Proof.
  intros H.
  destruct (H Sample.SamplePage Sample.sampleDrive Sample.sampleUuid
              (JObj [("cssSelector", JStr "button")])
              (Sample.start [(true, None); (true, None)]) 2 eq_refl)
    as (ids & _ & K).
  discriminate K.
Qed.

Lemma locating_actions_mark_matches_witness :
  exists r w' new,
    locateElementsWithText Sample.sampleDrive Sample.sampleUuid
      (JObj [("text", JStr "Save")]) (Sample.start Sample.twoButtons)
    = (r, w')
    /\ trace w' = Did (count (getByText "Save" false)) (inr 2) :: new
    /\ r = inr (JObj [("elementIds", JArr [JStr "id-"]);
                      ("count", JNum 1)])
    /\ collect markCall new = [(nth (getByText "Save" false) 0, "id-")]
    /\ page w' = [(true, Some "id-"); (false, None)].
Proof.
  eassert (E : locateElementsWithText Sample.sampleDrive Sample.sampleUuid
                 (JObj [("text", JStr "Save")])
                 (Sample.start Sample.twoButtons) = (_, _))
    by (vm_compute; reflexivity).
  destruct (proj1 (proj2 (@locating_actions_mark_matches Sample.SamplePage
                            Sample.sampleDrive Sample.sampleUuid
                            (JObj [("text", JStr "Save")])
                            (Sample.start Sample.twoButtons)))
              2 _ _ eq_refl E) as (new & T & _ & _ & V & M).
  do 2 eexists. exists new. split; [exact E|].
  split; [exact T|]. split; [|split; [|reflexivity]].
  - apply (f_equal (fun l => match l with _ :: t => t | [] => [] end)) in T.
    cbn in T. subst new. reflexivity.
  - apply (f_equal (fun l => match l with _ :: t => t | [] => [] end)) in T.
    cbn in T. subst new. reflexivity.
Defined.

End LocateFacts.

(* ------------------------------------------------------------------ *)
(** ** More on the visible-structure extraction *)

Module StructureMore.

Lemma includes_In (xs : list string) (x : string) :
  includes xs x = true <-> In x xs.
Proof.
  unfold includes. rewrite existsb_exists. split.
  - intros (y & Hy & E). apply String.eqb_eq in E. now subst.
  - intros H. exists x. split; [exact H | apply String.eqb_refl].
Qed.

Lemma listed_iff (r : option AttributeRule) (name : option string) :
  listed r name = true
  <-> exists names s,
        name = Some s /\ r = Some (allow_names names) /\ In s names.
Proof.
  unfold listed. destruct r as [[|names]|].
  - split; [discriminate | intros (n & s & _ & [=] & _)].
  - destruct name as [s|].
    + rewrite includes_In. split.
      * intros H. now exists names, s.
      * now intros (n & x & [= <-] & [= <-] & H).
    + split; [discriminate | intros (n & s & [=] & _)].
  - split; [discriminate | intros (n & s & _ & [=] & _)].
Qed.

Lemma isTrue_iff (r : option AttributeRule) :
  isTrue r = true <-> r = Some allow_all.
Proof.
  unfold isTrue. destruct r as [[|names]|]; split; congruence.
Qed.

Lemma allowedBy_iff rules tag name :
  allowedBy rules tag name = true
  <-> permits (attributes_object rules) tag name.
Proof.
  unfold allowedBy, permits.
  rewrite !orb_true_iff, !isTrue_iff, !listed_iff. tauto.
Qed.

(** Assignment to a property of [node.attributes]. *)
Lemma update_keys k v o : map fst (update k v o) = map fst o.
Proof.
  induction o as [|[k' v'] r IH]; [reflexivity|]. cbn [update].
  destruct (String.eqb_spec k k') as [->|N]; cbn [map fst]; congruence.
Qed.

Lemma update_In k v o x : In x (update k v o) -> x = (k, v) \/ In x o.
Proof.
  induction o as [|[k' v'] r IH]; [contradiction|]. cbn [update].
  destruct (String.eqb_spec k k') as [->|N]; cbn [In]; intuition.
Qed.

Lemma insertIndex_Permutation n k v o :
  Permutation ((k, v) :: o) (insertIndex n k v o).
Proof.
  induction o as [|[k' v'] r IH]; [reflexivity|]. cbn [insertIndex].
  destruct (arrayIndex k') as [m|]; [|reflexivity].
  destruct (m <? n)%N; [|reflexivity].
  rewrite perm_swap. now constructor.
Qed.

Lemma assignProperty_Permutation k v o :
  String.eqb k "__proto__" = false ->
  existsb (String.eqb k) (map fst o) = false ->
  Permutation ((k, v) :: o) (assignProperty k v o).
Proof.
  intros P E. unfold assignProperty. rewrite P, E.
  destruct (arrayIndex k) as [n|].
  - apply insertIndex_Permutation.
  - apply Permutation_cons_append.
Qed.

Lemma existsb_keys k (ks : list string) :
  existsb (String.eqb k) ks = true <-> In k ks.
Proof. exact (includes_In ks k). Qed.

Lemma assignProperty_In k v o x :
  In x (assignProperty k v o) ->
  (x = (k, v) /\ k <> "__proto__") \/ In x o.
Proof.
  unfold assignProperty.
  destruct (String.eqb_spec k "__proto__") as [->|P]; [tauto|].
  destruct (existsb (String.eqb k) (map fst o)) eqn:E.
  - intros H. apply update_In in H. tauto.
  - intros H.
    assert (Q : Permutation ((k, v) :: o) (assignProperty k v o)).
    { apply assignProperty_Permutation; [|exact E].
      now apply String.eqb_neq. }
    unfold assignProperty in Q.
    rewrite (proj2 (String.eqb_neq _ _) P), E in Q.
    apply (Permutation_in _ (Permutation_sym Q)) in H.
    destruct H as [<-|H]; tauto.
Qed.

Lemma assignProperty_keys k v o k' :
  In k' (map fst (assignProperty k v o))
  <-> (k' = k /\ k <> "__proto__") \/ In k' (map fst o).
Proof.
  unfold assignProperty.
  destruct (String.eqb_spec k "__proto__") as [->|P]; [tauto|].
  destruct (existsb (String.eqb k) (map fst o)) eqn:E.
  - rewrite update_keys. apply existsb_keys in E. split; [tauto|].
    intros [[-> _]|H]; assumption.
  - assert (Q : Permutation ((k, v) :: o) (assignProperty k v o)).
    { apply assignProperty_Permutation; [|exact E].
      now apply String.eqb_neq. }
    unfold assignProperty in Q.
    rewrite (proj2 (String.eqb_neq _ _) P), E in Q.
    apply (Permutation_map fst) in Q. cbn [map fst] in Q. split.
    + intros H. apply (Permutation_in _ (Permutation_sym Q)) in H.
      destruct H as [<-|H]; tauto.
    + intros H. apply (Permutation_in _ Q).
      destruct H as [[-> _]|H]; [now left | now right].
Qed.

Lemma assignProperty_NoDup k v o :
  NoDup (map fst o) -> NoDup (map fst (assignProperty k v o)).
Proof.
  intros N. unfold assignProperty.
  destruct (String.eqb_spec k "__proto__") as [->|P]; [exact N|].
  destruct (existsb (String.eqb k) (map fst o)) eqn:E.
  - now rewrite update_keys.
  - assert (Q : Permutation ((k, v) :: o) (assignProperty k v o)).
    { apply assignProperty_Permutation; [|exact E].
      now apply String.eqb_neq. }
    unfold assignProperty in Q.
    rewrite (proj2 (String.eqb_neq _ _) P), E in Q.
    apply (Permutation_map fst) in Q. cbn [map fst] in Q.
    apply (Permutation_NoDup Q). constructor; [|exact N].
    intros H. apply existsb_keys in H. congruence.
Qed.

Lemma insertIndex_keys n k v o x :
  In x (map fst (insertIndex n k v o)) -> x = k \/ In x (map fst o).
Proof.
  intros H.
  apply (Permutation_in _
           (Permutation_sym
              (Permutation_map fst (insertIndex_Permutation n k v o)))) in H.
  destruct H as [<-|H]; tauto.
Qed.

Lemma insertIndex_order n k v o :
  arrayIndex k = Some n ->
  inKeyOrder (map fst o) -> inKeyOrder (map fst (insertIndex n k v o)).
Proof.
  intros K. induction o as [|[k' v'] r IH]; [cbn; tauto|].
  cbn [map fst inKeyOrder insertIndex]. intros [H1 H2].
  destruct (arrayIndex k') as [m|] eqn:K'.
  - destruct (N.ltb_spec m n) as [L|L].
    + cbn [map fst inKeyOrder]. rewrite K'. split; [|now apply IH].
      intros x Hx. apply insertIndex_keys in Hx. destruct Hx as [->|Hx].
      * rewrite K. lia.
      * exact (H1 x Hx).
    + cbn [map fst inKeyOrder]. rewrite K, K'. split; [|tauto].
      intros x [<-|Hx]; [now rewrite K'|].
      specialize (H1 x Hx). destruct (arrayIndex x); [lia|exact I].
  - cbn [map fst inKeyOrder]. rewrite K, K'. split; [|tauto].
    intros x [<-|Hx]; [now rewrite K'|].
    specialize (H1 x Hx). destruct (arrayIndex x); [contradiction|exact I].
Qed.

Lemma append_order k (keys : list string) :
  arrayIndex k = None -> inKeyOrder keys -> inKeyOrder (keys ++ [k]).
Proof.
  intros K. induction keys as [|x r IH]; [cbn; tauto|].
  cbn [app inKeyOrder]. intros [H1 H2]. split; [|now apply IH].
  intros y Hy. apply in_app_or in Hy. destruct Hy as [Hy|[<-|[]]].
  - exact (H1 y Hy).
  - rewrite K. now destruct (arrayIndex x).
Qed.

Lemma assignProperty_order k v o :
  inKeyOrder (map fst o) -> inKeyOrder (map fst (assignProperty k v o)).
Proof.
  intros H. unfold assignProperty.
  destruct (String.eqb k "__proto__"); [exact H|].
  destruct (existsb (String.eqb k) (map fst o)).
  - now rewrite update_keys.
  - destruct (arrayIndex k) as [n|] eqn:K.
    + now apply insertIndex_order.
    + rewrite map_app. now apply append_order.
Qed.

(** The loops over [element.attributes], from an object [acc]. *)
Lemma copied_spec (cond : option string -> bool)
    (step : list (string * option string) -> option string * option string
            -> list (string * option string)) :
  (forall o a,
     step o a = if cond (fst a)
                then assignProperty (propertyKey (fst a)) (snd a) o
                else o) ->
  forall attrs acc,
    (NoDup (map fst acc) -> NoDup (map fst (fold_left step attrs acc)))
    /\ (~ In "__proto__" (map fst acc) ->
        ~ In "__proto__" (map fst (fold_left step attrs acc)))
    /\ (forall k v, In (k, v) (fold_left step attrs acc) ->
          In (k, v) acc
          \/ exists name,
               In (name, v) attrs /\ propertyKey name = k
               /\ cond name = true)
    /\ (forall k, In k (map fst acc) ->
          In k (map fst (fold_left step attrs acc)))
    /\ (forall name v, In (name, v) attrs -> cond name = true ->
          propertyKey name <> "__proto__" ->
          In (propertyKey name) (map fst (fold_left step attrs acc)))
    /\ (inKeyOrder (map fst acc) ->
        inKeyOrder (map fst (fold_left step attrs acc))).
Proof.
  intros Hs. induction attrs as [|[name value] r IH]; intros acc.
  - cbn [fold_left In]. repeat split; try tauto.
  - cbn [fold_left]. destruct (IH (step acc (name, value)))
      as (I1 & I2 & I3 & I4 & I5 & I6).
    rewrite Hs in *. cbn [fst snd] in *.
    split; [|split; [|split; [|split; [|split]]]];
      [| | | | |intros O; apply I6; destruct (cond name); [|exact O];
                now apply assignProperty_order].
    + intros N. apply I1. destruct (cond name); [|exact N].
      now apply assignProperty_NoDup.
    + intros N. apply I2. destruct (cond name); [|exact N].
      rewrite assignProperty_keys. intros [[E1 E2]|H]; [congruence|tauto].
    + intros k v H. destruct (I3 k v H) as [H1|(n & H1 & H2 & H3)].
      * destruct (cond name) eqn:C; [|now left].
        apply assignProperty_In in H1.
        destruct H1 as [[[= -> ->] _]|H1]; [|now left].
        right. exists name. cbn [In]. tauto.
      * right. exists n. cbn [In]. tauto.
    + intros k H. apply I4. destruct (cond name); [|exact H].
      rewrite assignProperty_keys. tauto.
    + intros n v [[= <- <-]|H] C P.
      * apply I4. rewrite C, assignProperty_keys. tauto.
      * now apply (I5 n v).
Qed.

(** The attributes of an extracted node are the attributes of its
    element that the policy lets through, as an object holds them: no
    key twice, never the key [__proto__], and the keys that are array
    indices first, in ascending order; every property comes from
    an attribute of that name and value which the policy lets through;
    and every attribute that the policy lets through has its name among
    the keys, unless the name is [__proto__]. *)
Theorem copied_attributes_follow_policy
    (tags : list string) (allowed : AllowedAttributes) (limit : nat)
    (style : ComputedStyle) (tagName : Value)
    (attrs : list (option string * option string)) (ident : Value)
    (method : Method) (class : Value) (childNodes : list Node)
    (content : Value) (items : list Node) (depth : nat)
    (node : StructureNode) :
  extractVisibleStructure tags allowed limit
    (ElementObject style tagName attrs ident method class childNodes content
       items) depth = inr (Some node) ->
  NoDup (map fst (attributes node))
  /\ ~ In "__proto__" (map fst (attributes node))
  /\ inKeyOrder (map fst (attributes node))
  /\ (forall k v, In (k, v) (attributes node) ->
        exists name,
          In (name, v) attrs /\ propertyKey name = k
          /\ permits allowed (tag node) name)
  /\ (forall name v, In (name, v) attrs ->
        permits allowed (tag node) name ->
        propertyKey name <> "__proto__" ->
        In (propertyKey name) (map fst (attributes node))).
Proof.
  intros E.
  destruct (StructureFacts.extract_element _ _ _ _ _ _ _ _ _ _ _ _ _ E)
    as (_ & _ & s & f & _ & _ & _ & Ht & Ha & _).
  rewrite Ha, Ht. clear. destruct allowed as [|rules|]; cbn [copyAttributes].
  - destruct (@copied_spec (fun _ => true)
                (fun o attr =>
                   assignProperty (propertyKey (fst attr)) (snd attr) o)
                ltac:(reflexivity) attrs [])
      as (I1 & I2 & I3 & _ & I5 & I6).
    split; [apply I1; constructor|]. split; [apply I2; tauto|].
    split; [apply I6; exact I|]. split.
    + intros k v H. destruct (I3 k v H) as [[]|(n & H1 & H2 & _)].
      exists n. cbn [permits]. tauto.
    + intros n v H _ P. now apply (I5 n v).
  - destruct (@copied_spec (allowedBy rules (toLowerCase s))
                (fun o attr =>
                   if allowedBy rules (toLowerCase s) (fst attr)
                   then assignProperty (propertyKey (fst attr)) (snd attr) o
                   else o)
                ltac:(reflexivity) attrs [])
      as (I1 & I2 & I3 & _ & I5 & I6).
    split; [apply I1; constructor|]. split; [apply I2; tauto|].
    split; [apply I6; exact I|]. split.
    + intros k v H. destruct (I3 k v H) as [[]|(n & H1 & H2 & H3)].
      exists n. rewrite <- allowedBy_iff. tauto.
    + intros n v H C P. apply (I5 n v H); [|exact P].
      now apply allowedBy_iff.
  - split; [constructor|]. split; [tauto|]. split; [exact I|]. split.
    + intros k v [].
    + intros n v _ [].
Qed.

Lemma apart_collected (f g : Node -> JsError + option StructureNode)
    (items : list Node) :
  (forall c, In c items -> attributesApart (f c) = attributesApart (g c)) ->
  match collected (map f items), collected (map g items) with
  | inr l, inr l' => map withoutAttributes l = map withoutAttributes l'
  | inl e, inl e' => e = e'
  | _, _ => False
  end.
Proof.
  induction items as [|c r IH]; intros H; [reflexivity|].
  cbn [map collected].
  pose proof (H c (or_introl eq_refl)) as Hc.
  specialize (IH (fun x Hx => H x (or_intror Hx))).
  destruct (f c) as [e|[n|]], (g c) as [e'|[n'|]]; cbn in Hc;
    try discriminate Hc; cbn [andThen].
  - congruence.
  - destruct (collected (map f r)), (collected (map g r)); cbn [andThen];
      try contradiction; [exact IH|].
    cbn [map]. congruence.
  - destruct (collected (map f r)), (collected (map g r)); cbn [andThen];
      try contradiction; exact IH.
Qed.

Lemma apart_levels tags allowed allowed' limit k : forall element depth,
  limit - depth <= k ->
  attributesApart (extractVisibleStructure tags allowed limit element depth)
  = attributesApart
      (extractVisibleStructure tags allowed' limit element depth).
Proof.
  induction k as [|k IH]; intros element depth Hk;
    (destruct element
       as [style tagName attrs ident method class childNodes content items| |];
     [|cbn [extractVisibleStructure];
       now destruct (limit <? depth)%nat ..]);
    cbn [extractVisibleStructure];
    (destruct (Nat.ltb_spec limit depth) as [L|L]; [reflexivity|]);
    (destruct (hidden style); [reflexivity|]);
    (destruct (lowerCased tagName) as [e|t]; cbn [andThen];
     [reflexivity|]);
    (destruct (includes tags t); cbn [negb]; [|reflexivity]);
    (destruct (callGetAttribute method "role") as [e|r]; cbn [andThen];
     [reflexivity|]);
    (destruct (callGetAttribute method "aria-label") as [e|a];
     cbn [andThen]; [reflexivity|]);
    (destruct (ownText childNodes content) as [e|x]; cbn [andThen];
     [reflexivity|]);
    rewrite !StructureFacts.each_child.
  - destruct (Nat.ltb_spec (depth + 1) limit) as [L'|L']; [lia|].
    reflexivity.
  - destruct (Nat.ltb_spec (depth + 1) limit) as [L'|L']; [|reflexivity].
    pose proof (@apart_collected
                  (fun c => extractVisibleStructure tags allowed limit c
                              (depth + 1))
                  (fun c => extractVisibleStructure tags allowed' limit c
                              (depth + 1))
                  items (fun c _ => IH c (depth + 1) ltac:(lia))) as G.
    destruct (collected _) as [e|l], (collected _) as [e'|l'];
      cbn [andThen attributesApart withoutAttributes]; try contradiction.
    + now subst.
    + now rewrite G.
Qed.

(** The allowed attributes bear on the attributes of the nodes and on
    nothing else: two extractions of an element that differ in them
    alone throw the same error, or yield [null] both, or yield trees
    that are the same but for the [attributes] of their nodes: [tag],
    [id], [role], [ariaLabel], [className], [text] and [children] do
    not go through the policy. *)
Theorem attribute_policy_bears_on_attributes_only
    (tags : list string) (allowed allowed' : AllowedAttributes)
    (limit : nat) (element : Node) (depth : nat) :
  attributesApart (extractVisibleStructure tags allowed limit element depth)
  = attributesApart
      (extractVisibleStructure tags allowed' limit element depth).
Proof. apply (@apart_levels tags allowed allowed' limit (limit - depth)). lia. Qed.

Lemma length_append (s t : string) :
  String.length (s ++ t) = String.length s + String.length t.
Proof. induction s as [|c s IH]; [reflexivity|]. cbn. now rewrite IH. Qed.

Lemma length_substring0 (n : nat) : forall s,
  n <= String.length s -> String.length (String.substring 0 n s) = n.
Proof.
  induction n as [|n IH]; intros s H.
  - now destruct s.
  - destruct s as [|c s]; cbn in *; [lia|]. rewrite IH; lia.
Qed.

Lemma ownText_bounded childNodes content t :
  ownText childNodes content = inr (Some t) -> 1 <= String.length t <= 53.
Proof.
  unfold ownText. destruct childNodes as [|c [|c' r]]; try discriminate.
  destruct (nodeType c =? 3)%nat; [|discriminate].
  destruct (trimmedText content) as [e|x]; cbn [andThen]; [discriminate|].
  destruct (truthyString x) eqn:T; [|discriminate]. intros [= <-].
  unfold truncate, slice0.
  destruct (Nat.ltb_spec 50 (String.length x)) as [L|L].
  - rewrite length_append, length_substring0 by lia. cbn. lia.
  - destruct x; [discriminate|]. cbn in *. lia.
Qed.

(** The [text] of an extracted node is never empty and never longer than
    53 code units: 50 of the element's text and the three dots. *)
Theorem text_is_bounded
    (tags : list string) (allowed : AllowedAttributes) (limit : nat)
    (element : Node) (depth : nat) (node : StructureNode) (t : string) :
  extractVisibleStructure tags allowed limit element depth
  = inr (Some node) ->
  text node = Some t ->
  1 <= String.length t <= 53.
Proof.
  intros E T.
  pose proof (StructureFacts.extract_not_element _ _ _ _ _ E) as I.
  destruct element
    as [style tagName attrs ident method class childNodes content items| |];
    [|discriminate|discriminate].
  destruct (StructureFacts.extract_element _ _ _ _ _ _ _ _ _ _ _ _ _ E)
    as (_ & _ & s & f & _ & _ & _ & _ & _ & _ & _ & _ & _ & Ht & _).
  rewrite T in Ht. exact (ownText_bounded _ _ Ht).
Qed.

Lemma text_is_bounded_witness :
  extractVisibleStructure Sample.sampleTags Sample.sampleRules 30
    Sample.paragraph 0 = inr (Some Sample.paragraphNode)
  /\ 1 <= String.length
            "abcdefghijklmnopqrstuvwxyzabcdefghijklmnopqrstuvwx..." <= 53.
Proof.
  split; [reflexivity|].
  exact (@text_is_bounded Sample.sampleTags Sample.sampleRules 30
           Sample.paragraph 0 Sample.paragraphNode _ eq_refl eq_refl).
Defined.

Lemma copied_attributes_follow_policy_witness :
  extractVisibleStructure Sample.sampleTags attributes_false 30
    Sample.oddAttributes 0 = inr (Some Sample.oddNode)
  /\ NoDup ["1"; "2"; "b"]
  /\ ~ In "__proto__" ["1"; "2"; "b"].
Proof.
  split; [reflexivity|].
  destruct (@copied_attributes_follow_policy Sample.sampleTags
              attributes_false 30 Sample.shown (Str "DIV")
              [(Some "b", Some "x"); (Some "2", Some "y");
               (Some "__proto__", Some "z"); (Some "1", Some "w")]
              (Str "") (Callable (Dom.getAttribute
                 [("b", "x"); ("2", "y"); ("__proto__", "z"); ("1", "w")]))
              (Str "") [] (Str "") [] 0 Sample.oddNode eq_refl)
    as (N & P & _).
  split; [exact N | exact P].
Defined.

End StructureMore.

(* ------------------------------------------------------------------ *)
(** ** More on the actions of the registry *)

Module RegistryMore.
Local Open Scope list_scope.

Ltac pick_tool A :=
  unfold createActions, tool in A;
  cbn [assoc String.eqb Ascii.eqb Bool.eqb] in A;
  injection A as <-; cbn [function parse].

Section Actions.

Variable Page : Type.
Variable drive : forall T, Call T -> Page -> (JsError + T) * Page.
Variable uuid : nat -> string.
Variable JSON_parse : string -> JsError + json.
Variable options : SanitizeOptions.

Local Abbreviation registry := (createActions drive uuid JSON_parse options).

(** An action on an element makes one driver call, on the marker locator
    of its [elementId]; it draws no identifier, and it throws exactly
    when that call throws, with the error of the call. *)
Theorem single_element_actions_make_one_call
    (name : string) (action : ActionTool Page) (args : json)
    (w : World Page) :
  In name singleElementActions ->
  assoc name registry = Some action ->
  exists event,
    trace (snd (function action args w)) = trace w ++ [event]
    /\ eventLocator event = Some (getLocator (str "elementId" args))
    /\ drawn (snd (function action args w)) = drawn w
    /\ forall e, fst (function action args w) = inl e <-> thrown event = Some e.
Proof.
  intros I A. unfold singleElementActions in I. cbn [In] in I.
  repeat (destruct I as [<-|I];
          [pick_tool A;
           unfold act, query, locator_pressKey, locator_evaluate,
             locator_getAttribute, locator_boundingBox, locator_fill,
             bind, call, ret;
           match goal with
           | |- context [drive ?c (page w)] =>
               destruct (drive c (page w)) as [[e|v] p];
               eexists; cbn [fst snd trace drawn];
               (split; [reflexivity|]); (split; [reflexivity|]);
               (split; [reflexivity|]);
               intros e0; cbn [thrown]; split; congruence
           end|]).
  contradiction.
Qed.

Lemma pure_run (name : string) :
  In name pureActions ->
  exists action,
    assoc name registry = Some action
    /\ forall args w, exists v, function action args w = (inr v, w).
Proof.
  intros I. unfold pureActions in I. cbn [In] in I.
  repeat (destruct I as [<-|I];
          [eexists; split; [reflexivity|];
           intros args w; eexists; reflexivity|]).
  contradiction.
Qed.

(** The pure actions return a value and leave the world as it is: they
    make no driver call, draw no identifier and never throw. *)
Theorem pure_actions_touch_nothing
    (name : string) (action : ActionTool Page) (args : json)
    (w : World Page) :
  In name pureActions ->
  assoc name registry = Some action ->
  exists v, function action args w = (inr v, w).
Proof.
  intros I A. destruct (pure_run I) as (action' & A' & H).
  rewrite A in A'. injection A' as <-. apply H.
Qed.

Lemma markEach_issue locators : forall ids w out w',
  markEach drive uuid locators ids w = (inr out, w') ->
  drawn w <= drawn w'
  /\ out = ids ++ draws uuid (drawn w) (drawn w' - drawn w).
Proof.
  induction locators as [|l rest IH]; intros ids w out w'.
  - intros [= <- <-]. rewrite Nat.sub_diag. cbn. now rewrite app_nil_r.
  - cbn [markEach]. unfold bind, randomUUID, call. cbn [page drawn trace].
    destruct (drive (setAttribute l marker (uuid (drawn w))) (page w))
      as [[e|[]] p]; [discriminate|].
    intros E. apply IH in E. cbn [drawn] in E. destruct E as [L ->].
    split; [lia|].
    replace (drawn w' - drawn w) with (S (drawn w' - S (drawn w))) by lia.
    rewrite LocateFacts.draws_cons. now rewrite <- app_assoc.
Qed.

Lemma markVisible_issue locators : forall ids w out w',
  markVisible drive uuid locators ids w = (inr out, w') ->
  drawn w <= drawn w'
  /\ out = ids ++ draws uuid (drawn w) (drawn w' - drawn w).
Proof.
  induction locators as [|l rest IH]; intros ids w out w'.
  - intros [= <- <-]. rewrite Nat.sub_diag. cbn. now rewrite app_nil_r.
  - cbn [markVisible]. unfold bind at 1. unfold call at 1.
    destruct (drive (isVisible l) (page w)) as [[e|[|]] p]; [discriminate| |].
    + unfold bind, randomUUID, call. cbn [page drawn trace].
      destruct (drive (setAttribute l marker (uuid (drawn w))) p)
        as [[e|[]] p']; [discriminate|].
      intros E. apply IH in E. cbn [drawn] in E. destruct E as [L ->].
      split; [lia|].
      replace (drawn w' - drawn w) with (S (drawn w' - S (drawn w))) by lia.
      rewrite LocateFacts.draws_cons. now rewrite <- app_assoc.
    + intros E. apply IH in E. exact E.
Qed.

Lemma issued_idsResult (ids : list string) : issued (idsResult ids) = ids.
Proof.
  unfold issued, idsResult. cbn [get assoc String.eqb Ascii.eqb Bool.eqb].
  unfold stringsOf. induction ids as [|x r IH]; [reflexivity|].
  cbn. now rewrite IH.
Qed.

(** The identifiers a locating action returns are the draws it made, in
    order. *)
Lemma issued_draws (name : string) (action : ActionTool Page) (args : json)
    (w w' : World Page) (v : json) :
  In name locatingActions ->
  assoc name registry = Some action ->
  function action args w = (inr v, w') ->
  drawn w <= drawn w'
  /\ issued v = draws uuid (drawn w) (drawn w' - drawn w).
Proof.
  intros I A. unfold locatingActions in I. cbn [In] in I.
  destruct I as [<-|[<-|[<-|[]]]]; pick_tool A.
  - rewrite LocateFacts.locateElement_run.
    destruct (fst (drive _ (page w))); [discriminate|].
    intros [= <- <-]. cbn [drawn]. split; [lia|].
    replace (S (drawn w) - drawn w) with 1 by lia. reflexivity.
  - unfold locateElementsByRole. unfold bind at 1.
    rewrite LocateFacts.all_run.
    destruct (fst (drive _ (page w))) as [e|n]; [discriminate|].
    unfold bind, ret.
    destruct (markEach _ _ _ _ _) as [[e|ids] w1] eqn:E; [discriminate|].
    intros [= <- <-]. apply markEach_issue in E. cbn [drawn app] in E.
    destruct E as [L ->]. split; [exact L | apply issued_idsResult].
  - unfold locateElementsWithText. unfold bind at 1.
    rewrite LocateFacts.all_run.
    destruct (fst (drive _ (page w))) as [e|n]; [discriminate|].
    unfold bind, ret.
    destruct (markVisible _ _ _ _ _) as [[e|ids] w1] eqn:E; [discriminate|].
    intros [= <- <-]. apply markVisible_issue in E. cbn [drawn app] in E.
    destruct E as [L ->]. split; [exact L | apply issued_idsResult].
Qed.

(** Identifiers are not handed out twice: when the generator does not
    repeat, the identifiers a locating action returns are distinct from
    each other and from those any earlier locating action returned. *)
Theorem identifiers_not_reused
    (name1 name2 : string) (action1 action2 : ActionTool Page)
    (args1 args2 : json) (w1 w1' w2 w2' : World Page) (v1 v2 : json) :
  (forall i j, uuid i = uuid j -> i = j) ->
  In name1 locatingActions -> assoc name1 registry = Some action1 ->
  In name2 locatingActions -> assoc name2 registry = Some action2 ->
  function action1 args1 w1 = (inr v1, w1') ->
  drawn w1' <= drawn w2 ->
  function action2 args2 w2 = (inr v2, w2') ->
  NoDup (issued v2)
  /\ forall x, In x (issued v1) -> ~ In x (issued v2).
Proof.
  intros Inj I1 A1 I2 A2 E1 L E2.
  destruct (issued_draws _ _ I1 A1 E1) as [L1 ->].
  destruct (issued_draws _ _ I2 A2 E2) as [L2 ->].
  split; [now apply LocateFacts.draws_fresh|].
  intros x H1 H2. unfold draws in H1, H2.
  apply in_map_iff in H1, H2.
  destruct H1 as (i & <- & Hi). destruct H2 as (j & E & Hj).
  apply Inj in E. apply in_seq in Hi, Hj. lia.
Qed.

(** The structure is [null] when the document has no body, and when no
    tag is allowed ([allowedTags] missing or falsy) and the body is an
    element whose [tagName] is a string, whatever else the page holds;
    the action then still makes its one driver call. *)
Theorem structure_null_without_allowed_tags
    (args : json) (w : World Page) (body : option Node) (p : Page) :
  drive documentBody (page w) = (inr body, p) ->
  body = None
  \/ (allowedTags options = None
      /\ exists style s attrs ident method class childNodes content items,
           body = Some (ElementObject style (Str s) attrs ident method class
                          childNodes content items)) ->
  getVisibleStructure drive options args w
  = (inr (JObj [("structure", JNull)]),
     {| page := p; drawn := drawn w;
        trace := trace w ++ [Did documentBody (inr body)] |}).
Proof.
  intros D H. unfold getVisibleStructure, bind, call, ret, lift. rewrite D.
  destruct H as [-> | [H (style & s & attrs & ident & method & class
                         & childNodes & content & items & ->)]];
    [reflexivity|].
  unfold extractBody. rewrite H.
  cbn [extractVisibleStructure].
  destruct (maxDepth <? 0)%nat; [reflexivity|].
  now destruct (hidden style).
Qed.

(** With a body that is shown and whose [tagName] a control of that name
    shadows, the action throws, allowed tags or none. *)
Lemma structure_throws_on_shadowed_tag_name
    (args : json) (w : World Page) (p : Page) (style : ComputedStyle)
    (o : DomObject) attrs ident method class childNodes content items :
  hidden style = false ->
  drive documentBody (page w)
  = (inr (Some (ElementObject style (Obj o) attrs ident method class
                  childNodes content items)), p) ->
  exists e, fst (getVisibleStructure drive options args w) = inl e.
Proof.
  intros V D. unfold getVisibleStructure, bind, call, ret, lift. rewrite D.
  unfold extractBody. cbn [extractVisibleStructure].
  change (maxDepth <? 0)%nat with false. cbv iota. rewrite V.
  now eexists.
Qed.

End Actions.

Lemma append_cancel_r (u : string) : forall s t : string,
  (s ++ u = t ++ u)%string -> s = t.
Proof.
  induction s as [|c s IH]; intros t E.
  - destruct t as [|d t]; [reflexivity|]. exfalso.
    apply (f_equal String.length) in E.
    rewrite !StructureMore.length_append in E. cbn in E. lia.
  - destruct t as [|d t].
    + exfalso. apply (f_equal String.length) in E.
      rewrite !StructureMore.length_append in E. cbn in E. lia.
    + cbn in E. injection E as -> E. f_equal. now apply IH.
Qed.

(** Distinct identifiers resolve through distinct locators: the locator
    of an identifier determines the identifier. *)
Theorem marker_locator_determines_identifier (a b : string) :
  getLocator a = getLocator b -> a = b.
Proof.
  unfold getLocator, markerSelector. intros [= E].
  now apply append_cancel_r in E.
Qed.

Lemma marker_locator_determines_identifier_witness :
  getLocator "id-I" = getLocator (Sample.sampleUuid 1)
  /\ "id-I" = Sample.sampleUuid 1.
Proof.
  split; [reflexivity|].
  exact (@marker_locator_determines_identifier "id-I" (Sample.sampleUuid 1)
           eq_refl).
Defined.

Lemma pure_actions_touch_nothing_witness :
  exists v,
    expect_notToBe (Page := Sample.SamplePage)
      (JObj [("actual", JStr "a"); ("expected", JStr "b")])
      (Sample.start Sample.twoButtons)
    = (inr v, Sample.start Sample.twoButtons).
Proof.
  exact (@pure_actions_touch_nothing Sample.SamplePage Sample.sampleDrive
           Sample.sampleUuid Sample.sampleParse Sample.sampleOptions
           "expect_notToBe" _
           (JObj [("actual", JStr "a"); ("expected", JStr "b")])
           (Sample.start Sample.twoButtons) ltac:(cbn; tauto) eq_refl).
Defined.

Lemma identifiers_not_reused_witness :
  NoDup ["id-II"]
  /\ forall x, In x ["id-"; "id-I"] -> ~ In x ["id-II"].
Proof.
  eassert (E1 : locateElementsByRole Sample.sampleDrive Sample.sampleUuid
                  (JObj [("role", JStr "button")])
                  (Sample.start Sample.twoButtons) = (inr _, _))
    by (vm_compute; reflexivity).
  eassert (E2 : locateElementsWithText Sample.sampleDrive Sample.sampleUuid
                  (JObj [("text", JStr "Save")])
                  {| page := Sample.twoButtons; drawn := 2; trace := [] |}
                = (inr _, _))
    by (vm_compute; reflexivity).
  assert (Inj : forall i j, Sample.sampleUuid i = Sample.sampleUuid j -> i = j).
  { intros i j H. apply (f_equal String.length) in H.
    assert (L : forall n, String.length (Sample.sampleUuid n) = 3 + n).
    { induction n as [|n IH]; [reflexivity|]. cbn [Sample.sampleUuid].
      rewrite StructureMore.length_append, IH. cbn. lia. }
    rewrite !L in H. lia. }
  exact (@identifiers_not_reused Sample.SamplePage Sample.sampleDrive
           Sample.sampleUuid Sample.sampleParse Sample.sampleOptions
           "locateElementsByRole" "locateElementsWithText" _ _ _ _ _ _
           {| page := Sample.twoButtons; drawn := 2; trace := [] |} _
           _ _ Inj ltac:(cbn; tauto) eq_refl ltac:(cbn; tauto) eq_refl
           E1 (le_n 2) E2).
Defined.

Lemma structure_null_without_allowed_tags_witness :
  getVisibleStructure Sample.sampleDrive
    {| allowedTags := None; allowedAttributes := attributes_false |}
    (JObj []) (Sample.start [])
  = (inr (JObj [("structure", JNull)]),
     {| page := []; drawn := 0;
        trace := [Did documentBody (inr (Some Sample.body))] |}).
Proof.
  apply (@structure_null_without_allowed_tags Sample.SamplePage
           Sample.sampleDrive
           {| allowedTags := None; allowedAttributes := attributes_false |}
           (JObj []) (Sample.start []) (Some Sample.body) [] eq_refl).
  right. split; [reflexivity|]. do 9 eexists. reflexivity.
Defined.

Lemma single_element_actions_make_one_call_witness :
  exists event,
    trace (snd (act Sample.sampleDrive click
                  (JObj [("elementId", JStr "id-")]) (Sample.start [])))
    = [event]
    /\ eventLocator event = Some (getLocator "id-").
Proof.
  destruct (@single_element_actions_make_one_call Sample.SamplePage
              Sample.sampleDrive Sample.sampleUuid Sample.sampleParse
              Sample.sampleOptions "locator_click" _
              (JObj [("elementId", JStr "id-")]) (Sample.start [])
              ltac:(cbn; tauto) eq_refl)
    as (event & T & L & _).
  exists event. split; [exact T | exact L].
Defined.

End RegistryMore.

(* ------------------------------------------------------------------ *)
(** ** More on the tool-call loop *)

Module OrchestratorMore.
Local Open Scope list_scope.

Section Loop.

Variable Page : Type.
Variable actions : list (string * ActionTool Page).
Variable create : list Message -> JsError + option AssistantMessage.
Variable JSON_stringify : json -> string.
Variable SYSTEM_PROMPT : string.
Variable prompt : string -> string.

Local Abbreviation processToolCall :=
  (processToolCall actions JSON_stringify).
Local Abbreviation processToolCalls :=
  (processToolCalls actions JSON_stringify).
Local Abbreviation turn := (turn actions create JSON_stringify).
Local Abbreviation loop := (loop actions create JSON_stringify).
Local Abbreviation after := (after actions create JSON_stringify).
Local Abbreviation progress :=
  (progress actions create JSON_stringify SYSTEM_PROMPT prompt).
Local Abbreviation completeTask :=
  (completeTask actions create JSON_stringify SYSTEM_PROMPT prompt).

Lemma processToolCalls_app l1 : forall l2 b w,
  processToolCalls (l1 ++ l2) b w
  = match processToolCalls l1 b w with
    | (inr b1, w1) => processToolCalls l2 b1 w1
    | (inl e, w1) => (inl e, w1)
    end.
Proof.
  induction l1 as [|c l1 IH]; intros l2 b w; [reflexivity|].
  cbn [app Orchestrator.processToolCalls]. unfold bind.
  destruct (processToolCall c b w) as [[e|b1] w1]; [reflexivity|].
  apply IH.
Qed.

Lemma after_done n st message w :
  pending message = None -> after n st message w = (inr (st, message), w).
Proof. intros H. destruct n; cbn; [reflexivity | now rewrite H]. Qed.

Lemma after_add n : forall k st message w,
  after (n + k) st message w
  = match after n st message w with
    | (inr (st1, m1), w1) => after k st1 m1 w1
    | (inl e, w1) => (inl e, w1)
    end.
Proof.
  induction n as [|n IH]; intros k st message w; [reflexivity|].
  cbn [Nat.add Orchestrator.after].
  destruct (pending message) as [[m calls]|] eqn:Hp.
  - unfold bind. destruct (turn st m calls w) as [[e|[st1 m1]] w1];
      [reflexivity|]. cbn [fst snd]. apply IH.
  - cbn [ret]. now rewrite after_done.
Qed.

Lemma turn_extends st m calls w st' message' w' :
  turn st m calls w = (inr (st', message'), w') ->
  exists results,
    messages st' = messages st ++ Assistant m :: results.
Proof.
  unfold Orchestrator.turn, bind, lift.
  destruct (processToolCalls calls _ w) as [[e|b] w1]; [discriminate|].
  destruct (create _) as [e|msg]; [discriminate|].
  intros [= <- <- <-]. cbn [messages]. exists (toolCallResults b).
  now rewrite <- app_assoc.
Qed.

Lemma after_extends n : forall st message w st' message' w',
  after n st message w = (inr (st', message'), w') ->
  exists suffix, messages st' = messages st ++ suffix.
Proof.
  induction n as [|n IH]; intros st message w st' message' w'.
  - intros [= <- <- <-]. exists []. now rewrite app_nil_r.
  - cbn [Orchestrator.after].
    destruct (pending message) as [[m calls]|].
    + unfold bind.
      destruct (turn st m calls w) as [[e|[st1 m1]] w1] eqn:E;
        [discriminate|].
      cbn [fst snd]. intros E2.
      destruct (turn_extends _ _ _ _ E) as (results & R).
      destruct (IH _ _ _ _ _ _ E2) as (suffix & S).
      exists (Assistant m :: results ++ suffix).
      rewrite S, R, <- app_assoc. reflexivity.
    + intros [= <- <- <-]. exists []. now rewrite app_nil_r.
Qed.

(** The conversation only grows: it starts with the system prompt and
    the task, and the conversation after more turns extends the
    conversation after fewer. *)
Theorem conversation_is_append_only
    (n k : nat) (task : string) (w w1 w2 : World Page)
    (st1 st2 : Orchestrator.Loop) (m1 m2 : option AssistantMessage) :
  progress n task w = (inr (st1, m1), w1) ->
  progress (n + k) task w = (inr (st2, m2), w2) ->
  (exists suffix,
     messages st1 = System SYSTEM_PROMPT :: User (prompt task) :: suffix)
  /\ exists suffix, messages st2 = messages st1 ++ suffix.
Proof.
  unfold Orchestrator.progress, bind, lift.
  destruct (create _) as [e|first]; [discriminate|].
  intros E1 E2. split.
  - destruct (after_extends _ _ _ _ E1) as (suffix & S).
    exists suffix. exact S.
  - rewrite after_add, E1 in E2. exact (after_extends _ _ _ _ E2).
Qed.

(** A turn that throws ends the task with its error. *)
Lemma loop_after_fail n : forall fuel st message w st' message' w' m calls
    e w'',
  after n st message w = (inr (st', message'), w') ->
  pending message' = Some (m, calls) ->
  turn st' m calls w' = (inl e, w'') ->
  n < fuel ->
  loop fuel st message w = Some (inl e, w'').
Proof.
  induction n as [|n IH];
    intros fuel st message w st' message' w' m calls e w''.
  - intros [= <- <- <-] Hp T Hf. destruct fuel as [|fuel]; [lia|].
    cbn [Orchestrator.loop]. now rewrite Hp, T.
  - cbn [Orchestrator.after].
    destruct (pending message) as [[m0 calls0]|] eqn:Hp0.
    + unfold bind. intros E Hp T Hf. destruct fuel as [|fuel]; [lia|].
      cbn [Orchestrator.loop]. rewrite Hp0.
      destruct (turn st m0 calls0 w) as [[e0|[st1 m1]] w1]; [discriminate|].
      cbn [fst snd] in E. eapply IH; [exact E | exact Hp | exact T | lia].
    + intros [= <- <- <-] Hp T Hf. congruence.
Qed.

(** A call that names neither an action nor a property of
    [Object.prototype] ends the task with [Unknown function]: the calls
    before it in the message have run and their effects stay, the calls
    after it never run, and no tool result of the message is kept. *)
Theorem unknown_function_aborts_task
    (n fuel : nat) (task : string) (w w1 w2 : World Page)
    (st : Orchestrator.Loop) (m : AssistantMessage)
    (before rest : list ToolCall) (id name arguments : string)
    (b : Batch) :
  progress n task w = (inr (st, Some m), w1) ->
  tool_calls m = Some (before ++ FunctionToolCall id name arguments :: rest) ->
  processToolCalls before
    {| lastFunctionResult := lastResult st; toolCallResults := [];
       history := dispatches st |} w1 = (inr b, w2) ->
  assoc name actions = None ->
  ~ In name objectPrototype ->
  n < fuel ->
  completeTask fuel task w
  = Some (inl (Error ("Unknown function: " ++ name)%string), w2).
Proof.
  unfold Orchestrator.progress, Orchestrator.completeTask, bind, lift.
  destruct (create _) as [e|first]; [discriminate|].
  intros E T B A N Hf.
  assert (Hp : pending (Some m)
               = Some (m, before ++ FunctionToolCall id name arguments :: rest)).
  { unfold pending. rewrite T. now destruct before. }
  eapply loop_after_fail; [exact E | exact Hp | | exact Hf].
  unfold Orchestrator.turn, bind. rewrite processToolCalls_app, B.
  cbn [Orchestrator.processToolCalls]. unfold bind.
  unfold Orchestrator.processToolCall, lookup. rewrite A.
  destruct (includes objectPrototype name) eqn:I; [|reflexivity].
  exfalso. apply N. now apply StructureMore.includes_In.
Qed.

(** A model request that throws ends the task with its error; what the
    calls of the turn did to the page stays. *)
Theorem model_error_aborts_task
    (n fuel : nat) (task : string) (w w1 w2 : World Page)
    (st : Orchestrator.Loop) (message : option AssistantMessage)
    (m : AssistantMessage) (calls : list ToolCall) (b : Batch)
    (e : JsError) :
  progress n task w = (inr (st, message), w1) ->
  pending message = Some (m, calls) ->
  processToolCalls calls
    {| lastFunctionResult := lastResult st; toolCallResults := [];
       history := dispatches st |} w1 = (inr b, w2) ->
  create ((messages st ++ [Assistant m]) ++ toolCallResults b) = inl e ->
  n < fuel ->
  completeTask fuel task w = Some (inl e, w2).
Proof.
  unfold Orchestrator.progress, Orchestrator.completeTask, bind, lift.
  destruct (create (messages _)) as [e0|first]; [discriminate|].
  intros E Hp B C Hf.
  eapply loop_after_fail; [exact E | exact Hp | | exact Hf].
  unfold Orchestrator.turn, bind, lift. now rewrite B, C.
Qed.

Section Slot.

Variable P : json -> Prop.
Hypothesis results : ResultsSatisfy P actions.

Lemma processToolCall_slot toolCall b w b' w' :
  (forall x, lastFunctionResult b = Some x -> P x) ->
  processToolCall toolCall b w = (inr b', w') ->
  forall x, lastFunctionResult b' = Some x -> P x.
Proof.
  intros H. destruct toolCall as [id name arguments|id];
    [|now intros [= <- <-]].
  pose proof (OrchestratorFacts.processToolCall_cases actions JSON_stringify
                id name arguments b w) as D.
  intros E. rewrite E in D. clear E.
  inversion D as [ | action error L Q | action parsedArgs error w1 L Q F
                 | action parsedArgs result w1 L Q F ]; subst;
    try exact H.
  cbn [succeeded lastFunctionResult].
  destruct (isResultName name) eqn:R; [|exact H].
  intros x [= <-]. destruct action as [a|]; [|discriminate F].
  apply OrchestratorFacts.lookup_own in L.
  exact (results name arguments w L R Q F).
Qed.

Lemma processToolCalls_slot calls : forall b w b' w',
  (forall x, lastFunctionResult b = Some x -> P x) ->
  processToolCalls calls b w = (inr b', w') ->
  forall x, lastFunctionResult b' = Some x -> P x.
Proof.
  induction calls as [|c rest IH]; intros b w b' w' H.
  - now intros [= <- <-].
  - cbn [Orchestrator.processToolCalls]. unfold bind.
    destruct (processToolCall c b w) as [[e|b1] w1] eqn:E; [discriminate|].
    apply IH. eapply processToolCall_slot; [exact H | exact E].
Qed.

Lemma loop_slot fuel : forall st message w v w',
  (forall x, lastResult st = Some x -> P x) ->
  loop fuel st message w = Some (inr v, w') ->
  P v.
Proof.
  induction fuel as [|fuel IH]; intros st message w v w' H;
    cbn [Orchestrator.loop];
    (destruct (pending message) as [[m calls]|];
     [|unfold conclude; destruct (lastResult st) as [x|] eqn:L;
       [destruct (truthy x); [|discriminate]; intros [= <- <-]; now apply H
       |discriminate]]).
  - discriminate.
  - unfold Orchestrator.turn, bind, lift.
    destruct (processToolCalls calls _ w) as [[e|b] w1] eqn:E;
      [discriminate|].
    destruct (create _) as [e|msg]; [discriminate|].
    apply IH. cbn [lastResult].
    eapply processToolCalls_slot; [|exact E]. exact H.
Qed.

End Slot.
End Loop.

Lemma boolean_result JSON_parse raw args :
  parseWith JSON_parse resultAssertionSchema raw = inr args ->
  exists b, args = JObj [("assertion", JBool b)].
Proof.
  unfold parseWith, resultAssertionSchema, z_object.
  destruct (JSON_parse raw) as [e|v]; [discriminate|].
  destruct v as [| | | | |fields]; try discriminate.
  unfold wellTyped. cbn [forallb fst snd conforms strip get].
  destruct (assoc "assertion" fields) as [[| b | | | |]|];
    try discriminate.
  intros [= <-]. now exists b.
Qed.

Lemma string_result JSON_parse raw args :
  parseWith JSON_parse resultQuerySchema raw = inr args ->
  exists s, args = JObj [("query", JStr s)].
Proof.
  unfold parseWith, resultQuerySchema, z_object.
  destruct (JSON_parse raw) as [e|v]; [discriminate|].
  destruct v as [| | | | |fields]; try discriminate.
  unfold wellTyped. cbn [forallb fst snd conforms strip get].
  destruct (assoc "query" fields) as [[| | | s | |]|];
    try discriminate.
  intros [= <-]. now exists s.
Qed.

Lemma createActions_results_shaped (Page : Type)
    (drive : forall T, Call T -> Page -> (JsError + T) * Page)
    (uuid : nat -> string) (JSON_parse : string -> JsError + json)
    (options : SanitizeOptions) :
  ResultsSatisfy TaskResultShape (createActions drive uuid JSON_parse options).
Proof.
  intros name action raw args w v w' A R P F.
  unfold createActions, tool in A. cbn [assoc] in A.
  repeat (OrchestratorFacts.next_property name; [try discriminate R|]);
    try discriminate A;
    injection A as <-; cbn [function parse] in *; unfold TaskResultShape.
  - injection F as <- _. left. exact (boolean_result _ _ P).
  - injection F as <- _. right. left. exact (string_result _ _ P).
  - injection F as <- _. right. right. now left.
  - injection F as <- _. right. right. right. now eexists.
Qed.

(** A task that returns, returns one of four values: [{ assertion }]
    with a boolean, [{ query }] with a string, [{ success: true }], or
    [{ errorMessage }] with a string, and nothing besides that key. *)
Theorem task_result_has_one_of_four_shapes (Page : Type)
    (drive : forall T, Call T -> Page -> (JsError + T) * Page)
    (uuid : nat -> string) (JSON_parse : string -> JsError + json)
    (options : SanitizeOptions)
    (create : list Message -> JsError + option AssistantMessage)
    (JSON_stringify : json -> string) (SYSTEM_PROMPT : string)
    (prompt : string -> string)
    (fuel : nat) (task : string) (w w' : World Page) (v : json) :
  completeTask (createActions drive uuid JSON_parse options) create
    JSON_stringify SYSTEM_PROMPT prompt fuel task w
  = Some (inr v, w') ->
  TaskResultShape v.
Proof.
  unfold completeTask.
  destruct (create _) as [e|first]; [discriminate|].
  apply loop_slot with (P := TaskResultShape).
  - apply createActions_results_shaped.
  - discriminate.
Qed.

Lemma task_result_has_one_of_four_shapes_witness :
  TaskResultShape (JObj [("assertion", JBool true)]).
Proof.
  exact (@task_result_has_one_of_four_shapes Sample.SamplePage
           Sample.sampleDrive Sample.sampleUuid Sample.sampleParse
           Sample.sampleOptions Sample.assertingModel Sample.sampleStringify
           "system" (fun t => t) 2 "task" (Sample.start Sample.twoButtons)
           {| page := [(true, Some "id-"); (false, Some "id-I")];
              drawn := 2;
              trace :=
                [Did (count (getByRole "button" false)) (inr 2);
                 Did (setAttribute (nth (getByRole "button" false) 0)
                        "data-element-id" "id-") (inr tt);
                 Did (setAttribute (nth (getByRole "button" false) 1)
                        "data-element-id" "id-I") (inr tt)] |}
           (JObj [("assertion", JBool true)]) eq_refl).
Defined.


Section Pure.

Variable Page : Type.
Variable drive : forall T, Call T -> Page -> (JsError + T) * Page.
Variable uuid : nat -> string.
Variable JSON_parse : string -> JsError + json.
Variable options : SanitizeOptions.
Variable create : list Message -> JsError + option AssistantMessage.
Variable JSON_stringify : json -> string.
Variable SYSTEM_PROMPT : string.
Variable prompt : string -> string.

Local Abbreviation registry := (createActions drive uuid JSON_parse options).

Lemma pure_call c b w :
  pureCall c ->
  exists b', processToolCall registry JSON_stringify c b w = (inr b', w).
Proof.
  destruct c as [id name arguments|id]; [|intros _; now eexists].
  intros I. destruct (RegistryMore.pure_run drive uuid JSON_parse options I)
    as (action & A & H).
  unfold processToolCall, lookup. rewrite A.
  unfold catch, bind, lift. cbn [parseOf functionOf].
  destruct (parse action arguments) as [e|parsedArgs]; [now eexists|].
  destruct (H parsedArgs w) as (v & ->). now eexists.
Qed.

Lemma pure_batch calls : forall b w,
  Forall pureCall calls ->
  exists b', processToolCalls registry JSON_stringify calls b w = (inr b', w).
Proof.
  induction calls as [|c rest IH]; intros b w F; [now eexists|].
  inversion F as [|? ? Hc Hr]; subst.
  cbn [processToolCalls]. unfold bind.
  destruct (@pure_call c b w Hc) as (b1 & ->). now apply IH.
Qed.

Lemma loop_pure fuel : forall st message w r w',
  requestsPureCalls create ->
  (forall m calls, message = Some m -> tool_calls m = Some calls ->
                   Forall pureCall calls) ->
  loop registry create JSON_stringify fuel st message w = Some (r, w') ->
  w' = w.
Proof.
  induction fuel as [|fuel IH]; intros st message w r w' Hc Hm;
    cbn [loop];
    (destruct (pending message) as [[m calls]|] eqn:Hp;
     [|now intros [= _ <-]]).
  - discriminate.
  - apply OrchestratorFacts.pending_calls in Hp.
    destruct Hp as (-> & T & _).
    unfold turn, bind, lift.
    destruct (@pure_batch calls
                {| lastFunctionResult := lastResult st;
                   toolCallResults := []; history := dispatches st |}
                w (Hm m calls eq_refl T)) as (b' & ->).
    destruct (create _) as [e|msg] eqn:C; [now intros [= _ <-]|].
    apply IH; [exact Hc|].
    intros m' calls' -> T'. exact (Hc _ _ _ C T').
Qed.

(** A task in which the model only requests comparisons and result
    reports leaves the world as it found it, however it ends: no driver
    call is made and no identifier is drawn. *)
Theorem pure_tasks_leave_the_page
    (fuel : nat) (task : string) (w w' : World Page) (r : JsError + json) :
  requestsPureCalls create ->
  completeTask registry create JSON_stringify SYSTEM_PROMPT prompt fuel task w
  = Some (r, w') ->
  w' = w.
Proof.
  intros Hc. unfold completeTask.
  destruct (create _) as [e|first] eqn:C; [now intros [= _ <-]|].
  apply loop_pure; [exact Hc|].
  intros m calls -> T. exact (Hc _ _ _ C T).
Qed.

(** A comparison that fails is an ordinary result, not an error: the
    call of [expect_toBe] or [expect_notToBe] on two strings is answered
    with both strings and the outcome of the comparison, the terminal
    result and the world stay as they were, and of the two actions exactly
    one reports success. *)
Theorem mismatch_is_an_ordinary_result
    (id raw actual expected : string) (fields : list (string * json))
    (b : Batch) (w : World Page) :
  JSON_parse raw = inr (JObj fields) ->
  assoc "actual" fields = Some (JStr actual) ->
  assoc "expected" fields = Some (JStr expected) ->
  processToolCall registry JSON_stringify
    (FunctionToolCall id "expect_toBe" raw) b w
  = (inr {| lastFunctionResult := lastFunctionResult b;
            toolCallResults :=
              toolCallResults b
              ++ [Tool id
                    (JSON_stringify
                       (JObj [("actual", JStr actual);
                              ("expected", JStr expected);
                              ("success",
                               JBool (String.eqb actual expected))]))];
            history :=
              history b
              ++ [{| dispatched := "expect_toBe";
                     outcome :=
                       inr (JObj [("actual", JStr actual);
                                  ("expected", JStr expected);
                                  ("success",
                                   JBool (String.eqb actual expected))]) |}]
         |}, w)
  /\ processToolCall registry JSON_stringify
       (FunctionToolCall id "expect_notToBe" raw) b w
     = (inr {| lastFunctionResult := lastFunctionResult b;
               toolCallResults :=
                 toolCallResults b
                 ++ [Tool id
                       (JSON_stringify
                          (JObj [("actual", JStr actual);
                                 ("expected", JStr expected);
                                 ("success",
                                  JBool (negb (String.eqb actual expected)))]))];
               history :=
                 history b
                 ++ [{| dispatched := "expect_notToBe";
                        outcome :=
                          inr (JObj [("actual", JStr actual);
                                     ("expected", JStr expected);
                                     ("success",
                                      JBool (negb (String.eqb actual
                                                     expected)))]) |}]
            |}, w).
Proof.
  intros J A E.
  split; unfold processToolCall, lookup;
    match goal with
    | |- context [assoc ?n registry] =>
        let t := eval cbv in n in
        change (assoc n registry) with
          (assoc t registry)
    end;
    unfold createActions, tool;
    cbn [assoc String.eqb Ascii.eqb Bool.eqb];
    unfold catch, bind, lift; cbn [parseOf functionOf parse function];
    unfold parseWith; rewrite J;
    unfold expectToBeSchema, z_object, wellTyped;
    cbn [forallb fst snd get strip]; rewrite A, E;
    cbn [conforms isString andb];
    unfold expect_toBe, expect_notToBe, ret, str;
    cbn [get assoc String.eqb Ascii.eqb Bool.eqb];
    reflexivity.
Qed.

End Pure.

Lemma pure_tasks_leave_the_page_witness :
  requestsPureCalls
    (Sample.script
       [(2, [FunctionToolCall "c1" "resultAssertion" "{assertion:false}"])])
  /\ Sample.start Sample.twoButtons = Sample.start Sample.twoButtons.
Proof.
  assert (H : requestsPureCalls
                (Sample.script
                   [(2, [FunctionToolCall "c1" "resultAssertion"
                           "{assertion:false}"])])).
  { intros conversation m calls. unfold Sample.script. cbn [find fst snd].
    destruct (2 =? List.length conversation)%nat.
    - intros [= <-] [= <-]. constructor; [cbn; tauto | constructor].
    - intros [= <-] [=]. }
  split; [exact H|].
  exact (@pure_tasks_leave_the_page Sample.SamplePage Sample.sampleDrive
           Sample.sampleUuid Sample.sampleParse Sample.sampleOptions
           (Sample.script
              [(2, [FunctionToolCall "c1" "resultAssertion"
                      "{assertion:false}"])])
           Sample.sampleStringify "system" (fun t => t) 1 "task"
           (Sample.start Sample.twoButtons) (Sample.start Sample.twoButtons)
           (inr (JObj [("assertion", JBool false)])) H eq_refl).
Defined.

Lemma conversation_is_append_only_witness :
  exists st1 m1 w1 st2 m2 w2 suffix,
    progress Sample.sampleActions Sample.assertingModel
      Sample.sampleStringify "system" (fun t => t) 1 "task"
      (Sample.start Sample.twoButtons) = (inr (st1, m1), w1)
    /\ progress Sample.sampleActions Sample.assertingModel
         Sample.sampleStringify "system" (fun t => t) (1 + 1) "task"
         (Sample.start Sample.twoButtons) = (inr (st2, m2), w2)
    /\ messages st2 = messages st1 ++ suffix.
Proof.
  eassert (E1 : progress Sample.sampleActions Sample.assertingModel
                  Sample.sampleStringify "system" (fun t => t) 1 "task"
                  (Sample.start Sample.twoButtons)
                = (inr (_, _), _)) by (vm_compute; reflexivity).
  eassert (E2 : progress Sample.sampleActions Sample.assertingModel
                  Sample.sampleStringify "system" (fun t => t) (1 + 1) "task"
                  (Sample.start Sample.twoButtons)
                = (inr (_, _), _)) by (vm_compute; reflexivity).
  destruct (@conversation_is_append_only Sample.SamplePage
              Sample.sampleActions Sample.assertingModel
              Sample.sampleStringify "system" (fun t => t) 1 1 "task"
              _ _ _ _ _ _ _ E1 E2) as (_ & suffix & S).
  do 6 eexists. exists suffix.
  split; [exact E1|]. split; [exact E2 | exact S].
Defined.

Lemma unknown_function_aborts_task_witness :
  completeTask Sample.sampleActions
    (Sample.script
       [(2, [FunctionToolCall "c1" "locateElementsByRole" "{role:button}";
             FunctionToolCall "c2" "locator_tap" "{}";
             FunctionToolCall "c3" "resultAction" "{}"])])
    Sample.sampleStringify "system" (fun t => t) 1 "task"
    (Sample.start Sample.twoButtons)
  = Some (inl (Error "Unknown function: locator_tap"),
          {| page := [(true, Some "id-"); (false, Some "id-I")];
             drawn := 2;
             trace :=
               [Did (count (getByRole "button" false)) (inr 2);
                Did (setAttribute (nth (getByRole "button" false) 0)
                       "data-element-id" "id-") (inr tt);
                Did (setAttribute (nth (getByRole "button" false) 1)
                       "data-element-id" "id-I") (inr tt)] |}).
Proof.
  eassert (B : processToolCalls Sample.sampleActions Sample.sampleStringify
                 [FunctionToolCall "c1" "locateElementsByRole" "{role:button}"]
                 {| lastFunctionResult := None; toolCallResults := [];
                    history := [] |}
                 (Sample.start Sample.twoButtons) = (inr _, _))
    by (vm_compute; reflexivity).
  exact (@unknown_function_aborts_task Sample.SamplePage Sample.sampleActions
           (Sample.script
              [(2, [FunctionToolCall "c1" "locateElementsByRole"
                      "{role:button}";
                    FunctionToolCall "c2" "locator_tap" "{}";
                    FunctionToolCall "c3" "resultAction" "{}"])])
           Sample.sampleStringify "system" (fun t => t) 0 1 "task"
           (Sample.start Sample.twoButtons) (Sample.start Sample.twoButtons)
           _ _ _
           [FunctionToolCall "c1" "locateElementsByRole" "{role:button}"]
           [FunctionToolCall "c3" "resultAction" "{}"]
           "c2" "locator_tap" "{}" _ eq_refl eq_refl B eq_refl
           ltac:(cbn; intuition discriminate) (le_n 1)).
Defined.

Lemma model_error_aborts_task_witness :
  completeTask Sample.sampleActions
    (fun conversation =>
       if (List.length conversation =? 2)%nat
       then Sample.says [FunctionToolCall "c1" "resultAction" "{}"]
       else inl (Error "429 Too Many Requests"))
    Sample.sampleStringify "system" (fun t => t) 1 "task" (Sample.start [])
  = Some (inl (Error "429 Too Many Requests"), Sample.start []).
Proof.
  eassert (B : processToolCalls Sample.sampleActions Sample.sampleStringify
                 [FunctionToolCall "c1" "resultAction" "{}"]
                 {| lastFunctionResult := None; toolCallResults := [];
                    history := [] |}
                 (Sample.start []) = (inr _, _))
    by (vm_compute; reflexivity).
  exact (@model_error_aborts_task Sample.SamplePage Sample.sampleActions
           (fun conversation =>
              if (List.length conversation =? 2)%nat
              then Sample.says [FunctionToolCall "c1" "resultAction" "{}"]
              else inl (Error "429 Too Many Requests"))
           Sample.sampleStringify "system" (fun t => t) 0 1 "task"
           (Sample.start []) (Sample.start []) _ _ _ _ _ _ _
           eq_refl eq_refl B eq_refl (le_n 1)).
Defined.

Lemma mismatch_is_an_ordinary_result_witness :
  processToolCall
    (createActions Sample.sampleDrive Sample.sampleUuid
       (fun _ => inr (JObj [("expected", JStr "Clicked!");
                            ("actual", JStr "Click me")]))
       Sample.sampleOptions)
    Sample.sampleStringify
    (FunctionToolCall "c1" "expect_toBe" "") Sample.emptyBatch
    (Sample.start [])
  = (inr {| lastFunctionResult := None;
            toolCallResults := [Tool "c1" "{...}"];
            history :=
              [{| dispatched := "expect_toBe";
                  outcome :=
                    inr (JObj [("actual", JStr "Click me");
                               ("expected", JStr "Clicked!");
                               ("success", JBool false)]) |}] |},
     Sample.start []).
Proof.
  exact (proj1
           (@mismatch_is_an_ordinary_result Sample.SamplePage
              Sample.sampleDrive Sample.sampleUuid
              (fun _ => inr (JObj [("expected", JStr "Clicked!");
                                   ("actual", JStr "Click me")]))
              Sample.sampleOptions Sample.sampleStringify
              "c1" "" "Click me" "Clicked!" _ Sample.emptyBatch
              (Sample.start []) eq_refl eq_refl eq_refl)).
Defined.

End OrchestratorMore.

(* ------------------------------------------------------------------ *)
(** ** The parameters told to the model and the validation *)

Module AdvertisedFacts.

Ltac look fields :=
  match goal with
  | |- context [assoc ?k fields] =>
      destruct (assoc k fields) as [[| | | | ?xs |]|];
      cbn [andb orb negb returned isString isNumber isBoolean typeOk hasType
           itemsOk get assoc String.eqb Ascii.eqb Bool.eqb existsb conforms];
      try reflexivity
  end.

Ltac agree :=
  unfold z_object, wellTyped, validates, typeOk, propertiesOk, requiredOk,
    defined;
  match goal with
  | |- context [JObj ?fields] =>
      is_var fields;
      cbn [get assoc String.eqb Ascii.eqb Bool.eqb forallb fst snd hasType
           existsb andb returned];
      repeat look fields
  end.

(** The schemas without cross-field checks accept what their parameters
    describe. *)
Lemma plain_schemas_agree (v : json) :
  returned (locatorPressKeySchema v) = validates parameters_locator_pressKey v
  /\ returned (pagePressKeySchema v) = validates parameters_page_pressKey v
  /\ returned (locateElementSchema v) = validates parameters_locateElement v
  /\ returned (locatorEvaluateSchema v)
     = validates parameters_locator_evaluate v
  /\ returned (locatorGetAttributeSchema v)
     = validates parameters_locator_getAttribute v
  /\ returned (locatorElementIdSchema v)
     = validates parameters_locator_click v
  /\ returned (locatorFillSchema v) = validates parameters_locator_fill v
  /\ returned (pageGotoSchema v) = validates parameters_page_goto v
  /\ returned (expectToBeSchema v) = validates parameters_expect_toBe v
  /\ returned (resultAssertionSchema v)
     = validates parameters_resultAssertion v
  /\ returned (resultQuerySchema v) = validates parameters_resultQuery v
  /\ returned (resultErrorSchema v) = validates parameters_resultError v
  /\ returned (emptySchema v) = validates parameters_resultAction v
  /\ returned (locateElementsByRoleSchema v)
     = validates parameters_locateElementsByRole v
  /\ returned (locateElementsWithTextSchema v)
     = validates parameters_locateElementsWithText v.
Proof.
  destruct v as [| | | | |fields]; repeat split; try reflexivity;
    unfold locatorPressKeySchema, pagePressKeySchema, locateElementSchema,
      locatorEvaluateSchema, locatorGetAttributeSchema,
      locatorElementIdSchema, locatorFillSchema, pageGotoSchema,
      expectToBeSchema, resultAssertionSchema, resultQuerySchema,
      resultErrorSchema, emptySchema, locateElementsByRoleSchema,
      locateElementsWithTextSchema,
      parameters_locator_pressKey, parameters_page_pressKey,
      parameters_locateElement, parameters_locator_evaluate,
      parameters_locator_getAttribute, parameters_locator_click,
      parameters_locator_fill, parameters_page_goto, parameters_expect_toBe,
      parameters_resultAssertion, parameters_resultQuery,
      parameters_resultError, parameters_resultAction,
      parameters_locateElementsByRole, parameters_locateElementsWithText;
    agree; reflexivity.
Qed.

Lemma select_option_parameters (fields : list (string * json)) :
  wellTyped selectOptionShape (JObj fields)
  = validates parameters_locator_selectOption (JObj fields).
Proof.
  unfold selectOptionShape, parameters_locator_selectOption. agree.
  all: rewrite ?andb_true_r; reflexivity.
Qed.

Lemma existsb_In (k : string) (ks : list string) :
  existsb (String.eqb k) ks = true <-> In k ks.
Proof.
  rewrite existsb_exists. split.
  - intros (x & H & E). apply String.eqb_eq in E. now subst.
  - intros H. exists k. split; [exact H | apply String.eqb_refl].
Qed.

(** Parsing what was parsed changes nothing. *)
Lemma strip_again shape v : forall sub,
  incl (map fst sub) (map fst shape) ->
  strip sub (JObj (strip shape v)) = strip sub v
  /\ wellTyped sub (JObj (strip shape v)) = wellTyped sub v.
Proof.
  induction sub as [|[k t] r IH]; intros I; [now split|].
  assert (G : get k (JObj (strip shape v)) = get k v).
  { rewrite SelectOptionSchema.get_strip.
    assert (existsb (String.eqb k) (map fst shape) = true) as ->;
      [|reflexivity].
    apply existsb_In, I. now left. }
  destruct IH as [IH1 IH2]; [intros x Hx; apply I; now right|].
  unfold wellTyped in *. cbn [strip forallb fst snd].
  now rewrite G, IH1, IH2.
Qed.

Lemma z_object_stable shape v args :
  z_object shape v = inr args -> z_object shape args = inr args.
Proof.
  unfold z_object. destruct v as [| | | | |fields]; try discriminate.
  destruct (wellTyped shape (JObj fields)) eqn:W; [|discriminate].
  intros [= <-].
  destruct (strip_again shape (JObj fields) shape (incl_refl _)) as [S T].
  now rewrite T, W, S.
Qed.

Lemma z_object_keeps shape v args k x :
  z_object shape v = inr args -> get k args = Some x -> get k v = Some x.
Proof.
  unfold z_object. destruct v as [| | | | |fields]; try discriminate.
  destruct (wellTyped shape (JObj fields)); [|discriminate].
  intros [= <-]. rewrite SelectOptionSchema.get_strip.
  now destruct (existsb _ _).
Qed.

Lemma refine_stable schema check msg :
  (forall u a, schema u = inr a -> schema a = inr a) ->
  forall u a, refine schema check msg u = inr a ->
              refine schema check msg a = inr a.
Proof.
  intros H u a. unfold refine.
  destruct (schema u) as [e|data] eqn:E; [discriminate|].
  destruct (check data) eqn:C; [|discriminate].
  intros [= <-]. now rewrite (H _ _ E), C.
Qed.

Lemma refine_keeps schema check msg k (x : json) :
  (forall u a, schema u = inr a -> get k a = Some x -> get k u = Some x) ->
  forall u a, refine schema check msg u = inr a ->
              get k a = Some x -> get k u = Some x.
Proof.
  intros H u a. unfold refine.
  destruct (schema u) as [e|data] eqn:E; [discriminate|].
  destruct (check data); [|discriminate].
  intros [= <-]. now apply H.
Qed.

Lemma select_option_stable v args :
  locatorSelectOptionSchema v = inr args ->
  locatorSelectOptionSchema args = inr args.
Proof.
  apply refine_stable, refine_stable. intros u a. apply z_object_stable.
Qed.

Lemma select_option_keeps v args k x :
  locatorSelectOptionSchema v = inr args ->
  get k args = Some x -> get k v = Some x.
Proof.
  apply refine_keeps, refine_keeps. intros u a. apply z_object_keeps.
Qed.

Section Agreement.

Variable Page : Type.
Variable drive : forall T, Call T -> Page -> (JsError + T) * Page.
Variable uuid : nat -> string.
Variable JSON_parse : string -> JsError + json.
Variable options : SanitizeOptions.

Local Abbreviation registry := (createActions drive uuid JSON_parse options).

(** The validation of every action accepts only arguments that satisfy
    the parameters told to the model, and for every action but
    [locator_selectOption] it accepts all of them. For
    [locator_selectOption] the parameters say nothing of the two
    either-or checks: the empty object satisfies them and is refused. *)
Theorem parameters_agree_with_validation
    (name : string) (action : ActionTool Page) (description : string)
    (parameters : json) (raw : string) (v : json) :
  assoc name registry = Some action ->
  assoc name advertised = Some (description, parameters) ->
  JSON_parse raw = inr v ->
  (returned (parse action raw) = true -> validates parameters v = true)
  /\ (name <> "locator_selectOption" ->
      validates parameters v = true -> returned (parse action raw) = true)
  /\ (validates parameters_locator_selectOption (JObj []) = true
      /\ returned (locatorSelectOptionSchema (JObj [])) = false).
Proof.
  intros A D J.
  assert (K : name <> "locator_selectOption" ->
              returned (parse action raw) = validates parameters v).
  { destruct (plain_schemas_agree v)
      as (P1 & P2 & P3 & P4 & P5 & P6 & P7 & P8 & P9 & P10 & P11 & P12
          & P13 & P14 & P15).
    intros N. revert A D. unfold createActions, tool. cbn [assoc].
    intros A D.
    repeat (OrchestratorFacts.next_property name;
            [injection A as <-;
             unfold advertised in D;
             cbn [assoc String.eqb Ascii.eqb Bool.eqb] in D;
             injection D as _ <-;
             cbn [parse]; unfold parseWith; rewrite J;
             first [ exact P1 | exact P2 | exact P3 | exact P4 | exact P5
                   | exact P6 | exact P7 | exact P8 | exact P9 | exact P10
                   | exact P11 | exact P12 | exact P13 | exact P14
                   | exact P15 | now contradiction N ]|]).
    discriminate A. }
  split; [|split; [|split; reflexivity]].
  - destruct (String.eqb_spec name "locator_selectOption") as [->|N];
      [|now rewrite K].
    unfold createActions, tool in A.
    cbn [assoc String.eqb Ascii.eqb Bool.eqb] in A. injection A as <-.
    unfold advertised in D.
    cbn [assoc String.eqb Ascii.eqb Bool.eqb] in D. injection D as _ <-.
    cbn [parse]. unfold parseWith. rewrite J.
    intros R. destruct v as [| | | | |fields]; try discriminate R.
    rewrite <- select_option_parameters.
    change (accepts (JObj fields) = true) in R.
    rewrite SelectOptionSchema.accepts_eq in R.
    apply andb_true_iff in R. destruct R as [R _].
    apply andb_true_iff in R. exact (proj1 R).
  - intros N V. now rewrite K.
Qed.

(** Validation is a normal form: parsing the arguments that a parse
    returned returns them again, and every property of the arguments is
    a property of the input with the same value (validation drops and
    keeps, it never rewrites). *)
Theorem parsed_arguments_are_stable
    (name : string) (action : ActionTool Page) (raw raw' : string)
    (v args : json) :
  assoc name registry = Some action ->
  JSON_parse raw = inr v ->
  parse action raw = inr args ->
  (JSON_parse raw' = inr args -> parse action raw' = inr args)
  /\ forall k x, get k args = Some x -> get k v = Some x.
Proof.
  intros A J. unfold createActions, tool in A. cbn [assoc] in A.
  repeat (OrchestratorFacts.next_property name;
          [injection A as <-; cbn [parse]; unfold parseWith; rewrite J;
           intros P; split;
           [intros ->;
            first [ exact (@z_object_stable _ _ _ P)
                  | exact (@select_option_stable _ _ P) ]
           |intros k x G;
            first [ exact (@z_object_keeps _ _ _ _ _ P G)
                  | exact (@select_option_keeps _ _ _ _ P G) ]]|]).
  discriminate A.
Qed.

(** The tools sent to the model are those of the registry, one for each
    action and each under the key of its action, no name twice; the name
    of every tool resolves to an action of the registry, so that a call
    of a tool that was sent never is an unknown function. *)
Theorem advertised_tools_dispatch :
  map toolName (Advertised.tools registry) = map fst registry
  /\ NoDup (map toolName (Advertised.tools registry))
  /\ forall t, In t (Advertised.tools registry) ->
       exists action description parameters,
         lookup registry (toolName t) = Some (Own action)
         /\ name action = toolName t
         /\ assoc (toolName t) advertised = Some (description, parameters)
         /\ t = toolOf (toolName t) (Some (description, parameters)).
Proof.
  split; [reflexivity|]. split.
  - change (map toolName (Advertised.tools registry)) with (map fst registry).
    unfold createActions, tool. cbn [map fst].
    repeat (constructor; [cbn [In]; intuition discriminate|]).
    constructor.
  - unfold Advertised.tools, createActions, tool. cbn [map fst snd In name].
    intros t H.
    repeat (destruct H as [<-|H];
            [do 3 eexists; repeat split; reflexivity|]).
    contradiction.
Qed.

End Agreement.

Lemma parameters_agree_with_validation_witness :
  exists action description parameters,
    assoc "resultAssertion"
      (createActions Sample.sampleDrive Sample.sampleUuid Sample.sampleParse
         Sample.sampleOptions) = Some action
    /\ assoc "resultAssertion" advertised = Some (description, parameters)
    /\ returned (parse action "{assertion:true}") = true
    /\ validates parameters (JObj [("assertion", JBool true)]) = true.
Proof.
  do 3 eexists. split; [reflexivity|]. split; [reflexivity|].
  split; [reflexivity|].
  refine (proj1 (@parameters_agree_with_validation
                   Sample.SamplePage Sample.sampleDrive Sample.sampleUuid
                   Sample.sampleParse Sample.sampleOptions
                   "resultAssertion" _ _ _ "{assertion:true}"
                   (JObj [("assertion", JBool true)])
                   eq_refl eq_refl eq_refl) eq_refl).
Defined.

Lemma parsed_arguments_are_stable_witness :
  exists action,
    assoc "resultAssertion"
      (createActions Sample.sampleDrive Sample.sampleUuid Sample.sampleParse
         Sample.sampleOptions) = Some action
    /\ parse action "{assertion:true}"
       = inr (JObj [("assertion", JBool true)])
    /\ forall k x,
         get k (JObj [("assertion", JBool true)]) = Some x ->
         get k (JObj [("assertion", JBool true)]) = Some x.
Proof.
  eexists. split; [reflexivity|].
  destruct (@parsed_arguments_are_stable
              Sample.SamplePage Sample.sampleDrive Sample.sampleUuid
              Sample.sampleParse Sample.sampleOptions
              "resultAssertion" _ "{assertion:true}" "{assertion:true}"
              (JObj [("assertion", JBool true)])
              (JObj [("assertion", JBool true)])
              eq_refl eq_refl eq_refl) as [S K].
  split; [exact (S eq_refl) | exact K].
Defined.

End AdvertisedFacts.
